(** * A shallow embedding of the Lean 3 elaborator core and of the
      unification-hint registry

    Sources embedded here:
    - [frontends/lean/elaborator.cpp]: error recovery, the type-class instance
      worklist, coercion insertion, two-pass application elaboration, overload
      resolution, eliminator applications, anonymous constructors;
    - [src/library/unification_hint.cpp]: hint registration and lookup.

    The type checker ([type_context]), the environment, the pretty printer and
    the mutually recursive visitors of the elaborator that are not embedded are
    collaborators: they are fields of the class [External], and every
    definition below is parametric in them.  C++ exceptions are an explicit
    outcome, mutable members are threaded through a state record. *)

From Stdlib Require Import ZArith Lia List String Bool.
From stdpp Require Import base option countable gmap strings pretty.
Import ListNotations.

Set Default Proof Using "Type".
Open Scope Z_scope.
Open Scope list_scope.

(** ** Hierarchical names ([util/name.h]) *)

Inductive name :=
| anonymous
| mk_string (prefix : name) (s : string)
| mk_numeral (prefix : name) (n : N).

#[global] Instance name_eq_dec : EqDecision name.
Proof. solve_decision. Defined.

(** Components of a name, leaf first. *)
Fixpoint name_parts (n : name) : list (string + N) :=
  match n with
  | anonymous => []
  | mk_string p s => inl s :: name_parts p
  | mk_numeral p k => inr k :: name_parts p
  end.

Fixpoint name_of_parts (l : list (string + N)) : name :=
  match l with
  | [] => anonymous
  | inl s :: l' => mk_string (name_of_parts l') s
  | inr k :: l' => mk_numeral (name_of_parts l') k
  end.

Lemma name_of_parts_name_parts (n : name) : name_of_parts (name_parts n) = n.
Proof. induction n; simpl; congruence. Qed.

#[global] Instance name_countable : Countable name :=
  inj_countable' name_parts name_of_parts name_of_parts_name_parts.

(** ** Universe levels and terms ([kernel/level.h], [kernel/expr.h])

    Position tags are not part of a term's structure ([copy_tag] changes the
    tag only), so they are left out: [copy_tag ref e] is [e]. *)

Inductive level :=
| level_zero
| level_succ (l : level)
| level_max (l1 l2 : level)
| level_imax (l1 l2 : level)
| level_param (n : name)
| level_meta (n : name).

Inductive binder_info :=
| bi_default
| bi_implicit
| bi_strict_implicit
| bi_inst_implicit.

Inductive expr :=
| Var (idx : nat)
| Sort (l : level)
| Constant (n : name) (ls : list level)
| Meta (n : name) (type : expr)
| Local (n pp_n : name) (type : expr) (bi : binder_info)
| App (fn arg : expr)
| Lambda (n : name) (bi : binder_info) (domain body : expr)
| Pi (n : name) (bi : binder_info) (domain body : expr)
| Let (n : name) (type value body : expr)
| Macro (tag : string) (args : list expr).

Definition expr_pair : Type := expr * expr.

Definition is_app (e : expr) : bool := match e with App _ _ => true | _ => false end.
Definition is_pi (e : expr) : bool := match e with Pi _ _ _ _ => true | _ => false end.
Definition is_lambda (e : expr) : bool := match e with Lambda _ _ _ _ => true | _ => false end.
Definition is_constant (e : expr) : bool := match e with Constant _ _ => true | _ => false end.
Definition is_metavar (e : expr) : bool := match e with Meta _ _ => true | _ => false end.

(** The accessors are partial in C++ (an assertion guards them); each
    returns its argument's relevant part and [e] itself off its domain, which
    the embedded code never reaches. *)
Definition app_fn (e : expr) : expr := match e with App f _ => f | _ => e end.
Definition app_arg (e : expr) : expr := match e with App _ a => a | _ => e end.
Definition binding_domain (e : expr) : expr :=
  match e with Pi _ _ d _ | Lambda _ _ d _ => d | _ => e end.
Definition binding_body (e : expr) : expr :=
  match e with Pi _ _ _ b | Lambda _ _ _ b => b | _ => e end.
Definition binding_info (e : expr) : binder_info :=
  match e with Pi _ bi _ _ | Lambda _ bi _ _ => bi | _ => bi_default end.
Definition const_name (e : expr) : name :=
  match e with Constant n _ => n | _ => anonymous end.

Definition is_explicit (bi : binder_info) : bool :=
  match bi with bi_default => true | _ => false end.
Definition is_inst_implicit (bi : binder_info) : bool :=
  match bi with bi_inst_implicit => true | _ => false end.

Fixpoint get_app_fn (e : expr) : expr :=
  match e with App f _ => get_app_fn f | _ => e end.

(** [get_app_args e args] appends the arguments of [e], leftmost first. *)
Fixpoint get_app_rev_args (e : expr) : list expr :=
  match e with App f a => a :: get_app_rev_args f | _ => [] end.
Definition get_app_args (e : expr) : list expr := rev (get_app_rev_args e).

Definition mk_app (f : expr) (args : list expr) : expr := fold_left App args f.

(** [is_app_of e n nargs]: [e] is [n] applied to exactly [nargs] arguments. *)
Definition is_app_of (e : expr) (n : name) (nargs : nat) : bool :=
  match get_app_fn e with
  | Constant m _ => bool_decide (m = n) && Nat.eqb (List.length (get_app_rev_args e)) nargs
  | _ => false
  end.

(** The metavariable flag every term caches: some subterm is a metavariable
    (the type of a local constant counts). *)
Fixpoint has_expr_metavar (e : expr) : bool :=
  match e with
  | Var _ | Sort _ | Constant _ _ => false
  | Meta _ _ => true
  | Local _ _ t _ => has_expr_metavar t
  | App f a => has_expr_metavar f || has_expr_metavar a
  | Lambda _ _ d b | Pi _ _ d b => has_expr_metavar d || has_expr_metavar b
  | Let _ t v b => has_expr_metavar t || has_expr_metavar v || has_expr_metavar b
  | Macro _ args => existsb has_expr_metavar args
  end.

Definition mk_Prop : expr := Sort level_zero.

(** [e == mk_Prop()]: structural equality with the sort of level zero. *)
Definition is_Prop_expr (e : expr) : bool :=
  match e with Sort level_zero => true | _ => false end.

Definition mk_constant (n : name) : expr := Constant n [].
Definition mk_constant_with_levels (n : name) (ls : list level) : expr := Constant n ls.
Definition mk_sort (l : level) : expr := Sort l.

(** Structural equality of terms; binder names and binder information are
    compared too (finer than Lean's [==], which is enough where it is used:
    the concrete checkers of the examples). *)
Fixpoint level_eqb (a b : level) : bool :=
  match a, b with
  | level_zero, level_zero => true
  | level_succ x, level_succ y => level_eqb x y
  | level_max x1 x2, level_max y1 y2 => level_eqb x1 y1 && level_eqb x2 y2
  | level_imax x1 x2, level_imax y1 y2 => level_eqb x1 y1 && level_eqb x2 y2
  | level_param n, level_param m => bool_decide (n = m)
  | level_meta n, level_meta m => bool_decide (n = m)
  | _, _ => false
  end.

Definition binder_info_eqb (a b : binder_info) : bool :=
  match a, b with
  | bi_default, bi_default | bi_implicit, bi_implicit
  | bi_strict_implicit, bi_strict_implicit | bi_inst_implicit, bi_inst_implicit => true
  | _, _ => false
  end.

Fixpoint list_eqb {A : Type} (eqb : A -> A -> bool) (l1 l2 : list A) : bool :=
  match l1, l2 with
  | [], [] => true
  | x :: l1', y :: l2' => eqb x y && list_eqb eqb l1' l2'
  | _, _ => false
  end.

Fixpoint expr_eqb (a b : expr) : bool :=
  match a, b with
  | Var i, Var j => Nat.eqb i j
  | Sort l, Sort l' => level_eqb l l'
  | Constant n ls, Constant m ms => bool_decide (n = m) && list_eqb level_eqb ls ms
  | Meta n t, Meta m t' => bool_decide (n = m) && expr_eqb t t'
  | Local n p t bi, Local m q t' bi' =>
      bool_decide (n = m) && bool_decide (p = q) && expr_eqb t t' && binder_info_eqb bi bi'
  | App f x, App g y => expr_eqb f g && expr_eqb x y
  | Lambda n bi d b, Lambda m bi' d' b' =>
      bool_decide (n = m) && binder_info_eqb bi bi' && expr_eqb d d' && expr_eqb b b'
  | Pi n bi d b, Pi m bi' d' b' =>
      bool_decide (n = m) && binder_info_eqb bi bi' && expr_eqb d d' && expr_eqb b b'
  | Let n t v b, Let m t' v' b' =>
      bool_decide (n = m) && expr_eqb t t' && expr_eqb v v' && expr_eqb b b'
  | Macro s xs, Macro s' ys =>
      String.eqb s s' &&
      (fix go (l1 l2 : list expr) : bool :=
         match l1, l2 with
         | [], [] => true
         | x :: l1', y :: l2' => expr_eqb x y && go l1' l2'
         | _, _ => false
         end) xs ys
  | _, _ => false
  end.

(** ** Messages and exceptions

    A [format] is the document an error message is built from.  The pretty
    printer is a collaborator: [fmt_pp e] stands for the printed term [e],
    [fmt_goal lctx_of C] for the printed goal of a failed instance search. *)

Inductive format :=
| fmt_nil
| fmt_text (s : string)
| fmt_name (n : name)
| fmt_nat (n : nat)
| fmt_pp (e : expr)
| fmt_goal (C : expr)
| fmt_line
| fmt_space
| fmt_nest (indent : nat) (f : format)
| fmt_paren (f : format)
| fmt_cat (f g : format).

Declare Scope format_scope.
Delimit Scope format_scope with format.
Bind Scope format_scope with format.
Infix "<+>" := fmt_cat (at level 50, left associativity) : format_scope.
Open Scope format_scope.

(** [fmt_occurs x f]: the document [x] is a part of the document [f]. *)
Inductive fmt_occurs (x : format) : format -> Prop :=
| occurs_here : fmt_occurs x x
| occurs_nest i f : fmt_occurs x f -> fmt_occurs x (fmt_nest i f)
| occurs_paren f : fmt_occurs x f -> fmt_occurs x (fmt_paren f)
| occurs_left f g : fmt_occurs x f -> fmt_occurs x (f <+> g)
| occurs_right f g : fmt_occurs x g -> fmt_occurs x (f <+> g).

(** The classes of the C++ exceptions the elaborator throws and catches:
    [elaborator_exception] and its subclass [nested_elaborator_exception]
    derive from [lean::exception], as do [app_builder_exception] and
    [class_exception]; [lean::exception] derives from [std::exception]. *)
Inductive exception_kind :=
| generic_exception
| app_builder_exception
| class_exception.

Inductive exn :=
| elaborator_exception (ref : expr) (msg : format)
| nested_elaborator_exception (ref : expr) (inner : exn) (msg : format)
| lean_exception (k : exception_kind) (what : string)
| std_exception (what : string).

(** [catch (elaborator_exception &)] *)
Definition is_elaborator_exception (e : exn) : bool :=
  match e with
  | elaborator_exception _ _ | nested_elaborator_exception _ _ _ => true
  | _ => false
  end.

(** [catch (exception &)] *)
Definition is_lean_exception (e : exn) : bool :=
  match e with std_exception _ => false | _ => true end.

(** [catch (std::exception &)] *)
Definition is_std_exception (e : exn) : bool := true.

(** [catch (app_builder_exception &)], [catch (class_exception &)] *)
Definition is_app_builder_exception (e : exn) : bool :=
  match e with lean_exception app_builder_exception _ => true | _ => false end.
Definition is_class_exception (e : exn) : bool :=
  match e with lean_exception class_exception _ => true | _ => false end.

(** ** Computations: state and exceptions

    A C++ member function is a function from the state before the call to an
    [outcome]: a value and the state after, or an exception in flight with
    the state at the throw.  A loop with no structural bound takes fuel and
    returns [None] when it runs out ([MF] below). *)

Inductive outcome (S A : Type) :=
| Val (a : A) (s : S)
| Exc (e : exn) (s : S).
Arguments Val {S A} a s.
Arguments Exc {S A} e s.

Definition M (S A : Type) : Type := S -> outcome S A.

Definition ret {S A} (a : A) : M S A := fun s => Val a s.

Definition bind {S A B} (m : M S A) (k : A -> M S B) : M S B :=
  fun s => match m s with
           | Val a s' => k a s'
           | Exc e s' => Exc e s'
           end.

Definition throw {S A} (e : exn) : M S A := fun s => Exc e s.

(** [try { body } catch (C & ex) { handler }], [C] given by [handles]. *)
Definition try_catch {S A} (body : M S A) (handles : exn -> bool) (handler : exn -> M S A)
  : M S A :=
  fun s => match body s with
           | Exc e s' => if handles e then handler e s' else Exc e s'
           | r => r
           end.

(** Run [body], then [cleanup] on the way out, by return or by exception:
    what a destructor of a stack object does. *)
Definition finally {S A} (body : M S A) (cleanup : S -> S) : M S A :=
  fun s => match body s with
           | Val a s' => Val a (cleanup s')
           | Exc e s' => Exc e (cleanup s')
           end.

Definition get {S} : M S S := fun s => Val s s.
Definition gets {S A} (f : S -> A) : M S A := fun s => Val (f s) s.
Definition modify {S} (f : S -> S) : M S unit := fun s => Val tt (f s).

Declare Scope elab_scope.
Delimit Scope elab_scope with elab.
Notation "'let*' x ':=' c1 'in' c2" := (bind c1 (fun x => c2))
  (at level 10, x name, c1 at level 100, c2 at level 200) : elab_scope.
Notation "'let*' ' p ':=' c1 'in' c2" := (bind c1 (fun x => match x with p => c2 end))
  (at level 10, p pattern, c1 at level 100, c2 at level 200) : elab_scope.
Notation "c1 ;; c2" := (bind c1 (fun _ => c2))
  (at level 100, c2 at level 200, right associativity) : elab_scope.
Open Scope elab_scope.

(** Fuelled computations: [None] when the fuel ran out. *)
Definition MF (S A : Type) : Type := S -> option (outcome S A).

Definition liftF {S A} (m : M S A) : MF S A := fun s => Some (m s).

Definition bindF {S A B} (m : MF S A) (k : A -> MF S B) : MF S B :=
  fun s => match m s with
           | Some (Val a s') => k a s'
           | Some (Exc e s') => Some (Exc e s')
           | None => None
           end.

(** Monadic iteration over a buffer, left to right. *)
Fixpoint mapM {S A B} (f : A -> M S B) (l : list A) : M S (list B) :=
  match l with
  | [] => ret []
  | x :: l' => let* y := f x in let* ys := mapM f l' in ret (y :: ys)
  end.

Fixpoint forM_ {S A} (f : A -> M S unit) (l : list A) : M S unit :=
  match l with
  | [] => ret tt
  | x :: l' => f x ;; forM_ f l'
  end.

(** ** The state of an elaborator *)

(** The carriers of the collaborators' data. *)
Class Carriers := {
  metavar_context : Type;
  local_context : Type;
  environment : Type;
  options : Type;
  info_manager : Type;
  (** what a [type_context] holds besides the fields named below: caches,
      postponed universe constraints, transparency mode *)
  tc_internal : Type;
}.

Section State.
Context {C : Carriers}.

Record type_context := mk_type_context {
  tc_mctx : metavar_context;
  tc_lctx : local_context;
  tc_approximate : bool;
  tc_full_postponed : bool;
  tc_rest : tc_internal;
}.

Definition set_mctx (m : metavar_context) (c : type_context) : type_context :=
  mk_type_context m (tc_lctx c) (tc_approximate c) (tc_full_postponed c) (tc_rest c).
Definition set_approximate (b : bool) (c : type_context) : type_context :=
  mk_type_context (tc_mctx c) (tc_lctx c) b (tc_full_postponed c) (tc_rest c).
Definition set_full_postponed (b : bool) (c : type_context) : type_context :=
  mk_type_context (tc_mctx c) (tc_lctx c) (tc_approximate c) b (tc_rest c).

(** Lean's [list<T>] is an immutable linked list of shared cells; [is_eqp]
    compares the addresses of the head cells.  A cell is its address and its
    element; the empty list is the null pointer. *)
Definition plist : Type := list (positive * expr).
Definition plist_ptr (l : plist) : option positive :=
  match l with [] => None | (a, _) :: _ => Some a end.
Definition is_eqp (l1 l2 : plist) : bool := bool_decide (plist_ptr l1 = plist_ptr l2).
Definition elems (l : plist) : list expr := map snd l.

Record elab_state := mk_elab_state {
  m_env : environment;
  m_opts : options;
  m_ctx : type_context;
  m_info : info_manager;
  m_instances : plist;
  m_numeral_types : list expr;
  m_tactics : list expr_pair;
  m_inaccessible_stack : list expr_pair;
  m_recover_from_errors : bool;
  m_has_errors : bool;
  m_coercions : bool;
  m_in_pattern : bool;
  m_in_quote : bool;
  (** [get_pos_info_provider() != nullptr] *)
  pos_info_provider : bool;
  (** the diagnostics [message_builder::report] has sent out, newest first *)
  reported : list (exn * option expr);
  (** the next free address of the allocator of list cells *)
  heap_next : positive;
}.

Definition set_m_ctx (c : type_context) (s : elab_state) : elab_state :=
  mk_elab_state (m_env s) (m_opts s) c (m_info s) (m_instances s) (m_numeral_types s)
    (m_tactics s) (m_inaccessible_stack s) (m_recover_from_errors s) (m_has_errors s)
    (m_coercions s) (m_in_pattern s) (m_in_quote s) (pos_info_provider s) (reported s)
    (heap_next s).
Definition set_m_info (i : info_manager) (s : elab_state) : elab_state :=
  mk_elab_state (m_env s) (m_opts s) (m_ctx s) i (m_instances s) (m_numeral_types s)
    (m_tactics s) (m_inaccessible_stack s) (m_recover_from_errors s) (m_has_errors s)
    (m_coercions s) (m_in_pattern s) (m_in_quote s) (pos_info_provider s) (reported s)
    (heap_next s).
Definition set_m_instances (l : plist) (s : elab_state) : elab_state :=
  mk_elab_state (m_env s) (m_opts s) (m_ctx s) (m_info s) l (m_numeral_types s)
    (m_tactics s) (m_inaccessible_stack s) (m_recover_from_errors s) (m_has_errors s)
    (m_coercions s) (m_in_pattern s) (m_in_quote s) (pos_info_provider s) (reported s)
    (heap_next s).
Definition set_m_numeral_types (l : list expr) (s : elab_state) : elab_state :=
  mk_elab_state (m_env s) (m_opts s) (m_ctx s) (m_info s) (m_instances s) l
    (m_tactics s) (m_inaccessible_stack s) (m_recover_from_errors s) (m_has_errors s)
    (m_coercions s) (m_in_pattern s) (m_in_quote s) (pos_info_provider s) (reported s)
    (heap_next s).
Definition set_m_tactics (l : list expr_pair) (s : elab_state) : elab_state :=
  mk_elab_state (m_env s) (m_opts s) (m_ctx s) (m_info s) (m_instances s) (m_numeral_types s)
    l (m_inaccessible_stack s) (m_recover_from_errors s) (m_has_errors s)
    (m_coercions s) (m_in_pattern s) (m_in_quote s) (pos_info_provider s) (reported s)
    (heap_next s).
Definition set_m_inaccessible_stack (l : list expr_pair) (s : elab_state) : elab_state :=
  mk_elab_state (m_env s) (m_opts s) (m_ctx s) (m_info s) (m_instances s) (m_numeral_types s)
    (m_tactics s) l (m_recover_from_errors s) (m_has_errors s)
    (m_coercions s) (m_in_pattern s) (m_in_quote s) (pos_info_provider s) (reported s)
    (heap_next s).
Definition set_m_recover_from_errors (b : bool) (s : elab_state) : elab_state :=
  mk_elab_state (m_env s) (m_opts s) (m_ctx s) (m_info s) (m_instances s) (m_numeral_types s)
    (m_tactics s) (m_inaccessible_stack s) b (m_has_errors s)
    (m_coercions s) (m_in_pattern s) (m_in_quote s) (pos_info_provider s) (reported s)
    (heap_next s).
Definition set_m_has_errors (b : bool) (s : elab_state) : elab_state :=
  mk_elab_state (m_env s) (m_opts s) (m_ctx s) (m_info s) (m_instances s) (m_numeral_types s)
    (m_tactics s) (m_inaccessible_stack s) (m_recover_from_errors s) b
    (m_coercions s) (m_in_pattern s) (m_in_quote s) (pos_info_provider s) (reported s)
    (heap_next s).
Definition set_m_opts (o : options) (s : elab_state) : elab_state :=
  mk_elab_state (m_env s) o (m_ctx s) (m_info s) (m_instances s) (m_numeral_types s)
    (m_tactics s) (m_inaccessible_stack s) (m_recover_from_errors s) (m_has_errors s)
    (m_coercions s) (m_in_pattern s) (m_in_quote s) (pos_info_provider s) (reported s)
    (heap_next s).
Definition set_reported (r : list (exn * option expr)) (s : elab_state) : elab_state :=
  mk_elab_state (m_env s) (m_opts s) (m_ctx s) (m_info s) (m_instances s) (m_numeral_types s)
    (m_tactics s) (m_inaccessible_stack s) (m_recover_from_errors s) (m_has_errors s)
    (m_coercions s) (m_in_pattern s) (m_in_quote s) (pos_info_provider s) r
    (heap_next s).
Definition set_heap_next (p : positive) (s : elab_state) : elab_state :=
  mk_elab_state (m_env s) (m_opts s) (m_ctx s) (m_info s) (m_instances s) (m_numeral_types s)
    (m_tactics s) (m_inaccessible_stack s) (m_recover_from_errors s) (m_has_errors s)
    (m_coercions s) (m_in_pattern s) (m_in_quote s) (pos_info_provider s) (reported s)
    p.

(** A call of a [type_context] method on the member [m_ctx]. *)
Definition lift_ctx {A} (m : M type_context A) : M elab_state A :=
  fun s => match m (m_ctx s) with
           | Val a c => Val a (set_m_ctx c s)
           | Exc e c => Exc e (set_m_ctx c s)
           end.

(** [flet<bool> dont_recover(m_recover_from_errors, v)] around [body]. *)
Definition flet_recover_from_errors {A} (v : bool) (body : M elab_state A) : M elab_state A :=
  fun s => finally body (set_m_recover_from_errors (m_recover_from_errors s))
             (set_m_recover_from_errors v s).

(** [flet<options> set_opts(m_opts, v)] around [body]. *)
Definition flet_opts {A} (v : options) (body : M elab_state A) : M elab_state A :=
  fun s => finally body (set_m_opts (m_opts s)) (set_m_opts v s).

(** [cons(x, l)] and [to_list(buffer)]: every cell is a fresh allocation;
    [to_list] conses from the last element back, so the head cell is the
    newest. *)
Definition alloc_cell : M elab_state positive :=
  fun s => Val (heap_next s) (set_heap_next (Pos.succ (heap_next s)) s).
Definition cons_list (x : expr) (l : plist) : M elab_state plist :=
  let* a := alloc_cell in ret ((a, x) :: l).
Fixpoint to_list (buf : list expr) : M elab_state plist :=
  match buf with
  | [] => ret []
  | x :: buf' => let* l := to_list buf' in cons_list x l
  end.

(** *** Snapshots (lines 3293-3309) *)

Record snapshot := mk_snapshot {
  m_saved_mctx : metavar_context;
  m_saved_info : info_manager;
  m_saved_instances : plist;
  m_saved_numeral_types : list expr;
  m_saved_tactics : list expr_pair;
  m_saved_inaccessible_stack : list expr_pair;
}.

(** [snapshot::snapshot(elaborator const & e)] *)
Definition take_snapshot (e : elab_state) : snapshot :=
  mk_snapshot (tc_mctx (m_ctx e)) (m_info e) (m_instances e) (m_numeral_types e)
    (m_tactics e) (m_inaccessible_stack e).

(** [snapshot::restore(elaborator & e)] *)
Definition restore (S : snapshot) (e : elab_state) : elab_state :=
  set_m_inaccessible_stack (m_saved_inaccessible_stack S)
    (set_m_tactics (m_saved_tactics S)
       (set_m_numeral_types (m_saved_numeral_types S)
          (set_m_instances (m_saved_instances S)
             (set_m_info (m_saved_info S)
                (set_m_ctx (set_mctx (m_saved_mctx S) (m_ctx e)) e))))).

End State.

(** ** Constants of the library ([library/constants.h]) *)

Definition get_decidable_name : name := mk_string anonymous "decidable".
Definition get_decidable_to_bool_name : name := mk_string get_decidable_name "to_bool".
Definition get_has_coe_t_name : name := mk_string anonymous "has_coe_t".
Definition get_coe_to_lift_name : name := mk_string anonymous "coe_to_lift".
Definition get_coe_name : name := mk_string anonymous "coe".
Definition get_monad_name : name := mk_string anonymous "monad".
Definition get_bool_name : name := mk_string anonymous "bool".
Definition get_nat_name : name := mk_string anonymous "nat".
Definition get_opt_param_name : name := mk_string anonymous "opt_param".
Definition get_emptyc_name : name := mk_string anonymous "emptyc".
Definition get_unification_hint_name : name := mk_string anonymous "unification_hint".
Definition get_unification_hint_mk_name : name := mk_string get_unification_hint_name "mk".
Definition get_list_cons_name : name := mk_string (mk_string anonymous "list") "cons".
Definition get_list_nil_name : name := mk_string (mk_string anonymous "list") "nil".

Definition mk_bool : expr := mk_constant get_bool_name.

(** ** Data of the elaborator *)

Inductive arg_mask := AllExplicit | InstHoExplicit | Default.

Inductive elaborator_strategy := Simple | WithExpectedType | AsEliminator.

Definition elaborator_strategy_eqb (a b : elaborator_strategy) : bool :=
  match a, b with
  | Simple, Simple | WithExpectedType, WithExpectedType | AsEliminator, AsEliminator => true
  | _, _ => false
  end.

Definition arg_mask_is_default (a : arg_mask) : bool :=
  match a with Default => true | _ => false end.

(** [struct elaborator::first_pass_info] (lines 1153-1167) *)
Record first_pass_info := mk_first_pass_info {
  args_mvars : list expr;
  args_expected_types : list expr;
  fp_new_args : list expr;
  new_args_size : list nat;
  new_instances : list expr;
  new_instances_size : list nat;
  fp_eta_args : list expr;
}.

(** [struct elaborator::elim_info] *)
Record elim_info := mk_elim_info {
  m_arity : nat;
  m_nexplicit : nat;
  m_motive_idx : nat;
  m_idxs : list nat;
}.

(** ** The collaborators *)

Section Elaborator.
Context {C : Carriers}.

Class External := {
  (** *** [type_context] methods, called on [m_ctx] *)
  tc_infer : expr -> M type_context expr;
  tc_whnf : expr -> M type_context expr;
  tc_relaxed_whnf : expr -> M type_context expr;
  tc_is_def_eq : expr -> expr -> M type_context bool;
  tc_instantiate_mvars : expr -> M type_context expr;
  tc_mk_class_instance_at : local_context -> expr -> M type_context (option expr);
  tc_mk_class_instance : expr -> M type_context (option expr);
  tc_mk_metavar_decl : local_context -> expr -> M type_context expr;
  tc_mk_univ_metavar_decl : M type_context level;
  (** [kabstract(m_ctx, e, k)] *)
  tc_kabstract : expr -> expr -> M type_context expr;
  (** the application builder [mk_app(m_ctx, c, args)]; it throws
      [app_builder_exception] *)
  ab_mk_app : name -> list expr -> M type_context expr;
  (** [mctx.get_metavar_decl(mvar).get_context()] *)
  get_decl_context : metavar_context -> expr -> local_context;
  (** *** kernel and library functions *)
  instantiate : expr -> expr -> expr;
  is_class_out_param : expr -> bool;
  lib_mk_sorry : expr -> expr;
  mk_expr_placeholder : option expr -> expr;
  get_anonymous_constructor_arg : expr -> expr;
  mk_anonymous_constructor : expr -> expr;
  mk_empty_structure_instance : expr;
  mk_as_is : expr -> expr;
  (** *** the environment *)
  strategy_attribute : environment -> name -> option elaborator_strategy;
  is_elim_rule : environment -> name -> bool;
  is_aux_recursor : environment -> name -> bool;
  is_user_defined_recursor : environment -> name -> bool;
  is_private : environment -> name -> bool;
  is_inductive_decl : environment -> name -> bool;
  get_intro_rule_names : environment -> name -> list name;
  (** [env.get(n).get_type()] *)
  env_get_type : environment -> name -> expr;
  is_structure : environment -> name -> bool;
  (** *** options and printing *)
  get_pp_indent : options -> nat;
  (** [m_opts.update_if_undef(get_pp_full_names_name(), true)] *)
  with_pp_full_names : options -> options;
  (** [ex.pp()] *)
  exn_pp : exn -> format;
  (** *** methods of the elaborator that are not embedded *)
  visit : expr -> option expr -> M elab_state expr;
  visit_function : expr -> bool -> expr -> M elab_state expr;
  first_pass : expr -> list expr -> expr -> expr -> M elab_state first_pass_info;
  second_pass : expr -> list expr -> expr -> first_pass_info -> M elab_state expr;
  visit_base_app_simple :
    expr -> arg_mask -> list expr -> bool -> option expr -> expr -> M elab_state expr;
  get_level : expr -> expr -> M elab_state level;
  try_to_pi : expr -> M elab_state expr;
  assign_mvar : expr -> expr -> M elab_state bool;
  synthesize_using_tactics : M elab_state unit;
}.

Context {X : External}.

Definition instantiate_mvars (e : expr) : M elab_state expr := lift_ctx (tc_instantiate_mvars e).
Definition infer_type (e : expr) : M elab_state expr := lift_ctx (tc_infer e).
Definition whnf (e : expr) : M elab_state expr := lift_ctx (tc_whnf e).

(** [pp_indent(pp_fn, e)] (lines 152-155) *)
Definition pp_indent (e : expr) : M elab_state format :=
  let* i := gets (fun s => get_pp_indent (m_opts s)) in
  ret (fmt_nest i (fmt_line <+> fmt_pp e)).

(** *** Error recovery (lines 198-243) *)

(** [elaborator::try_report(ex, ref)] *)
Definition try_report (ex : exn) (ref : option expr) : M elab_state bool :=
  fun s =>
    if negb (m_recover_from_errors s) then Val false s
    else if negb (pos_info_provider s) then Val false s
    else Val true (set_m_has_errors true (set_reported ((ex, ref) :: reported s) s)).

(** [elaborator::report_or_throw(ex)]; the argument is an
    [elaborator_exception], given by its reference and message. *)
Definition report_or_throw (ex_ref : expr) (ex_msg : format) : M elab_state unit :=
  let* b := try_report (elaborator_exception ex_ref ex_msg) None in
  if negb b then throw (elaborator_exception ex_ref ex_msg) else ret tt.

Definition mk_univ_metavar : M elab_state level := lift_ctx tc_mk_univ_metavar_decl.

Definition mk_metavar (A : expr) (ref : expr) : M elab_state expr :=
  let* lctx := gets (fun s => tc_lctx (m_ctx s)) in
  lift_ctx (tc_mk_metavar_decl lctx A).

Definition mk_type_metavar (ref : expr) : M elab_state expr :=
  let* l := mk_univ_metavar in
  mk_metavar (mk_sort l) ref.

(** [elaborator::mk_sorry(expected_type, ref)] *)
Definition mk_sorry (expected_type : option expr) (ref : expr) : M elab_state expr :=
  let* sorry_type :=
    match expected_type with
    | Some t => ret t
    | None => mk_type_metavar ref
    end in
  ret (lib_mk_sorry sorry_type).

(** [elaborator::recoverable_error(expected_type, ref, ex)] *)
Definition recoverable_error (expected_type : option expr) (ref : expr)
    (ex_ref : expr) (ex_msg : format) : M elab_state expr :=
  report_or_throw ex_ref ex_msg ;;
  mk_sorry expected_type ref.

(** [elaborator::recover_expr_from_exception(expected_type, ref, fn)] *)
Definition recover_expr_from_exception (expected_type : option expr) (ref : expr)
    (fn : M elab_state expr) : M elab_state expr :=
  try_catch fn is_std_exception
    (fun ex =>
       let* b := try_report ex (Some ref) in
       if negb b then throw ex else mk_sorry expected_type ref).

(** *** Type-class instances (lines 265-319) *)

(** [elaborator::mk_instance_core(lctx, C, ref)] *)
Definition mk_instance_core (lctx : local_context) (C_ : expr) (ref : expr)
  : M elab_state expr :=
  let* inst := lift_ctx (tc_mk_class_instance_at lctx C_) in
  match inst with
  | None =>
      recoverable_error (Some C_) ref ref
        (fmt_text "failed to synthesize type class instance for" <+> fmt_line <+> fmt_goal C_)
  | Some i => ret i
  end.

(** [while (is_pi(inst_type)) inst_type = binding_body(inst_type);] *)
Fixpoint strip_pis (e : expr) : expr :=
  match e with Pi _ _ _ b => strip_pis b | _ => e end.

(** The loop over [C_args] of [ready_to_synthesize], [it] the rest of the
    type of the class. *)
Fixpoint ready_args (it : expr) (C_args : list expr) : bool :=
  match C_args with
  | [] => true
  | C_arg :: rest =>
      if negb (is_pi it) then false
      else if has_expr_metavar C_arg && negb (is_class_out_param (binding_domain it)) then false
      else ready_args (binding_body it) rest
  end.

(** [elaborator::ready_to_synthesize(inst_type)] *)
Definition ready_to_synthesize (inst_type : expr) : M elab_state bool :=
  if negb (has_expr_metavar inst_type) then ret true
  else
    let inst_type := strip_pis inst_type in
    let C_args := get_app_args inst_type in
    let C_ := get_app_fn inst_type in
    if negb (is_constant C_) then ret false
    else
      let* it := lift_ctx (tc_infer C_) in
      ret (ready_args it C_args).

(** [elaborator::mk_instance(C, ref)] *)
Definition mk_instance (C_ : expr) (ref : expr) : M elab_state expr :=
  let* pq := gets (fun s => m_in_pattern s && m_in_quote s) in
  if pq then ret (mk_expr_placeholder (Some C_))
  else
    let* ready := ready_to_synthesize C_ in
    if negb ready then
      let* inst := mk_metavar C_ ref in
      let* old := gets m_instances in
      let* l := cons_list inst old in
      modify (set_m_instances l) ;;
      ret inst
    else
      let* lctx := gets (fun s => tc_lctx (m_ctx s)) in
      mk_instance_core lctx C_ ref.

(** *** Coercions (lines 537-704) *)

(** [elaborator::is_def_eq(e1, e2)]: [m_ctx.is_def_eq] inside a
    [type_context::approximate_scope], any [lean::exception] read as
    [false]. *)
Definition is_def_eq (e1 e2 : expr) : M elab_state bool :=
  fun s =>
    finally
      (try_catch (lift_ctx (tc_is_def_eq e1 e2)) is_lean_exception (fun _ => ret false))
      (fun s' => set_m_ctx (set_approximate (tc_approximate (m_ctx s)) (m_ctx s')) s')
      (set_m_ctx (set_approximate true (m_ctx s)) s).

(** [elaborator::mk_Prop_to_bool_coercion(e, ref)] *)
Definition mk_Prop_to_bool_coercion (e : expr) (ref : expr) : M elab_state (option expr) :=
  let dec := App (mk_constant get_decidable_name) e in
  let* inst := mk_instance dec ref in
  let r := mk_app (mk_constant get_decidable_to_bool_name) [e; inst] in
  ret (Some r).

(** [elaborator::mk_coercion_core(e, e_type, type, ref)] *)
Definition mk_coercion_core (e e_type type ref : expr) : M elab_state (option expr) :=
  let* to_bool :=
    if is_Prop_expr e_type then lift_ctx (tc_is_def_eq type mk_bool) else ret false in
  if to_bool then mk_Prop_to_bool_coercion e ref
  else if negb (has_expr_metavar e_type) && negb (has_expr_metavar type) then
    let* has_coe_t :=
      try_catch
        (let* r := lift_ctx (ab_mk_app get_has_coe_t_name [e_type; type]) in ret (Some r))
        is_app_builder_exception (fun _ => ret None) in
    match has_coe_t with
    | None => ret None
    | Some has_coe_t =>
        let* lctx := gets (fun s => tc_lctx (m_ctx s)) in
        let* inst :=
          try_catch
            (let* r := lift_ctx (tc_mk_class_instance_at lctx has_coe_t) in ret (Some r))
            is_class_exception (fun _ => ret None) in
        match inst with
        | None | Some None => ret None
        | Some (Some inst) =>
            let* u_1 := get_level e_type ref in
            let* u_2 := get_level type ref in
            let coe_to_lift :=
              mk_app (mk_constant_with_levels get_coe_to_lift_name [u_1; u_2])
                [e_type; type; inst] in
            let coe :=
              mk_app (mk_constant_with_levels get_coe_name [u_1; u_2])
                [e_type; type; coe_to_lift; e] in
            ret (Some coe)
        end
    end
  else ret None.

(** [elaborator::is_monad(e)] *)
Definition is_monad (e : expr) : M elab_state bool :=
  try_catch
    (try_catch
       (let* m := lift_ctx (ab_mk_app get_monad_name [e]) in
        let* i := lift_ctx (tc_mk_class_instance m) in
        ret (match i with Some _ => true | None => false end))
       is_app_builder_exception (fun _ => ret false))
    is_class_exception (fun _ => ret false).

(** The tests of [try_monad_coercion] that come before the calls of
    [is_monad] in the chain of [||]: when one holds the heuristic is not
    applicable. *)
Definition monad_coercion_shape_excluded (e_type type : expr) : bool :=
  (has_expr_metavar e_type && has_expr_metavar type)
  || (negb (has_expr_metavar e_type) && negb (has_expr_metavar type))
  || negb (is_app e_type)
  || negb (is_app type)
  || has_expr_metavar (app_fn type)
  || has_expr_metavar (app_fn e_type)
  || (negb (is_metavar (app_arg e_type)) && negb (is_metavar (app_arg type))).

(** [elaborator::try_monad_coercion(e, e_type, type, ref)] *)
Definition try_monad_coercion (e e_type type ref : expr) : M elab_state (option expr) :=
  if monad_coercion_shape_excluded e_type type then ret None
  else
    let* m1 := is_monad (app_fn e_type) in
    if negb m1 then ret None
    else
      let* m2 := is_monad (app_fn type) in
      if negb m2 then ret None
      else
        let* eq := lift_ctx (tc_is_def_eq (app_arg e_type) (app_arg type)) in
        if negb eq then ret None
        else
          let* type := instantiate_mvars type in
          mk_coercion_core e e_type type ref.

(** [elaborator::mk_coercion(e, e_type, type, ref)] *)
Definition mk_coercion (e e_type type ref : expr) : M elab_state (option expr) :=
  let* coercions := gets m_coercions in
  if negb coercions then ret None
  else
    let* e_type := instantiate_mvars e_type in
    let* type := instantiate_mvars type in
    if negb (has_expr_metavar e_type) && negb (has_expr_metavar type) then
      mk_coercion_core e e_type type ref
    else
      let* r := try_monad_coercion e e_type type ref in
      match r with
      | Some _ => ret r
      | None => ret None
      end.

(** [elaborator::ensure_has_type(e, e_type, type, ref)] *)
Definition ensure_has_type (e e_type type ref : expr) : M elab_state (option expr) :=
  let* eq := is_def_eq e_type type in
  if eq then ret (Some e)
  else mk_coercion e e_type type ref.

(** *** The worklists (lines 3064-3132, 3187-3196) *)

Definition get_default_numeral_type : expr := mk_constant get_nat_name.

(** [elaborator::synthesize_numeral_types()] *)
Definition synthesize_numeral_types : M elab_state unit :=
  let* numeral_types := gets m_numeral_types in
  forM_ (fun A =>
           let* A' := instantiate_mvars A in
           if is_metavar A' then
             let* ok := assign_mvar A get_default_numeral_type in
             if negb ok then
               report_or_throw A
                 (fmt_text "invalid numeral, failed to force numeral to be a nat")
             else ret tt
           else ret tt)
        numeral_types ;;
  modify (set_m_numeral_types []).

(** The message of the error for a synthesized instance that differs from
    the inferred one (lines 3088-3092); [i] is [get_pp_indent(m_opts)]. *)
Definition instance_mismatch_msg (i : nat) (synthesized_inst inferred_inst : expr) : format :=
  fmt_text "synthesized type class instance is not definitionally equal to expression inferred by typing rules, synthesized"
  <+> fmt_nest i (fmt_line <+> fmt_pp synthesized_inst)
  <+> fmt_line <+> fmt_text "inferred"
  <+> fmt_nest i (fmt_line <+> fmt_pp inferred_inst).

(** [elaborator::synthesize_type_class_instance_core(mvar, inferred_inst, inst_type)] *)
Definition synthesize_type_class_instance_core (mvar inferred_inst inst_type : expr)
  : M elab_state bool :=
  let* ready := ready_to_synthesize inst_type in
  if negb ready then ret false
  else
    let* lctx := gets (fun s => get_decl_context (tc_mctx (m_ctx s)) mvar) in
    let ref := mvar in
    let* synthesized_inst := mk_instance_core lctx inst_type ref in
    let* eq := is_def_eq inferred_inst synthesized_inst in
    if negb eq then
      let* i := gets (fun s => get_pp_indent (m_opts s)) in
      throw (elaborator_exception mvar
               (instance_mismatch_msg i synthesized_inst inferred_inst))
    else ret true.

(** [elaborator::try_synthesize_type_class_instance(mvar)] *)
Definition try_synthesize_type_class_instance (mvar : expr) : M elab_state bool :=
  let* inst := instantiate_mvars mvar in
  let* t := infer_type inst in
  let* inst_type := instantiate_mvars t in
  synthesize_type_class_instance_core mvar inst inst_type.

(** The first loop of [synthesize_type_class_instances_step]: the pending
    metavariables are sorted into [to_keep] and [to_process]. *)
Fixpoint scan_instances (mvars : list expr) (to_keep : list expr)
    (to_process : list (expr * expr * expr))
  : M elab_state (list expr * list (expr * expr * expr)) :=
  match mvars with
  | [] => ret (to_keep, to_process)
  | mvar :: rest =>
      let* inst := instantiate_mvars mvar in
      let* t := infer_type inst in
      let* inst_type := instantiate_mvars t in
      let* ready := ready_to_synthesize inst_type in
      if negb ready then scan_instances rest (to_keep ++ [mvar]) to_process
      else scan_instances rest to_keep (to_process ++ [(mvar, inst, inst_type)])
  end.

(** [elaborator::synthesize_type_class_instances_step()] *)
Definition synthesize_type_class_instances_step : M elab_state unit :=
  let* pending := gets m_instances in
  let* '(to_keep, to_process) := scan_instances (elems pending) [] [] in
  match to_process with
  | [] => ret tt
  | _ :: _ =>
      forM_ (fun '(mvar, inst, inst_type) =>
               let* _ := synthesize_type_class_instance_core mvar inst inst_type in ret tt)
            to_process ;;
      let* l := to_list to_keep in
      modify (set_m_instances l)
  end.

(** The loop of [synthesize_type_class_instances], with fuel. *)
Fixpoint synthesize_type_class_instances_loop (fuel : nat) : MF elab_state unit :=
  match fuel with
  | O => fun _ => None
  | S fuel' =>
      fun s =>
        let old_instances := m_instances s in
        match synthesize_type_class_instances_step s with
        | Exc e s' => Some (Exc e s')
        | Val _ s' =>
            if is_eqp old_instances (m_instances s') then Some (Val tt s')
            else synthesize_type_class_instances_loop fuel' s'
        end
  end.

(** [elaborator::synthesize_type_class_instances()].  One round more than
    there are pending instances is enough fuel
    ([synthesize_type_class_instances_loop_terminates] below), so the last
    case is never reached. *)
Definition synthesize_type_class_instances : M elab_state unit :=
  fun s =>
    match synthesize_type_class_instances_loop (S (List.length (m_instances s))) s with
    | Some r => r
    | None => Val tt s
    end.

(** [elaborator::synthesize_no_tactics()], [elaborator::synthesize()] *)
Definition synthesize_no_tactics : M elab_state unit :=
  synthesize_numeral_types ;;
  synthesize_type_class_instances.

Definition synthesize : M elab_state unit :=
  synthesize_numeral_types ;;
  synthesize_type_class_instances ;;
  synthesize_using_tactics.

(** *** Application elaboration with the expected type (lines 112-123,
        1448-1457, 1558-1628) *)

(** [get_elaborator_strategy(env, n)] *)
Definition get_elaborator_strategy (env : environment) (n : name) : elaborator_strategy :=
  match strategy_attribute env n with
  | Some status => status
  | None =>
      if is_elim_rule env n || is_aux_recursor env n || is_user_defined_recursor env n
      then AsEliminator
      else WithExpectedType
  end.

(** [elaborator::is_with_expected_candidate(fn)] *)
Definition is_with_expected_candidate (fn : expr) : M elab_state bool :=
  let _fn := get_app_fn fn in
  if negb (is_constant _fn) then ret false
  else
    let* env := gets m_env in
    ret (elaborator_strategy_eqb (get_elaborator_strategy env (const_name _fn))
           WithExpectedType).

(** [type_context::full_postponed_scope scope(m_ctx, v)] around [body]. *)
Definition full_postponed_scope {A} (v : bool) (body : M elab_state A) : M elab_state A :=
  fun s =>
    finally body
      (fun s' => set_m_ctx (set_full_postponed (tc_full_postponed (m_ctx s)) (m_ctx s')) s')
      (set_m_ctx (set_full_postponed v (m_ctx s)) s).

(** The state in which [first_pass] runs: inside the two scopes. *)
Definition first_pass_entry (s : elab_state) : elab_state :=
  set_m_recover_from_errors false (set_m_ctx (set_full_postponed false (m_ctx s)) s).

(** The state [s1] that [first_pass] left, once the two scopes are closed:
    the flags are those of the state [s] before the attempt. *)
Definition first_pass_exit (s s1 : elab_state) : elab_state :=
  set_m_ctx
    (set_full_postponed (tc_full_postponed (m_ctx s))
       (m_ctx (set_m_recover_from_errors (m_recover_from_errors s) s1)))
    (set_m_recover_from_errors (m_recover_from_errors s) s1).

(** The message of the error thrown when the fallback fails too. *)
Definition switched_to_simple_msg (opts : options) (ex1 : exn) : format :=
  fmt_text "switched to simple application elaboration procedure because failed to use expected type to elaborate it, error message"
  <+> fmt_nest (get_pp_indent opts) (fmt_line <+> exn_pp ex1).

(** [elaborator::visit_base_app_core(fn, amask, args, args_already_visited,
    expected_type, ref)] *)
Definition visit_base_app_core (fn : expr) (amask : arg_mask) (args : list expr)
    (args_already_visited : bool) (expected_type : option expr) (ref : expr)
  : M elab_state expr :=
  let* candidate :=
    if args_already_visited || negb (arg_mask_is_default amask) then ret false
    else is_with_expected_candidate fn in
  match candidate, expected_type with
  | true, Some T =>
      let* C_ := gets take_snapshot in
      let* r :=
        try_catch
          (let* info :=
             full_postponed_scope false
               (flet_recover_from_errors false (first_pass fn args T ref)) in
           ret (inl info))
          is_elaborator_exception
          (fun ex1 =>
             modify (restore C_) ;;
             let* r :=
               try_catch
                 (visit_base_app_simple fn amask args args_already_visited expected_type ref)
                 is_elaborator_exception
                 (fun ex2 =>
                    let* opts := gets m_opts in
                    throw (nested_elaborator_exception ref ex2
                             (switched_to_simple_msg opts ex1))) in
             ret (inr r)) in
      match r with
      | inl info => second_pass fn args ref info
      | inr e => ret e
      end
  | _, _ => visit_base_app_simple fn amask args args_already_visited expected_type ref
  end.

(** [elaborator::visit_overload_candidate(fn, args, expected_type, ref)] *)
Definition visit_overload_candidate (fn : expr) (args : list expr)
    (expected_type : option expr) (ref : expr) : M elab_state expr :=
  visit_base_app_core fn Default args true expected_type ref.

(** *** Overload resolution (lines 183-196, 1630-1802) *)

(** [elaborator::pp_overload(pp_fn, fn)], [elaborator::pp_overloads(pp_fn, fns)] *)
Definition pp_overload (fn : expr) : format :=
  if is_constant fn then fmt_name (const_name fn) else fmt_pp fn.

Fixpoint pp_overloads_loop (first : bool) (fns : list expr) (r : format) : format :=
  match fns with
  | [] => r
  | fn :: fns' =>
      let r := if first then r else r <+> fmt_text ", " in
      pp_overloads_loop false fns' (r <+> pp_overload fn)
  end.

Definition pp_overloads (fns : list expr) : format :=
  fmt_paren (pp_overloads_loop true fns (fmt_text "overloads:" <+> fmt_space)).

(** [elaborator::mk_no_overload_applicable_msg(fns, error_msgs)]; the loop
    runs over the indices of [fns], and an assertion says the two buffers
    have the same size. *)
Fixpoint no_overload_applicable_loop (i : nat) (fns : list expr) (error_msgs : list exn)
    (r : format) : format :=
  match fns, error_msgs with
  | fn :: fns', ex :: error_msgs' =>
      let r := if (0 <? i)%nat then r <+> fmt_line else r in
      let r := r <+> (fmt_line <+> fmt_text "error for" <+> fmt_space <+> pp_overload fn) in
      let r := r <+> (fmt_line <+> exn_pp ex) in
      no_overload_applicable_loop (S i) fns' error_msgs' r
  | _, _ => r
  end.

Definition mk_no_overload_applicable_msg (fns : list expr) (error_msgs : list exn) : format :=
  no_overload_applicable_loop 0 fns error_msgs
    (fmt_text "none of the overloads are applicable").

(** [ex.what()] of an exception that is no [elaborator_exception]. *)
Definition exn_what (ex : exn) : string :=
  match ex with
  | lean_exception _ w | std_exception w => w
  | _ => EmptyString
  end.

(** Copying an exception caught as [elaborator_exception &] into a
    [buffer<elaborator_exception>] keeps its base part: the reference and the
    message of a [nested_elaborator_exception], without the nested one. *)
Definition slice_elaborator_exception (ex : exn) : exn :=
  match ex with
  | nested_elaborator_exception ref _ msg => elaborator_exception ref msg
  | _ => ex
  end.

(** What a trial's two handlers push on [error_msgs]:
    [catch (elaborator_exception & ex) { error_msgs.push_back(ex); }
     catch (exception & ex) { error_msgs.push_back(elaborator_exception(ref, format(ex.what()))); }] *)
Definition recorded_error (ref : expr) (ex : exn) : exn :=
  if is_elaborator_exception ex then slice_elaborator_exception ex
  else elaborator_exception ref (fmt_text (exn_what ex)).

(** One iteration of the loop over the candidates: the trial in its [try]
    block, and the two handlers.  An exception that is no [lean::exception]
    leaves the loop. *)
Definition catch_overload_error {A} (ref : expr) (trial : M elab_state A)
  : M elab_state (A + exn) :=
  try_catch (let* a := trial in ret (inl a)) is_lean_exception
    (fun ex => ret (inr (recorded_error ref ex))).

Fixpoint overload_trials {A} (trial : expr -> M elab_state A) (ref : expr)
    (fns : list expr) (candidates : list A) (error_msgs : list exn)
  : M elab_state (list A * list exn) :=
  match fns with
  | [] => ret (candidates, error_msgs)
  | fn :: fns' =>
      let* r := catch_overload_error ref (trial fn) in
      match r with
      | inl c => overload_trials trial ref fns' (candidates ++ [c]) error_msgs
      | inr ex => overload_trials trial ref fns' candidates (error_msgs ++ [ex])
      end
  end.

Definition has_args_of (args : list expr) : bool :=
  match args with [] => false | _ :: _ => true end.

(** The body of the [try] block of [visit_overloaded_app_core]. *)
Definition overload_candidate_trial (S_ : snapshot) (args new_args : list expr)
    (expected_type : option expr) (ref : expr) (fn : expr)
  : M elab_state (expr * snapshot) :=
  flet_recover_from_errors false
    (modify (restore S_) ;;
     let has_args := has_args_of args in
     let* new_fn := visit_function fn has_args ref in
     let* c := visit_overload_candidate new_fn new_args expected_type ref in
     synthesize_type_class_instances ;;
     match expected_type with
     | Some T =>
         let* c_type := infer_type c in
         let* r := ensure_has_type c c_type T ref in
         match r with
         | Some _ => let* S' := gets take_snapshot in ret (c, S')
         | None =>
             let* p0 := pp_indent c in
             let* p1 := pp_indent c_type in
             let* p2 := pp_indent T in
             throw (elaborator_exception ref
                      (fmt_text "invalid overload, expression" <+> p0
                       <+> fmt_line <+> fmt_text "has type" <+> p1
                       <+> fmt_line <+> fmt_text "but is expected to have type" <+> p2))
         end
     | None => let* S' := gets take_snapshot in ret (c, S')
     end).

Fixpoint pp_indent_all (es : list expr) (r : format) : M elab_state format :=
  match es with
  | [] => ret r
  | e :: es' => let* p := pp_indent e in pp_indent_all es' (r <+> p)
  end.

(** [elaborator::visit_overloaded_app_core(fns, args, expected_type, ref)] *)
Definition visit_overloaded_app_core (fns args : list expr) (expected_type : option expr)
    (ref : expr) : M elab_state expr :=
  let* new_args := mapM (fun arg => visit arg None) args in
  let* S_ := gets take_snapshot in
  let* '(candidates, error_msgs) :=
    overload_trials (overload_candidate_trial S_ args new_args expected_type ref)
      ref fns [] [] in
  match candidates with
  | [] =>
      modify (restore S_) ;;
      throw (elaborator_exception ref (mk_no_overload_applicable_msg fns error_msgs))
  | _ :: _ :: _ =>
      modify (restore S_) ;;
      let* opts := gets m_opts in
      flet_opts (with_pp_full_names opts)
        (let* r := pp_indent_all (map fst candidates)
                     (fmt_text "ambiguous overload, possible interpretations") in
         throw (elaborator_exception ref r))
  | [c] =>
      modify (restore (snd c)) ;;
      ret (fst c)
  end.

(** The body of the [try] block of [visit_overloaded_app_with_expected]. *)
Definition overload_first_pass_trial (S_ : snapshot) (args : list expr)
    (expected_type : expr) (ref : expr) (fn : expr)
  : M elab_state (expr * snapshot * first_pass_info) :=
  modify (restore S_) ;;
  let has_args := has_args_of args in
  let* new_fn := visit_function fn has_args ref in
  let* info := first_pass new_fn args expected_type ref in
  let* S' := gets take_snapshot in
  ret (new_fn, S', info).

Fixpoint pp_error_msgs (error_msgs : list exn) (msg : format) : format :=
  match error_msgs with
  | [] => msg
  | ex :: rest => pp_error_msgs rest (msg <+> (fmt_line <+> exn_pp ex))
  end.

(** The messages of the three nested errors of
    [visit_overloaded_app_with_expected]. *)
Definition no_candidate_msg (fns : list expr) (error_msgs : list exn) (expected_type : expr)
  : M elab_state format :=
  let* p := pp_indent expected_type in
  ret (fmt_text "switched to basic overload resolution where arguments are elaborated without any information about the expected type, because failed to elaborate all candidates using the expected type"
       <+> p
       <+> (fmt_line <+> fmt_text "this can happen because, for example, coercions were not considered in the process")
       <+> (fmt_line <+> mk_no_overload_applicable_msg fns error_msgs)).

Definition disambiguated_msg (fns : list expr) (error_msgs : list exn) (fn : expr) : format :=
  pp_error_msgs error_msgs
    (fmt_text "overload was disambiguated using expected type"
     <+> (fmt_line <+> pp_overloads fns)
     <+> (fmt_line <+> fmt_text "the only applicable one seemed to be: " <+> pp_overload fn)
     <+> fmt_line).

Definition several_candidates_msg (candidates : list expr) (expected_type : expr)
  : M elab_state format :=
  let* p := pp_indent expected_type in
  pp_indent_all candidates
    (fmt_text "switched to basic overload resolution where arguments are elaborated without any information about the expected type because it failed to disambiguate overload using the expected type"
     <+> p
     <+> (fmt_line <+> fmt_text "the following overloaded terms were applicable")).

(** [elaborator::visit_overloaded_app_with_expected(fns, args, expected_type, ref)] *)
Definition visit_overloaded_app_with_expected (fns args : list expr) (expected_type : expr)
    (ref : expr) : M elab_state expr :=
  let* S_ := gets take_snapshot in
  let* '(candidates, error_msgs) :=
    overload_trials (overload_first_pass_trial S_ args expected_type ref) ref fns [] [] in
  match candidates with
  | [] =>
      try_catch
        (modify (restore S_) ;;
         visit_overloaded_app_core fns args (Some expected_type) ref)
        is_elaborator_exception
        (fun ex =>
           let* msg := no_candidate_msg fns error_msgs expected_type in
           throw (nested_elaborator_exception ref ex msg))
  | [(fn, S', info)] =>
      modify (restore S') ;;
      try_catch (second_pass fn args ref info) is_elaborator_exception
        (fun ex =>
           throw (nested_elaborator_exception ref ex (disambiguated_msg fns error_msgs fn)))
  | _ :: _ :: _ =>
      try_catch
        (modify (restore S_) ;;
         visit_overloaded_app_core fns args (Some expected_type) ref)
        is_elaborator_exception
        (fun ex =>
           let* msg :=
             several_candidates_msg (map (fun c => fst (fst c)) candidates) expected_type in
           throw (nested_elaborator_exception ref ex msg))
  end.

(** [elaborator::visit_overloaded_app(fns, args, expected_type, ref)] *)
Definition visit_overloaded_app (fns args : list expr) (expected_type : option expr)
    (ref : expr) : M elab_state expr :=
  match expected_type with
  | Some T => visit_overloaded_app_with_expected fns args T ref
  | None =>
      try_catch (visit_overloaded_app_core fns args expected_type ref)
        is_elaborator_exception
        (fun ex =>
           throw (nested_elaborator_exception ref ex
                    (fmt_text "switched to basic overload resolution where arguments are elaborated without any information about the expected type because expected type was not available")))
  end.

(** *** Eliminator applications (lines 966-979, 993-1151) *)

Definition try_catchF {S A} (body : MF S A) (handles : exn -> bool)
    (handler : exn -> MF S A) : MF S A :=
  fun s => match body s with
           | Some (Exc e s') => if handles e then handler e s' else Some (Exc e s')
           | r => r
           end.

(** A buffer read past its end: the C++ code asserts the index and has no
    defined behaviour there; the model gives no outcome. *)
Definition undefined {S A} : MF S A := fun _ => None.

Notation "'letF' x ':=' c1 'in' c2" := (bindF c1 (fun x => c2))
  (at level 10, x name, c1 at level 100, c2 at level 200) : elab_scope.
Notation "'letF' ' p ':=' c1 'in' c2" := (bindF c1 (fun x => match x with p => c2 end))
  (at level 10, p pattern, c1 at level 100, c2 at level 200) : elab_scope.

Definition dquote : string := String (Ascii.ascii_of_nat 34) EmptyString.

(** [::lean::mk_pi(n, t, b)], [::lean::mk_lambda(n, t, b)] *)
Definition mk_pi (n : string) (t b : expr) : expr := Pi (mk_string anonymous n) bi_default t b.
Definition mk_lambda (n : string) (t b : expr) : expr :=
  Lambda (mk_string anonymous n) bi_default t b.

(** [elaborator::mk_app_type_mismatch_error(t, arg, arg_type, expected_type)].
    [pp_until_different] (lines 166-181) switches printing options on, inside
    a [flet] on [m_opts], until the two types print differently; a printed
    term is [fmt_pp e] whatever the options, so what it returns is
    [pp_indent] of each type. *)
Definition mk_app_type_mismatch_error (t arg arg_type expected_type : expr)
  : M elab_state format :=
  let* p1 := pp_indent arg_type in
  let* p2 := pp_indent expected_type in
  let* pt := pp_indent t in
  let* pa := pp_indent arg in
  ret (fmt_text "type mismatch at application"
       <+> pt
       <+> (fmt_line <+> fmt_text "term")
       <+> pa
       <+> (fmt_line <+> fmt_text "has type")
       <+> p1
       <+> (fmt_line <+> fmt_text "but is expected to have type")
       <+> p2).

(** The common head of the three messages of [visit_elim_app]. *)
Definition elim_app_msg_head (fn : expr) : format :=
  fmt_text "invalid '" <+> fmt_name (const_name fn) <+> fmt_text "' application, "
  <+> fmt_text "elaborator has special support for this kind of application "
  <+> fmt_text ("(it is handled as an " ++ dquote ++ "eliminator" ++ dquote ++ "), ").

Definition expected_type_unknown_msg (fn : expr) : format :=
  elim_app_msg_head fn <+> fmt_text "but the expected type must be known".

Definition expected_type_has_metavars_msg (fn : expr) (p : format) : format :=
  elim_app_msg_head fn <+> fmt_text "but expected type must not contain metavariables" <+> p.

Definition key_has_metavars_msg (fn : expr) (p : format) : format :=
  elim_app_msg_head fn <+> fmt_text "but term" <+> p
  <+> fmt_line <+> fmt_text "must not contain metavariables because"
  <+> fmt_text " it is used to compute the motive".

(** The body of the first loop for an argument at one of [info.m_idxs]
    (lines 1040-1061): the new argument. *)
Definition elim_key_arg (fn : expr) (ref : expr) (new_args : list expr) (d : expr)
    (arg : expr) : M elab_state expr :=
  let* new_arg := visit arg (Some d) in
  synthesize ;;
  let* new_arg := instantiate_mvars new_arg in
  if has_expr_metavar new_arg then
    let* p := pp_indent new_arg in
    throw (elaborator_exception ref (key_has_metavars_msg fn p))
  else
    let* new_arg_type := infer_type new_arg in
    let* eq := is_def_eq new_arg_type d in
    if negb eq then
      let* msg :=
        mk_app_type_mismatch_error (mk_app fn (new_args ++ [new_arg]))
          new_arg new_arg_type d in
      throw (elaborator_exception ref msg)
    else ret new_arg.

(** The first loop, [while (is_pi(type))] (lines 1034-1076).  It returns
    [type], [j], [new_args] and [postponed_args]. *)
Fixpoint elim_first_pass (fuel : nat) (fn : expr) (main_idxs : list nat) (args : list expr)
    (ref : expr) (type : expr) (i j : nat) (new_args : list expr)
    (postponed_args : list (option expr))
  : MF elab_state (expr * nat * list expr * list (option expr)) :=
  if negb (is_pi type) then liftF (ret (type, j, new_args, postponed_args))
  else
    match fuel with
    | O => undefined
    | S fuel' =>
        let d := binding_domain type in
        let bi := binding_info type in
        letF '(new_arg, postponed, j') :=
          if existsb (Nat.eqb i) main_idxs then
            match nth_error args j with
            | None => undefined
            | Some arg =>
                liftF (let* new_arg := elim_key_arg fn ref new_args d arg in
                       ret (new_arg, None, S j))
            end
          else if is_explicit bi then
            match nth_error args j with
            | None => undefined
            | Some arg =>
                liftF (let* new_arg := mk_metavar d arg in ret (new_arg, Some arg, S j))
            end
          else if is_inst_implicit bi then
            liftF (let* new_arg := mk_instance d ref in ret (new_arg, None, j))
          else
            liftF (let* new_arg := mk_metavar d ref in ret (new_arg, None, j)) in
        letF type' := liftF (try_to_pi (instantiate (binding_body type) new_arg)) in
        elim_first_pass fuel' fn main_idxs args ref type' (S i) j'
          (new_args ++ [new_arg]) (postponed_args ++ [postponed])
    end.

(** Lines 1088-1098, over the extra arguments, last first. *)
Fixpoint abstract_extra_args (rev_extras : list expr) (expected_type : expr)
    (extra_args : list expr) : M elab_state (expr * list expr) :=
  match rev_extras with
  | [] => ret (expected_type, extra_args)
  | a :: rest =>
      let* new_arg := instantiate_mvars a in
      let* t := infer_type new_arg in
      let* new_arg_type := instantiate_mvars t in
      let* body := lift_ctx (tc_kabstract expected_type new_arg) in
      abstract_extra_args rest (mk_pi "_a" new_arg_type body) (extra_args ++ [new_arg])
  end.

(** Lines 1104-1113, over the keys, last first. *)
Fixpoint compute_motive (rev_keys : list expr) (motive : expr) : M elab_state expr :=
  match rev_keys with
  | [] => ret motive
  | key :: rest =>
      let* k := instantiate_mvars key in
      let* k_type := infer_type k in
      let* body := lift_ctx (tc_kabstract motive k) in
      compute_motive rest (mk_lambda "_x" k_type body)
  end.

(** Lines 1123-1141: the postponed arguments. *)
Fixpoint elim_postponed (ref : expr) (new_args : list expr)
    (postponed_args : list (option expr)) : MF elab_state (list expr) :=
  match new_args with
  | [] => liftF (ret [])
  | a :: rest =>
      match postponed_args with
      | [] => undefined
      | p :: prest =>
          letF a' :=
            liftF
              match p with
              | None => ret a
              | Some arg =>
                  let* t := infer_type a in
                  let* new_arg_type := instantiate_mvars t in
                  let* new_arg := visit arg (Some new_arg_type) in
                  let* eq := is_def_eq a new_arg in
                  if negb eq then
                    let* t2 := infer_type new_arg in
                    let* p1 := pp_indent t2 in
                    let* p2 := pp_indent new_arg_type in
                    let* pa := pp_indent new_arg in
                    throw (elaborator_exception ref
                             (fmt_text (dquote ++ "eliminator" ++ dquote
                                        ++ " elaborator type mismatch, term")
                              <+> pa <+> fmt_line <+> fmt_text "has type" <+> p1
                              <+> fmt_line <+> fmt_text "but is expected to have type"
                              <+> p2))
                  else ret new_arg
              end in
          letF rest' := elim_postponed ref rest prest in
          liftF (ret (a' :: rest'))
      end
  end.

(** [elaborator::visit_elim_app(fn, info, args, _expected_type, ref)] *)
Definition visit_elim_app (fuel : nat) (fn : expr) (info : elim_info) (args : list expr)
    (_expected_type : option expr) (ref : expr) : MF elab_state expr :=
  match _expected_type with
  | None => liftF (throw (elaborator_exception ref (expected_type_unknown_msg fn)))
  | Some T =>
      letF _ := liftF synthesize_type_class_instances in
      letF expected_type := liftF (instantiate_mvars T) in
      if has_expr_metavar expected_type then
        liftF (let* p := pp_indent expected_type in
               throw (elaborator_exception ref (expected_type_has_metavars_msg fn p)))
      else
        letF fn_type := liftF (let* t := infer_type fn in try_to_pi t) in
        letF '(type, j, new_args, postponed_args) :=
          elim_first_pass fuel fn (m_idxs info) args ref fn_type 0 0 [] [] in
        letF extra := liftF (mapM (fun arg => visit arg None) (skipn j args)) in
        let new_args := new_args ++ extra in
        letF _ := liftF synthesize in
        letF '(expected_type, rev_extra_args) :=
          liftF (abstract_extra_args (rev (skipn (m_arity info) new_args)) expected_type []) in
        let new_args := firstn (m_arity info) new_args in
        let extra_args := rev rev_extra_args in
        letF motive := liftF (compute_motive (rev (get_app_args type)) expected_type) in
        match nth_error new_args (m_motive_idx info) with
        | None => undefined
        | Some motive_arg =>
            letF eq := liftF (is_def_eq motive_arg motive) in
            if negb eq then
              liftF (throw (elaborator_exception ref
                              (fmt_text (dquote ++ "eliminator" ++ dquote
                                         ++ " elaborator failed to compute the motive"))))
            else
              try_catchF
                (letF new_args := elim_postponed ref new_args postponed_args in
                 liftF (instantiate_mvars (mk_app (mk_app fn new_args) extra_args)))
                is_elaborator_exception
                (fun ex =>
                   liftF (let* p := pp_indent motive in
                          throw (nested_elaborator_exception ref ex
                                   (fmt_text "the inferred motive for the eliminator-like application is"
                                    <+> p))))
        end
  end.

(** *** Anonymous constructors and empty collections (lines 1169-1175,
        2015-2050, 3001-3017) *)

(** [is_optional_param(e)] *)
Definition is_optional_param (e : expr) : option expr :=
  if is_app_of e get_opt_param_name 2 then Some (app_arg e) else None.

(** The loop counting the explicit binders of the constructor's type. *)
Fixpoint count_explicit (type : expr) : nat :=
  match type with
  | Pi _ bi _ b => ((if is_explicit bi then 1 else 0) + count_explicit b)%nat
  | _ => 0%nat
  end.

(** Lines 2041-2047: the arguments past the explicit fields are packed into
    a nested anonymous constructor. *)
Definition pack_extra_args (c : expr) (num_explicit : nat) (args : list expr) : list expr :=
  if (1 <? num_explicit)%nat && (num_explicit <? List.length args)%nat then
    let rest := mk_anonymous_constructor (mk_app c (skipn (num_explicit - 1) args)) in
    firstn (num_explicit - 1) args ++ [rest]
  else args.

(** [elaborator::visit_anonymous_constructor(e, expected_type)] *)
Definition visit_anonymous_constructor (e : expr) (expected_type : option expr)
  : M elab_state expr :=
  let args := get_app_args (get_anonymous_constructor_arg e) in
  let c := get_app_fn (get_anonymous_constructor_arg e) in
  match expected_type with
  | None =>
      throw (elaborator_exception e
               (fmt_text "invalid constructor ⟨...⟩, expected type must be known"))
  | Some T =>
      let* T' := instantiate_mvars T in
      let* w := lift_ctx (tc_relaxed_whnf T') in
      let I := get_app_fn w in
      if negb (is_constant I) then
        let* p := pp_indent T in
        throw (elaborator_exception e
                 (fmt_text "invalid constructor ⟨...⟩, expected type is not an inductive type"
                  <+> p))
      else
        let I_name := const_name I in
        let* env := gets m_env in
        if is_private env I_name then
          throw (elaborator_exception e
                   (fmt_text "invalid constructor ⟨...⟩, type is a private inductive datatype"))
        else if negb (is_inductive_decl env I_name) then
          throw (elaborator_exception e
                   (fmt_text "invalid constructor ⟨...⟩, '" <+> fmt_name I_name
                    <+> fmt_text "' is not an inductive type"))
        else
          match get_intro_rule_names env I_name with
          | [c_name] =>
              let type := env_get_type env c_name in
              let num_explicit := count_explicit type in
              let args := pack_extra_args c num_explicit args in
              let new_e := mk_app (mk_constant c_name) args in
              visit new_e expected_type
          | _ =>
              throw (elaborator_exception e
                       (fmt_text "invalid constructor ⟨...⟩, '" <+> fmt_name I_name
                        <+> fmt_text "' must have only one constructor"))
          end
  end.

(** [elaborator::visit_emptyc_or_emptys(e, expected_type)] *)
Definition visit_emptyc_or_emptys (e : expr) (expected_type : option expr)
  : M elab_state expr :=
  match expected_type with
  | None => visit (mk_constant get_emptyc_name) expected_type
  | Some T =>
      synthesize_type_class_instances ;;
      let* new_expected_type := instantiate_mvars T in
      let new_expected_type :=
        match is_optional_param new_expected_type with
        | Some _ => app_arg (app_fn new_expected_type)
        | None => new_expected_type
        end in
      let S_ := get_app_fn new_expected_type in
      let* env := gets m_env in
      if is_constant S_ && is_structure env (const_name S_) then
        visit mk_empty_structure_instance expected_type
      else
        visit (mk_constant get_emptyc_name) expected_type
  end.

(** [elaborator::visit(e, expected_type)] (lines 3019-3062) on a term [e]
    for which [is_emptyc_or_emptys(e)] holds and none of the tests before it
    in the dispatch: the visitor runs inside
    [recover_expr_from_exception]. *)
Definition visit_emptyc (e : expr) (expected_type : option expr) : M elab_state expr :=
  recover_expr_from_exception expected_type e (visit_emptyc_or_emptys e expected_type).

(** *** Notions the properties below are stated with *)

(** The binder domain at position [i] of a telescope, counted from 0. *)
Fixpoint nth_binding_domain (it : expr) (i : nat) : option expr :=
  if is_pi it then
    match i with
    | O => Some (binding_domain it)
    | S i' => nth_binding_domain (binding_body it) i'
    end
  else None.




End Elaborator.

(** ** The unification-hint registry ([src/library/unification_hint.cpp]) *)

Record unification_hint := mk_unification_hint {
  m_lhs : expr;
  m_rhs : expr;
  m_constraints : list expr_pair;
  m_num_vars : nat;
}.

Definition name_pair : Type := name * name.

Section UnificationHints.
Context {C : Carriers}.

(** What the registry uses and [src/] does not define: the order
    [quick_cmp] on names ([util/name.h]), the priority queue
    ([util/priority_queue.h]), the temporary type context of the checker and
    the kernel's [instantiate_rev].  [unification_hints] is an [rb_map] over
    [name_pair_quick_cmp], the order of pairs by [quick_cmp] on the first and
    then on the second component; it is modelled by a [gmap], which is that
    map whenever [quick_cmp] returns zero on equal names only. *)
Class HintExternal := {
  quick_cmp : name -> name -> Z;
  unification_hint_queue : Type;
  queue_empty : unification_hint_queue;
  queue_insert : unification_hint -> nat -> unification_hint_queue -> unification_hint_queue;
  queue_to_buffer : unification_hint_queue -> list unification_hint;
  tmp_type_context : Type;
  mk_tmp_type_context : environment -> tmp_type_context;
  mk_tmp_mvar : expr -> tmp_type_context -> expr * tmp_type_context;
  tmp_is_def_eq : expr -> expr -> tmp_type_context -> bool * tmp_type_context;
  instantiate_rev : expr -> list expr -> expr;
  (** [env.get(n).get_type()], [env.get(n).get_value()], [env.get(n).is_definition()] *)
  decl_type : environment -> name -> expr;
  decl_value : environment -> name -> expr;
  decl_is_definition : environment -> name -> bool;
}.

Context {H : HintExternal}.

(** [struct unification_hint_state] *)
Record unification_hint_state := mk_unification_hint_state {
  m_hints : gmap name_pair unification_hint_queue;
  m_decl_names_to_prio : gmap name nat;
}.

Definition hint_exception {S A} (what : string) : M S A :=
  throw (lean_exception generic_exception what).

(** [unification_hint_state::validate_type(decl_type)] *)
Definition validate_type (type : expr) : M unification_hint_state unit :=
  if negb (is_app_of (strip_pis type) get_unification_hint_name 0) then
    hint_exception
      "invalid unification hint, must return element of type `unification hint`"
  else ret tt.

(** The loop over the leading lambdas of the hint (lines 64-69): the body
    under them, the number of variables and the temporary metavariables. *)
Fixpoint hint_binders (e_hint : expr) (num_vars : nat) (tmp_mvars : list expr)
    (ctx : tmp_type_context) : expr * nat * list expr * tmp_type_context :=
  match e_hint with
  | Lambda _ _ domain body =>
      let d := instantiate_rev domain tmp_mvars in
      let '(mvar, ctx) := mk_tmp_mvar d ctx in
      hint_binders body (S num_vars) (tmp_mvars ++ [mvar]) ctx
  | _ => (e_hint, num_vars, tmp_mvars, ctx)
  end.

(** The loop over the list of constraints (lines 99-112).  It returns the
    rest of the list and the constraints read, or the index of the first
    constraint that does not unify. *)
Fixpoint hint_constraints (e_constraints : expr) (tmp_mvars : list expr)
    (constraints : list expr_pair) (eqidx : nat) (ctx : tmp_type_context)
  : (expr * list expr_pair * tmp_type_context) + nat :=
  match e_constraints with
  | App f rest =>
      if is_app_of e_constraints get_list_cons_name 3 then
        let e_constraint := app_arg f in
        let e_constraint_lhs := app_arg (app_fn e_constraint) in
        let e_constraint_rhs := app_arg e_constraint in
        let constraints := constraints ++ [(e_constraint_lhs, e_constraint_rhs)] in
        let '(ok, ctx) :=
          tmp_is_def_eq (instantiate_rev e_constraint_lhs tmp_mvars)
            (instantiate_rev e_constraint_rhs tmp_mvars) ctx in
        if negb ok then inr eqidx
        else hint_constraints rest tmp_mvars constraints (S eqidx) ctx
      else inl (e_constraints, constraints, ctx)
  | _ => inl (e_constraints, constraints, ctx)
  end.

(** Lines 90-93: [swap(e_pattern_lhs_fn, e_pattern_rhs_fn); swap(e_pattern_lhs,
    e_pattern_rhs)] when the name of the first head is the greater. *)
Definition swap_if_greater (lhs_fn rhs_fn lhs rhs : expr) : expr * expr * expr * expr :=
  if 0 <? quick_cmp (const_name lhs_fn) (const_name rhs_fn)
  then (rhs_fn, lhs_fn, rhs, lhs)
  else (lhs_fn, rhs_fn, lhs, rhs).

(** [unification_hint_state::register_hint(env, decl_name, value, priority)] *)
Definition register_hint (env : environment) (decl_name : name) (value : expr)
    (priority : nat) : M unification_hint_state unit :=
  modify (fun s => mk_unification_hint_state (m_hints s)
                     (<[decl_name := priority]> (m_decl_names_to_prio s))) ;;
  let ctx := mk_tmp_type_context env in
  let '(e_hint, num_vars, tmp_mvars, ctx) := hint_binders value 0 [] ctx in
  if negb (is_app_of e_hint get_unification_hint_mk_name 2) then
    hint_exception
      "invalid unification hint, body must be application of 'unification_hint.mk' to two arguments"
  else
    let e_pattern := app_arg (app_fn e_hint) in
    let e_constraints := app_arg e_hint in
    let e_pattern_lhs := app_arg (app_fn e_pattern) in
    let e_pattern_rhs := app_arg e_pattern in
    let e_pattern_lhs_fn := get_app_fn e_pattern_lhs in
    let e_pattern_rhs_fn := get_app_fn e_pattern_rhs in
    if negb (is_constant e_pattern_lhs_fn) || negb (is_constant e_pattern_rhs_fn) then
      hint_exception
        "invalid unification hint, the heads of both sides of pattern must be constants"
    else
      let '(e_pattern_lhs_fn, e_pattern_rhs_fn, e_pattern_lhs, e_pattern_rhs) :=
        swap_if_greater e_pattern_lhs_fn e_pattern_rhs_fn e_pattern_lhs e_pattern_rhs in
      let key : name_pair := (const_name e_pattern_lhs_fn, const_name e_pattern_rhs_fn) in
      match hint_constraints e_constraints tmp_mvars [] 1 ctx with
      | inr eqidx =>
          hint_exception
            ("invalid unification hint, failed to unify constraint #" ++ pretty eqidx)
      | inl (e_constraints, constraints, ctx) =>
          if negb (is_app_of e_constraints get_list_nil_name 1) then
            hint_exception
              "invalid unification hint, must provide list of constraints explicitly"
          else
            let '(ok, _) :=
              tmp_is_def_eq (instantiate_rev e_pattern_lhs tmp_mvars)
                (instantiate_rev e_pattern_rhs tmp_mvars) ctx in
            if negb ok then
              hint_exception
                "invalid unification hint, failed to unify pattern after unifying constraints"
            else
              let hint := mk_unification_hint e_pattern_lhs e_pattern_rhs constraints num_vars in
              modify (fun s =>
                        let q := default queue_empty (m_hints s !! key) in
                        mk_unification_hint_state
                          (<[key := queue_insert hint priority q]> (m_hints s))
                          (m_decl_names_to_prio s))
      end.

(** [unification_hint_config::add_entry(env, ios, s, e)] *)
Definition add_entry (env : environment) (e_decl_name : name) (e_priority : nat)
  : M unification_hint_state unit :=
  validate_type (decl_type env e_decl_name) ;;
  register_hint env e_decl_name (decl_value env e_decl_name) e_priority.

(** [get_unification_hints(hints, n1, n2, uhints)]: the hints found are
    appended to the buffer [uhints]. *)
Definition get_unification_hints (hints : gmap name_pair unification_hint_queue)
    (n1 n2 : name) (uhints : list unification_hint) : list unification_hint :=
  if 0 <? quick_cmp n1 n2 then
    match hints !! (n2, n1) with
    | Some q => uhints ++ queue_to_buffer q
    | None => uhints
    end
  else
    match hints !! (n1, n2) with
    | Some q => uhints ++ queue_to_buffer q
    | None => uhints
    end.

(** *** Notions the properties below are stated with *)

(** The body of a hint under its leading lambdas. *)
Fixpoint strip_lambdas (e : expr) : expr :=
  match e with Lambda _ _ _ b => strip_lambdas b | _ => e end.

(** The two sides of the pattern of a hint, and the names of their heads. *)
Definition pattern_lhs (value : expr) : expr :=
  app_arg (app_fn (app_arg (app_fn (strip_lambdas value)))).
Definition pattern_rhs (value : expr) : expr :=
  app_arg (app_arg (app_fn (strip_lambdas value))).
Definition lhs_head (value : expr) : name := const_name (get_app_fn (pattern_lhs value)).
Definition rhs_head (value : expr) : name := const_name (get_app_fn (pattern_rhs value)).

(** The pair of two names, the smaller first. *)
Definition ordered_pair (n1 n2 : name) : name_pair :=
  if 0 <? quick_cmp n1 n2 then (n2, n1) else (n1, n2).

End UnificationHints.

(** * Further functions of the sources

    The functions below are those of [frontends/lean/elaborator.cpp] and
    [src/library/unification_hint.cpp] that the sections above call or are
    called from, and the decision procedures for bounded quantifiers over
    lists of [library/init/category/applicative.lean].  Where the name of a
    method is the name of a collaborator of the class [External] above (the
    sections above take the method as given), the embedded method is
    prefixed by its class: [elaborator_get_level] is
    [elaborator::get_level], [elaborator_first_pass] is
    [elaborator::first_pass]. *)

Definition is_sort (e : expr) : bool := match e with Sort _ => true | _ => false end.
Definition is_local (e : expr) : bool := match e with Local _ _ _ _ => true | _ => false end.
Definition is_var (e : expr) : bool := match e with Var _ => true | _ => false end.
Definition is_macro (e : expr) : bool := match e with Macro _ _ => true | _ => false end.

(** [is_meta(e)] ([kernel/expr.h]): the head of [e] is a metavariable *)
Definition is_meta (e : expr) : bool := is_metavar (get_app_fn e).
Definition sort_level (e : expr) : level := match e with Sort l => l | _ => level_zero end.
Definition const_levels (e : expr) : list level := match e with Constant _ ls => ls | _ => [] end.
Definition var_idx (e : expr) : nat := match e with Var i => i | _ => 0%nat end.

(** [n.get_prefix()], [n.get_string()], [n.is_atomic()] ([util/name.h]): the
    accessors of the last component. *)
Definition get_prefix (n : name) : name :=
  match n with anonymous => anonymous | mk_string p _ | mk_numeral p _ => p end.
Definition get_string (n : name) : string :=
  match n with mk_string _ s => s | _ => EmptyString end.

Definition get_coe_fn_name : name := mk_string anonymous "coe_fn".
Definition get_coe_sort_name : name := mk_string anonymous "coe_sort".
Definition get_has_zero_name : name := mk_string anonymous "has_zero".
Definition get_has_one_name : name := mk_string anonymous "has_one".
Definition get_has_add_name : name := mk_string anonymous "has_add".
Definition get_zero_name : name := mk_string anonymous "zero".
Definition get_one_name : name := mk_string anonymous "one".
Definition get_bit0_name : name := mk_string anonymous "bit0".
Definition get_bit1_name : name := mk_string anonymous "bit1".

Section Coercions.
Context {C : Carriers} {X : External}.

(** [elaborator::try_is_def_eq(e1, e2)] (lines 687-698).  The [try] block
    returns what [is_def_eq] returns; the two statements after the handler
    are never reached. *)
Definition try_is_def_eq (e1 e2 : expr) : M elab_state bool :=
  let* S_ := gets take_snapshot in
  flet_recover_from_errors false
    (try_catch (is_def_eq e1 e2) is_lean_exception
       (fun ex => modify (restore S_) ;; throw ex)).

(** [elaborator::get_level(A, ref)] (lines 328-343) *)
Definition elaborator_get_level (A ref : expr) : M elab_state level :=
  let* t := infer_type A in
  let* A_type := whnf t in
  if is_sort A_type then ret (sort_level A_type)
  else
    let* r :=
      if is_meta A_type then
        let* l := mk_univ_metavar in
        let* b := try_is_def_eq A_type (mk_sort l) in
        ret (if b then Some l else None)
      else ret None in
    match r with
    | Some l => ret l
    | None =>
        let* p := pp_indent A in
        throw (elaborator_exception ref (fmt_text "type expected at" <+> p))
    end.

(** What the coercions to functions and to sorts use besides [External]:
    the application builder with a mask of explicit arguments,
    [mk_app(m_ctx, c, 3, mask, args)]. *)
Class CoercionExternal := {
  ab_mk_app_mask : name -> list bool -> list expr -> M type_context expr;
}.
Context {K : CoercionExternal}.

(** [elaborator::mk_coercion_to_fn_sort(is_fn, e, _e_type, ref)] (lines
    737-763) *)
Definition mk_coercion_to_fn_sort (is_fn : bool) (e _e_type ref : expr)
  : M elab_state (option expr) :=
  let* coercions := gets m_coercions in
  if negb coercions then ret None
  else
    let* e_type := instantiate_mvars _e_type in
    if negb (has_expr_metavar e_type) then
      try_catch
        (let* new_e :=
           lift_ctx (ab_mk_app_mask (if is_fn then get_coe_fn_name else get_coe_sort_name)
                       [true; false; true] [e_type; e]) in
         let* t := infer_type new_e in
         let* new_e_type := whnf t in
         if (is_fn && is_pi new_e_type) || (negb is_fn && is_sort new_e_type)
         then ret (Some new_e)
         else ret None)
        is_app_builder_exception (fun _ => ret None)
    else ret None.

(** [mk_coercion_to_fn] and [mk_coercion_to_sort] are the two uses of
    [mk_coercion_to_fn_sort] ([elaborator.h]). *)
Definition mk_coercion_to_fn (e e_type ref : expr) : M elab_state (option expr) :=
  mk_coercion_to_fn_sort true e e_type ref.
Definition mk_coercion_to_sort (e e_type ref : expr) : M elab_state (option expr) :=
  mk_coercion_to_fn_sort false e e_type ref.

(** [elaborator::ensure_function(e, ref)] (lines 765-775) *)
Definition ensure_function (e ref : expr) : M elab_state expr :=
  let* t := infer_type e in
  let* e_type := whnf t in
  if is_pi e_type then ret e
  else
    let* r := mk_coercion_to_fn e e_type ref in
    match r with
    | Some r => ret r
    | None =>
        let* p := pp_indent e in
        throw (elaborator_exception ref (fmt_text "function expected at" <+> p))
    end.

(** [elaborator::ensure_type(e, ref)] (lines 777-795) *)
Definition ensure_type (e ref : expr) : M elab_state expr :=
  let* t := infer_type e in
  let* e_type := whnf t in
  if is_sort e_type then ret e
  else
    let* unified :=
      if is_meta e_type then
        let* l := mk_univ_metavar in
        is_def_eq e_type (mk_sort l)
      else ret false in
    if unified then ret e
    else
      let* r := mk_coercion_to_sort e e_type ref in
      match r with
      | Some r => ret r
      | None =>
          let* p := pp_indent e in
          report_or_throw ref (fmt_text "type expected at" <+> p) ;;
          let* l := mk_univ_metavar in
          mk_sorry (Some (mk_sort l)) ref
      end.

(** The message of [enforce_type]; the two types are printed by
    [pp_until_different]. *)
Definition enforce_type_msg (header : string) (pe p1 p2 : format) : format :=
  fmt_text header
  <+> (fmt_text ", expression" <+> pe)
  <+> (fmt_line <+> fmt_text "has type" <+> p1)
  <+> (fmt_line <+> fmt_text "but is expected to have type" <+> p2).

(** [elaborator::enforce_type(e, expected_type, header, ref)] (lines
    706-719) *)
Definition enforce_type (e expected_type : expr) (header : string) (ref : expr)
  : M elab_state expr :=
  let* e_type := infer_type e in
  let* r := ensure_has_type e e_type expected_type ref in
  match r with
  | Some r => ret r
  | None =>
      let* p1 := pp_indent e_type in
      let* p2 := pp_indent expected_type in
      let* pe := pp_indent e in
      recoverable_error (Some expected_type) ref ref (enforce_type_msg header pe p1 p2)
  end.

(** *** Notions the properties below are stated with *)

(** [frame s s']: the state [s'] is [s] but for the checker [m_ctx]. *)
Definition frame (s s' : elab_state) : Prop := exists c, s' = set_m_ctx c s.

Definition outcome_state {S A} (o : outcome S A) : S :=
  match o with Val _ s | Exc _ s => s end.

(** The state after [message_builder::report] sent out the diagnostic for
    [ex] at [ref] ([try_report], lines 209-214). *)
Definition report_diagnostic (ex : exn) (ref : option expr) (s : elab_state) : elab_state :=
  set_m_has_errors true (set_reported ((ex, ref) :: reported s) s).

(** [try_report] succeeds when recovery is enabled and position
    information is available. *)
Definition can_recover (s : elab_state) : bool :=
  m_recover_from_errors s && pos_info_provider s.

(** The members of the elaborator besides the checker, the pending
    instances and the record of diagnostics. *)
Definition session_rest (s : elab_state) :=
  (m_env s, m_opts s, m_info s, m_numeral_types s, m_tactics s, m_inaccessible_stack s,
   m_recover_from_errors s, m_coercions s, m_in_pattern s, m_in_quote s,
   pos_info_provider s).


(** [same_rest s s']: from [s] to [s'] the members of [session_rest] did
    not change. *)
Definition same_rest (s s' : elab_state) : Prop := session_rest s' = session_rest s.

End Coercions.

Section HintOrder.
Context {C : Carriers} {H : HintExternal}.

(** What [unification_hint_cmp] and [add_unification_hint] use and [src/]
    does not define: the kernel's [operator!=] on terms, the orders
    [expr_quick_cmp] and [expr_pair_quick_cmp] ([library/expr_lt.h],
    [library/expr_pair.h]) and the printing of a name into a stream. *)
Class HintOrderExternal := {
  expr_neq : expr -> expr -> bool;
  expr_quick_cmp : expr -> expr -> Z;
  expr_pair_quick_cmp : expr_pair -> expr_pair -> Z;
  name_to_string : name -> string;
}.
Context {O : HintOrderExternal}.

(** The loop of [unification_hint_cmp::operator()] over the two lists of
    constraints, in step: it ends with the shorter list.  The result of a
    comparison goes through an [unsigned] on its way out, which keeps it. *)
Fixpoint constraints_cmp (c1 c2 : list expr_pair) : Z :=
  match c1, c2 with
  | p1 :: c1', p2 :: c2' =>
      let cmp := expr_pair_quick_cmp p1 p2 in
      if negb (cmp =? 0) then cmp else constraints_cmp c1' c2'
  | _, _ => 0
  end.

(** [unification_hint_cmp::operator()(uh1, uh2)] (lines 26-42) *)
Definition unification_hint_cmp (uh1 uh2 : unification_hint) : Z :=
  if expr_neq (m_lhs uh1) (m_lhs uh2) then expr_quick_cmp (m_lhs uh1) (m_lhs uh2)
  else if expr_neq (m_rhs uh1) (m_rhs uh2) then expr_quick_cmp (m_rhs uh1) (m_rhs uh2)
  else constraints_cmp (m_constraints uh1) (m_constraints uh2).

(** [add_unification_hint(env, ios, decl_name, prio, persistent)] (lines
    164-169), on the state of the extension: [scoped_ext::add_entry] runs
    [unification_hint_config::add_entry] on it. *)
Definition add_unification_hint (env : environment) (decl_name : name) (prio : nat)
  : M unification_hint_state unit :=
  if negb (decl_is_definition env decl_name) then
    hint_exception
      ("invalid unification hint, '" ++ name_to_string decl_name ++ "' must be a definition")
  else add_entry env decl_name prio.

End HintOrder.

Section Numerals.
Context {C : Carriers} {X : External}.

(** What the elaboration of numerals uses besides [External]: the kernel's
    [dec_level] on universe levels, the checker on levels and the value of a
    pre-numeral ([frontends/lean/prenum.h]). *)
Class NumeralExternal := {
  (** [::lean::dec_level(l)] *)
  lean_dec_level : level -> option level;
  (** [m_ctx.is_def_eq(l1, l2)] on universe levels *)
  tc_is_def_eq_level : level -> level -> M type_context bool;
  prenum_value : expr -> Z;
}.
Context {N : NumeralExternal}.

(** [elaborator::dec_level(l, ref)] (lines 826-833) *)
Definition dec_level (l : level) (ref : expr) : M elab_state level :=
  match lean_dec_level l with
  | Some d => ret d
  | None =>
      let* r := lift_ctx tc_mk_univ_metavar_decl in
      let* eq := lift_ctx (tc_is_def_eq_level (level_succ r) l) in
      if negb eq then
        throw (elaborator_exception ref
                 (fmt_text "invalid pre-numeral, universe level must be > 0"))
      else ret r
  end.

(** The local function [convert] of [visit_prenum] (lines 866-878), on a
    positive [v]: [v == 1], [v % 2 == 0] and the odd case are the three
    shapes of a positive binary number, and [v / 2] is its tail. *)
Fixpoint convert (one S_one S_add A : expr) (ls : list level) (v : positive) : expr :=
  match v with
  | xH => one
  | xO p =>
      mk_app (mk_constant_with_levels get_bit0_name ls)
        [A; S_add; convert one S_one S_add A ls p]
  | xI p =>
      mk_app (mk_constant_with_levels get_bit1_name ls)
        [A; S_one; S_add; convert one S_one S_add A ls p]
  end.

(** The type [A] of the numeral (lines 840-848): the expected type, or a
    new metavariable; a metavariable is recorded in [m_numeral_types]. *)
Definition prenum_type (e : expr) (expected_type : option expr) : M elab_state expr :=
  match expected_type with
  | Some T =>
      (if is_metavar T
       then modify (fun s => set_m_numeral_types (T :: m_numeral_types s) s)
       else ret tt) ;;
      ret T
  | None =>
      let* A := mk_type_metavar e in
      modify (fun s => set_m_numeral_types (A :: m_numeral_types s) s) ;;
      ret A
  end.

(** The numeral of type [A] (lines 849-881). *)
Definition prenum_numeral (e : expr) (A : expr) : M elab_state expr :=
  let ref := e in
  let v := prenum_value e in
  let* A_lvl := elaborator_get_level A ref in
  let* l := dec_level A_lvl ref in
  let ls := [l] in
  if v <? 0 then
    recoverable_error (Some A) ref ref
      (fmt_text "invalid pre-numeral, it must be a non-negative value")
  else if v =? 0 then
    let has_zero_A := mk_app (mk_constant_with_levels get_has_zero_name ls) [A] in
    let* S_ := mk_instance has_zero_A ref in
    ret (mk_app (mk_constant_with_levels get_zero_name ls) [A; S_])
  else
    let has_one_A := mk_app (mk_constant_with_levels get_has_one_name ls) [A] in
    let* S_one := mk_instance has_one_A ref in
    let one := mk_app (mk_constant_with_levels get_one_name ls) [A; S_one] in
    if v =? 1 then ret one
    else
      let has_add_A := mk_app (mk_constant_with_levels get_has_add_name ls) [A] in
      let* S_add := mk_instance has_add_A ref in
      ret (convert one S_one S_add A ls (Z.to_pos v)).

(** [elaborator::visit_prenum(e, expected_type)] (lines 835-882) *)
Definition visit_prenum (e : expr) (expected_type : option expr) : M elab_state expr :=
  let* A := prenum_type e expected_type in
  prenum_numeral e A.

(** *** Notions the properties below are stated with *)

(** The number a numeral term denotes: [zero], [one], [bit0 n] for [2 n]
    and [bit1 n] for [2 n + 1], each applied to its type and instances. *)
Fixpoint numeral_value (e : expr) : option Z :=
  match e with
  | App f r =>
      match get_app_fn f, List.length (get_app_rev_args f) with
      | Constant n _, 1%nat =>
          if bool_decide (n = get_zero_name) then Some 0
          else if bool_decide (n = get_one_name) then Some 1
          else None
      | Constant n _, 2%nat =>
          if bool_decide (n = get_bit0_name)
          then option_map (fun x => 2 * x) (numeral_value r) else None
      | Constant n _, 3%nat =>
          if bool_decide (n = get_bit1_name)
          then option_map (fun x => 2 * x + 1) (numeral_value r) else None
      | _, _ => None
      end
  | _ => None
  end.

End Numerals.

Section Heads.
Context {C : Carriers} {X : External} {K : CoercionExternal}.

(** What the elaboration of the head of an application uses besides
    [External]: the kernel's [replace] on universe levels with the function
    it is given, the placeholders ([library/placeholder.h]), the field
    notation, the environment's declarations, the visitors of macros,
    lambdas and lets, and the info manager. *)
Class HeadExternal := {
  (** [replace(l, fn)] ([kernel/level.h]) *)
  level_replace : (level -> M elab_state (option level)) -> level -> M elab_state level;
  is_placeholder_level : level -> bool;
  is_one_placeholder : level -> bool;
  is_placeholder : expr -> bool;
  is_field_notation : expr -> bool;
  (** [m_env.get(n).get_num_univ_params()]; [environment::get] throws for a
      name that is not declared *)
  get_num_univ_params : environment -> name -> exn + nat;
  visit_macro : expr -> option expr -> bool -> M elab_state expr;
  visit_lambda : expr -> option expr -> M elab_state expr;
  visit_let : expr -> option expr -> M elab_state expr;
  save_identifier_info : expr -> M elab_state unit;
  (** [elaborator::ensure_no_unassigned_metavars(e)]; it updates [e] *)
  ensure_no_unassigned_metavars : expr -> M elab_state expr;
  (** [*inductive::get_num_params(env, I)], [*inductive::get_num_indices(env, I)] *)
  inductive_num_params : environment -> name -> nat;
  inductive_num_indices : environment -> name -> nat;
}.
Context {D : HeadExternal}.

Definition mk_level_one : level := level_succ level_zero.

(** [elaborator::replace_univ_placeholder(l)] (lines 345-355) *)
Definition replace_univ_placeholder (l : level) : M elab_state level :=
  level_replace
    (fun l =>
       if is_one_placeholder l then ret (Some mk_level_one)
       else if is_placeholder_level l then
         let* u := mk_univ_metavar in ret (Some u)
       else ret None)
    l.

(** The loop that fills the levels up with universe metavariables (lines
    907-908). *)
Fixpoint fill_univ_metavars (n : nat) : M elab_state (list level) :=
  match n with
  | O => ret []
  | S n' => let* u := mk_univ_metavar in let* us := fill_univ_metavars n' in ret (u :: us)
  end.

Definition update_constant (e : expr) (ls : list level) : expr := Constant (const_name e) ls.

Definition univ_levels_msg (n : name) (num_univ_params provided : nat) : format :=
  fmt_text "incorrect number of universe levels parameters for '"
  <+> (fmt_name n <+> fmt_text "', #" <+> fmt_nat num_univ_params)
  <+> (fmt_text " expected, #" <+> fmt_nat provided <+> fmt_text "provided").

(** [elaborator::visit_const_core(e)] (lines 892-911) *)
Definition visit_const_core (e : expr) : M elab_state expr :=
  let* env := gets m_env in
  match get_num_univ_params env (const_name e) with
  | inl ex => throw ex
  | inr num_univ_params =>
      let* ls := mapM replace_univ_placeholder (const_levels e) in
      if (num_univ_params <? List.length ls)%nat then
        recoverable_error None e e
          (univ_levels_msg (const_name e) num_univ_params (List.length ls))
      else
        let* us := fill_univ_metavars (num_univ_params - List.length ls) in
        ret (update_constant e (ls ++ us))
  end.

(** [elaborator::visit_function(fn, has_args, ref)] (lines 923-948) *)
Definition elaborator_visit_function (fn : expr) (has_args : bool) (ref : expr)
  : M elab_state expr :=
  if is_placeholder fn then
    throw (elaborator_exception ref
             (fmt_text "placeholders '_' cannot be used where a function is expected"))
  else if is_field_notation fn then
    throw (elaborator_exception ref (fmt_text "invalid occurrence of '^.' notation"))
  else
    let* r :=
      match fn with
      | Var _ | Pi _ _ _ _ | Meta _ _ | Sort _ =>
          throw (elaborator_exception ref (fmt_text "invalid application, function expected"))
      | App _ _ => visit fn None
      | Local _ _ _ _ => ret fn
      | Constant _ _ => visit_const_core fn
      | Macro _ _ => visit_macro fn None true
      | Lambda _ _ _ _ => visit_lambda fn None
      | Let _ _ _ _ => visit_let fn None
      end in
    save_identifier_info r ;;
    if has_args then ensure_function r ref else ret r.

(** [elaborator::strict_visit(e, expected_type)] (lines 2947-2953) *)
Definition strict_visit (e : expr) (expected_type : option expr) : M elab_state expr :=
  let* r := visit e expected_type in
  synthesize ;;
  let* r := instantiate_mvars r in
  ensure_no_unassigned_metavars r.

(** The arguments of the application [visit_no_confusion_app] elaborates
    in place of the one it is given (lines 1838-1847). *)
Definition no_confusion_args (nparams nindices : nat) (expected_type Heq : expr)
    (rest : list expr) : list expr :=
  repeat (mk_expr_placeholder None) (nparams + nindices)
  ++ [mk_as_is expected_type; mk_expr_placeholder None; mk_expr_placeholder None;
      mk_as_is Heq]
  ++ rest.

(** [elaborator::visit_no_confusion_app(fn, args, expected_type, ref)]
    (lines 1804-1849) *)
Definition visit_no_confusion_app (fn : expr) (args : list expr)
    (expected_type : option expr) (ref : expr) : M elab_state expr :=
  let fn_name := const_name fn in
  match expected_type with
  | None =>
      throw (elaborator_exception ref
               (fmt_text "invalid '" <+> fmt_name fn_name <+> fmt_text "' application, "
                <+> fmt_text "elaborator has special support for no_confusion "
                <+> fmt_text "but the expected type must be known"))
  | Some T =>
      match args with
      | [] =>
          throw (elaborator_exception ref
                   (fmt_text "invalid occurrence of function '" <+> fmt_name fn_name
                    <+> fmt_text "', it must be applied to at least one argument (possible solution: use '@')"))
      | arg0 :: rest =>
          let* Heq := strict_visit arg0 None in
          let I_name := get_prefix fn_name in
          let* env := gets m_env in
          let nparams := inductive_num_params env I_name in
          let nindices := inductive_num_indices env I_name in
          visit_base_app_core fn AllExplicit (no_confusion_args nparams nindices T Heq rest)
            false expected_type ref
      end
  end.

(** [is_basic_aux_recursor(env, n)] (lines 383-387) *)
Definition is_basic_aux_recursor (env : environment) (n : name) : bool :=
  if negb (is_aux_recursor env n) then false
  else negb (String.eqb (get_string n) "drec").

(** [elaborator::get_elim_info_for_builtin(fn)] (lines 390-422), on the
    environment [m_env]. *)
Definition get_elim_info_for_builtin (env : environment) (fn : name) : elim_info :=
  let I_name := get_prefix fn in
  let nparams := inductive_num_params env I_name in
  let nindices := inductive_num_indices env I_name in
  let nminors := List.length (get_intro_rule_names env I_name) in
  let arity :=
    if String.eqb (get_string fn) "brec_on" || String.eqb (get_string fn) "binduction_on"
    then (nparams + 1 + nindices + 1 + 1)%nat
    else (nparams + 1 + nindices + 1 + nminors)%nat in
  let nexplicit := (1 + nminors)%nat in
  let nexplicit := if (nminors =? 0)%nat then S nexplicit else nexplicit in
  let motive_idx := nparams in
  let major_idx :=
    if is_elim_rule env fn then (nparams + 1 + nindices + nminors)%nat
    else (nparams + 1 + nindices)%nat in
  mk_elim_info arity nexplicit motive_idx [major_idx].

End Heads.

Section Patterns.
Context {C : Carriers} {X : External} {D : HeadExternal}.

(** What the checks on patterns use besides the classes above:
    [inductive::is_intro_rule] and the annotation of inaccessible terms. *)
Class PatternExternal := {
  (** [inductive::is_intro_rule(env, n)]: the inductive type [n] is a
      constructor of *)
  is_intro_rule : environment -> name -> option name;
  is_inaccessible : expr -> bool;
  mk_inaccessible : expr -> expr;
  get_annotation_arg : expr -> expr;
}.
Context {P : PatternExternal}.

Definition inaccessible_params_msg : format :=
  fmt_text "invalid pattern, in a constructor application, the parameters of the inductive datatype must be marked as inaccessible".

(** The first loop of [check_pattern_inaccessible_annotations] (lines
    2303-2313), for the head [c] and the arguments [args] of the pattern:
    the exception thrown, if any. *)
Definition check_constructor_params (env : environment) (c : expr) (args : list expr)
  : option exn :=
  if is_constant c then
    match is_intro_rule env (const_name c) with
    | Some I_name =>
        let nparams := inductive_num_params env I_name in
        if forallb is_inaccessible (firstn nparams args) then None
        else Some (elaborator_exception c inaccessible_params_msg)
    | None => None
    end
  else None.

(** [elaborator::check_pattern_inaccessible_annotations(p)] (lines
    2299-2323), on the environment [m_env]: the exception thrown, if any.
    [check_pattern_args q] is the second loop, over the arguments of the
    application [q], leftmost first. *)
Fixpoint check_pattern_inaccessible_annotations (env : environment) (p : expr)
  : option exn :=
  match p with
  | App f a =>
      match check_constructor_params env (get_app_fn p) (get_app_args p) with
      | Some ex => Some ex
      | None =>
          match check_pattern_args env f with
          | Some ex => Some ex
          | None => check_pattern_inaccessible_annotations env a
          end
      end
  | _ => None
  end
with check_pattern_args (env : environment) (q : expr) : option exn :=
  match q with
  | App f a =>
      match check_pattern_args env f with
      | Some ex => Some ex
      | None => check_pattern_inaccessible_annotations env a
      end
  | _ => None
  end.

(** [elaborator::check_inaccessible_annotations(lhs)] (lines 2325-2331) *)
Definition check_inaccessible_annotations (env : environment) (lhs : expr) : option exn :=
  check_pattern_args env lhs.

(** *** Notions the properties below are stated with *)

(** [subpattern q p]: [q] is [p], or a pattern nested in an argument of the
    application [p]. *)
Inductive subpattern : expr -> expr -> Prop :=
| subpattern_here p : subpattern p p
| subpattern_arg q p a :
    In a (get_app_args p) -> subpattern q a -> subpattern q p.

(** In the constructor application [q] the parameters of the inductive
    type are marked as inaccessible. *)
Definition params_inaccessible (env : environment) (q : expr) : Prop :=
  forall I_name,
    is_app q = true ->
    is_constant (get_app_fn q) = true ->
    is_intro_rule env (const_name (get_app_fn q)) = Some I_name ->
    Forall (fun a => is_inaccessible a = true)
      (firstn (inductive_num_params env I_name) (get_app_args q)).

End Patterns.

Section Fields.
Context {C : Carriers} {X : External}.

(** What the field notation [s^.f] uses besides the classes above. *)
Class FieldExternal := {
  is_anonymous_field_notation : expr -> bool;
  get_field_notation_field_idx : expr -> nat;
  get_field_notation_field_name : expr -> name;
  get_structure_fields : environment -> name -> list name;
  (** [env.find(n)] finds a declaration *)
  env_find : environment -> name -> bool;
  (** [n1 + n2] on hierarchical names *)
  name_append : name -> name -> name;
  unfold_term : environment -> expr -> option expr;
  (** [type_context::whnf_head_pred(e, is_macro)] *)
  tc_whnf_head_pred_macro : expr -> M type_context expr;
  (** [e1 == e2] on terms *)
  expr_eq : expr -> expr -> bool;
  head_beta_reduce : expr -> expr;
  macro_arg : expr -> nat -> expr;
}.
Context {F : FieldExternal}.

Notation "'letF' x ':=' c1 'in' c2" := (bindF c1 (fun x => c2))
  (at level 10, x name, c1 at level 100, c2 at level 200) : elab_scope.

(** [ex.get_pos()] of an elaborator exception: the position of the term it
    was raised at. *)
Definition exn_ref (ex : exn) : expr :=
  match ex with
  | elaborator_exception ref _ | nested_elaborator_exception ref _ _ => ref
  | _ => Var 0
  end.

Definition not_constant_app_msg (ps pt : format) : format :=
  fmt_text "invalid '^.' notation, type is not of the form (C ...) where C is a constant"
  <+> ps <+> fmt_line <+> fmt_text "has type" <+> pt.

Definition structure_expected_msg (ps pt : format) : format :=
  fmt_text "invalid projection, structure expected"
  <+> ps <+> fmt_line <+> fmt_text "has type" <+> pt.

Definition too_few_fields_msg (nfields : nat) (ps pt : format) : format :=
  fmt_text "invalid projection, structure has only " <+> fmt_nat nfields
  <+> fmt_text " field(s)" <+> ps <+> fmt_line <+> fmt_text "which has type" <+> pt.

Definition not_a_field_msg (fname full_fname : name) (ps pt : format) : format :=
  fmt_text "invalid '^.' notation, '" <+> fmt_name fname <+> fmt_text "'"
  <+> fmt_text (" is not a valid " ++ dquote ++ "field" ++ dquote
                ++ " because environment does not contain ")
  <+> fmt_text "'" <+> fmt_name full_fname <+> fmt_text "'"
  <+> ps <+> fmt_line <+> fmt_text "which has type" <+> pt.

(** [elaborator::field_to_decl(e, s, s_type)] (lines 2371-2415).  The field
    index is asserted positive; [fnames[fidx-1]] has no defined behaviour
    at index zero. *)
Definition field_to_decl (e s s_type : expr) : MF elab_state name :=
  let I := get_app_fn s_type in
  if negb (is_constant I) then
    liftF (let* ps := pp_indent s in
           let* pt := pp_indent s_type in
           throw (elaborator_exception e (not_constant_app_msg ps pt)))
  else if is_anonymous_field_notation e then
    (letF env := liftF (gets m_env) in
    if negb (is_structure env (const_name I)) then
      liftF (let* ps := pp_indent s in
             let* pt := pp_indent s_type in
             throw (elaborator_exception e (structure_expected_msg ps pt)))
    else
      let fnames := get_structure_fields env (const_name I) in
      let fidx := get_field_notation_field_idx e in
      if (List.length fnames <? fidx)%nat then
        liftF (let* ps := pp_indent s in
               let* pt := pp_indent s_type in
               throw (elaborator_exception e
                        (too_few_fields_msg (List.length fnames) ps pt)))
      else
        match fidx with
        | O => undefined
        | S i =>
            match nth_error fnames i with
            | Some n => liftF (ret n)
            | None => undefined
            end
        end)
  else
    let fname := get_field_notation_field_name e in
    let full_fname := name_append (const_name I) fname in
    letF env := liftF (gets m_env) in
    if negb (env_find env full_fname) then
      liftF (let* ps := pp_indent s in
             let* pt := pp_indent s_type in
             throw (elaborator_exception e (not_a_field_msg fname full_fname ps pt)))
    else liftF (ret full_fname).

(** [elaborator::find_field_fn(e, s, s_type)] (lines 2417-2433); the fuel
    bounds the number of times the type is unfolded. *)
Fixpoint find_field_fn (fuel : nat) (e s s_type : expr) : MF elab_state name :=
  match fuel with
  | O => undefined
  | S fuel' =>
      try_catchF (field_to_decl e s s_type) is_elaborator_exception
        (fun ex1 =>
           letF env := liftF (gets m_env) in
           let new_s_type :=
             match unfold_term env s_type with Some d => d | None => s_type end in
           letF new_s_type := liftF (lift_ctx (tc_whnf_head_pred_macro new_s_type)) in
           if expr_eq new_s_type s_type then liftF (throw ex1)
           else
             try_catchF (find_field_fn fuel' e s new_s_type) is_elaborator_exception
               (fun ex2 =>
                  liftF (throw (nested_elaborator_exception (exn_ref ex2) ex1 (exn_pp ex2)))))
  end.

(** [elaborator::visit_field(e, expected_type)] (lines 2435-2443) *)
Definition visit_field (fuel : nat) (e : expr) (expected_type : option expr)
  : MF elab_state expr :=
  letF s := liftF (visit (macro_arg e 0) None) in
  letF s_type := liftF (let* t := infer_type s in
                        let* t := instantiate_mvars t in
                        ret (head_beta_reduce t)) in
  letF full_fname := find_field_fn fuel e s s_type in
  let proj := mk_constant full_fname in
  let new_e := mk_app proj [mk_as_is s] in
  liftF (visit new_e expected_type).

(** *** Notions the properties below are stated with *)

(** [n] is what the notation [e] denotes on a type of head [I]: its field
    of the given index, counted from one, or the declaration [I.fname]. *)
Definition field_of (env : environment) (e : expr) (I : name) (n : name) : Prop :=
  if is_anonymous_field_notation e then
    is_structure env I = true
    /\ (1 <= get_field_notation_field_idx e <= List.length (get_structure_fields env I))%nat
    /\ nth_error (get_structure_fields env I) (get_field_notation_field_idx e - 1) = Some n
  else
    n = name_append I (get_field_notation_field_name e)
    /\ env_find env n = true.

End Fields.

Section Equations.
Context {C : Carriers} {X : External}.

(** What the equations compiler's front end uses: the macros of
    [library/equations_compiler/equations.h]. *)
Class EquationExternal := {
  is_equation : expr -> bool;
  is_no_equation : expr -> bool;
  equation_lhs : expr -> expr;
}.
Context {Q : EquationExternal}.

Definition is_binding (e : expr) : bool := is_lambda e || is_pi e.

(** [update_binding(e, new_domain, new_body)] *)
Definition update_binding (e new_domain new_body : expr) : expr :=
  match e with
  | Lambda n bi _ _ => Lambda n bi new_domain new_body
  | Pi n bi _ _ => Pi n bi new_domain new_body
  | _ => e
  end.

(** [copy_domain(num, source, target)] (lines 2184-2193) *)
Fixpoint copy_domain (num : nat) (source target : expr) : expr :=
  match num with
  | O => target
  | S num' =>
      if is_binding source && is_binding target then
        update_binding source (mk_as_is (binding_domain source))
          (copy_domain num' (binding_body source) (binding_body target))
      else target
  end.

(** The loop [while (is_lambda(eqn))] of [check_equations_arity]: the
    number of binders crossed and the term under them. *)
Fixpoint open_lambdas (nbinders : nat) (eqn : expr) : nat * expr :=
  match eqn with
  | Lambda _ _ _ b => open_lambdas (S nbinders) b
  | _ => (nbinders, eqn)
  end.

Definition ill_formed_equations_msg : format :=
  fmt_text "ill-formed match/equations expression".
Definition different_arity_msg : format :=
  fmt_text "invalid match/equations expression, each case must have the same number of patterns".

(** [fidx2arity.resize(n, optional<unsigned>())] for a larger [n] *)
Definition resize_arity (n : nat) (fidx2arity : list (option nat)) : list (option nat) :=
  fidx2arity ++ replicate (n - List.length fidx2arity) None.

(** The body of the loop of [check_equations_arity] (lines 2198-2225), on
    the table [fidx2arity]: the exception thrown or the table afterwards. *)
Definition check_equation_arity (fidx2arity : list (option nat)) (curr : expr)
  : exn + list (option nat) :=
  let '(nbinders, eqn) := open_lambdas 0 curr in
  if is_equation eqn then
    let lhs := equation_lhs eqn in
    let fn := get_app_fn lhs in
    let arity := List.length (get_app_rev_args lhs) in
    if negb (is_var fn) || (nbinders <=? var_idx fn)%nat then
      inl (elaborator_exception eqn ill_formed_equations_msg)
    else
      let fidx := (nbinders - var_idx fn - 1)%nat in
      let fidx2arity :=
        if (List.length fidx2arity <=? fidx)%nat then resize_arity (fidx + 1) fidx2arity
        else fidx2arity in
      match fidx2arity !! fidx with
      | Some (Some r) =>
          if negb (r =? arity)%nat then inl (elaborator_exception eqn different_arity_msg)
          else inr fidx2arity
      | _ => inr (<[fidx := Some arity]> fidx2arity)
      end
  else if is_no_equation eqn then inr fidx2arity
  else inl (elaborator_exception curr ill_formed_equations_msg).

Fixpoint check_equations_arity_from (fidx2arity : list (option nat)) (eqns : list expr)
  : option exn :=
  match eqns with
  | [] => None
  | eqn :: rest =>
      match check_equation_arity fidx2arity eqn with
      | inl ex => Some ex
      | inr fidx2arity' => check_equations_arity_from fidx2arity' rest
      end
  end.

(** [check_equations_arity(eqns)] (lines 2195-2227): the exception thrown,
    if any. *)
Definition check_equations_arity (eqns : list expr) : option exn :=
  check_equations_arity_from [] eqns.

(** *** Notions the properties below are stated with *)

(** The first [num] binder domains of [e], and what is under them. *)
Fixpoint binder_domains (num : nat) (e : expr) : list expr :=
  match num with
  | O => []
  | S num' =>
      if is_binding e then binding_domain e :: binder_domains num' (binding_body e) else []
  end.

Fixpoint under_binders (num : nat) (e : expr) : expr :=
  match num with
  | O => e
  | S num' => if is_binding e then under_binders num' (binding_body e) else e
  end.

(** What an equation says: [Some (fidx, arity)] for a case of the function
    of index [fidx] with [arity] patterns, [None] for the marker of a
    definition without cases. *)
Inductive equation_shape :=
| case_of (fidx arity : nat)
| no_cases.

Definition shape_of (curr : expr) : option equation_shape :=
  let '(nbinders, eqn) := open_lambdas 0 curr in
  if is_equation eqn then
    match get_app_fn (equation_lhs eqn) with
    | Var idx =>
        if (idx <? nbinders)%nat then
          Some (case_of (nbinders - idx - 1)
                  (List.length (get_app_args (equation_lhs eqn))))
        else None
    | _ => None
    end
  else if is_no_equation eqn then Some no_cases
  else None.

(** The cases of one function, among the equations [eqns], have the same
    number of patterns. *)
Definition same_arity (eqns : list expr) : Prop :=
  forall e1 e2 fidx a1 a2,
    In e1 eqns -> In e2 eqns ->
    shape_of e1 = Some (case_of fidx a1) ->
    shape_of e2 = Some (case_of fidx a2) ->
    a1 = a2.

(** The table [fidx2arity] holds the arities of the cases among [done]. *)
Definition arity_table (fidx2arity : list (option nat)) (done : list expr) : Prop :=
  forall fidx a,
    fidx2arity !! fidx = Some (Some a)
    <-> exists e, In e done /\ shape_of e = Some (case_of fidx a).

End Equations.

Section Applications.
Context {C : Carriers} {X : External} {P : PatternExternal}.

Notation "'letF' x ':=' c1 'in' c2" := (bindF c1 (fun x => c2))
  (at level 10, x name, c1 at level 100, c2 at level 200) : elab_scope.
Notation "'letF' ' p ':=' c1 'in' c2" := (bindF c1 (fun x => match x with p => c2 end))
  (at level 10, p pattern, c1 at level 100, c2 at level 200) : elab_scope.

(** What the two passes over the arguments of an application use besides
    the classes above. *)
Class ApplicationExternal := {
  is_as_is : expr -> bool;
  get_as_is_arg : expr -> expr;
  (** [to_string(e)] of a string literal *)
  expr_to_string : expr -> option string;
  mk_by : expr -> expr;
  mk_tactic_unit : expr;
  (** [m_env.find(n)], then the type of the declaration found *)
  env_find_type : environment -> name -> option expr;
  (** the name as [sstream] writes it *)
  name_string : name -> string;
  (** [mk_fresh_name()]: the generator is outside the elaborator *)
  mk_fresh_name : M elab_state name;
  (** [Pi(locals, e)] and [Fun(locals, e)] of the abstraction of locals *)
  Pi_locals : list expr -> expr -> expr;
  Fun_locals : list expr -> expr -> expr;
  (** [get_pos_info_provider()->get_pos_info(e)] finds a position *)
  get_pos_info : expr -> bool;
}.
Context {A : ApplicationExternal}.

Definition get_thunk_name : name := mk_string anonymous "thunk".
Definition get_unit_name : name := mk_string anonymous "unit".
Definition get_auto_param_name : name := mk_string anonymous "auto_param".
Definition get_name_anonymous_name : name :=
  mk_string (mk_string anonymous "name") "anonymous".
Definition get_name_mk_string_name : name :=
  mk_string (mk_string anonymous "name") "mk_string".

Definition binding_name (e : expr) : name :=
  match e with Pi n _ _ _ | Lambda n _ _ _ => n | _ => anonymous end.
Definition is_strict_implicit (bi : binder_info) : bool :=
  match bi with bi_strict_implicit => true | _ => false end.
Definition mk_local (n pp_n : name) (type : expr) (bi : binder_info) : expr :=
  Local n pp_n type bi.

(** [is_auto_param(e)] (lines 1177-1183) *)
Definition is_auto_param (e : expr) : option expr_pair :=
  if is_app_of e get_auto_param_name 2 then Some (app_arg (app_fn e), app_arg e) else None.

(** [is_thunk(e)] (lines 1185-1191) *)
Definition is_thunk (e : expr) : option expr :=
  if is_app_of e get_thunk_name 1 then Some (app_arg e) else None.

(** [mk_thunk_if_needed(e, is_thunk)] (lines 1193-1198) *)
Definition mk_thunk_if_needed (e : expr) (is_thunk : option expr) : expr :=
  match is_thunk with
  | Some _ => mk_lambda "_" (mk_constant get_unit_name) e
  | None => e
  end.

(** [name_lit_to_name(name_lit)] (lines 1200-1209) *)
Fixpoint name_lit_to_name (name_lit : expr) : option name :=
  match name_lit with
  | Constant n _ =>
      if bool_decide (n = get_name_anonymous_name) then Some anonymous else None
  | App f a =>
      if is_app_of name_lit get_name_mk_string_name 2 then
        match expr_to_string (app_arg f) with
        | Some str =>
            match name_lit_to_name a with
            | Some p => Some (mk_string p str)
            | None => None
            end
        | None => None
        end
      else None
  | _ => None
  end.

(** [elaborator::mk_auto_param(name_lit, expected_type, ref)] (lines
    1211-1225) *)
Definition mk_auto_param (name_lit expected_type ref : expr) : M elab_state expr :=
  match name_lit_to_name name_lit with
  | None =>
      let* p := pp_indent name_lit in
      throw (elaborator_exception ref
               (fmt_text "invalid auto_param, name literal expected for identifying tactic"
                <+> p))
  | Some c =>
      let* env := gets m_env in
      match env_find_type env c with
      | None =>
          throw (elaborator_exception ref
                   (fmt_text ("invalid auto_param, unknown tactic '" ++ name_string c ++ "'")))
      | Some d_type =>
          let* eq := lift_ctx (tc_is_def_eq d_type mk_tactic_unit) in
          if negb eq then
            let* p := pp_indent d_type in
            throw (elaborator_exception ref
                     (fmt_text "invalid auto_param, invalid tactic '" <+> fmt_name c
                      <+> fmt_text "' type should be (tactic unit)" <+> p))
          else visit (mk_by (mk_constant c)) (Some expected_type)
      end
  end.

(** The loop of [process_optional_and_auto_params] (lines 1232-1260), on
    [type], the two buffers, [sz1], [sz2] and [result_type]. *)
Fixpoint process_params_loop (fuel : nat) (ref type : expr)
    (eta_args new_args : list expr) (sz1 sz2 : nat) (result_type : option expr)
  : MF elab_state (list expr * list expr * nat * nat * option expr) :=
  match fuel with
  | O => undefined
  | S fuel' =>
      letF it := liftF (whnf type) in
      if negb (is_pi it) then liftF (ret (eta_args, new_args, sz1, sz2, result_type))
      else
        let type := it in
        let d := binding_domain type in
        letF '(found, new_arg, eta_args) :=
          liftF (match is_optional_param d with
                 | Some def_value => ret (true, def_value, eta_args)
                 | None =>
                     match is_auto_param d with
                     | Some p =>
                         let* new_arg := mk_auto_param (snd p) (fst p) ref in
                         ret (true, new_arg, eta_args)
                     | None =>
                         let* n := mk_fresh_name in
                         let new_arg := mk_local n (binding_name type) d (binding_info type) in
                         ret (false, new_arg, eta_args ++ [new_arg])
                     end
                 end) in
        letF in_pattern := liftF (gets m_in_pattern) in
        let new_arg := if found && in_pattern then mk_inaccessible new_arg else new_arg in
        let new_args := new_args ++ [new_arg] in
        let type := instantiate (binding_body type) new_arg in
        if found then
          process_params_loop fuel' ref type eta_args new_args
            (List.length eta_args) (List.length new_args) (Some type)
        else
          process_params_loop fuel' ref type eta_args new_args sz1 sz2 result_type
  end.

(** [elaborator::process_optional_and_auto_params(type, ref, eta_args,
    new_args)] (lines 1228-1267): the result and the two buffers
    afterwards. *)
Definition process_optional_and_auto_params (fuel : nat) (type ref : expr)
    (eta_args new_args : list expr)
  : MF elab_state (option expr * list expr * list expr) :=
  letF '(eta_args, new_args, sz1, sz2, result_type) :=
    process_params_loop fuel ref type eta_args new_args
      (List.length eta_args) (List.length new_args) None in
  let eta_args := firstn sz1 eta_args in
  let new_args := firstn sz2 new_args in
  match result_type with
  | Some t => liftF (ret (Some (Pi_locals eta_args t), eta_args, new_args))
  | None => liftF (ret (None, eta_args, new_args))
  end.

Definition push_new_instance (new_arg : expr) (info : first_pass_info) : first_pass_info :=
  mk_first_pass_info (args_mvars info) (args_expected_types info) (fp_new_args info)
    (new_args_size info) (new_instances info ++ [new_arg]) (new_instances_size info)
    (fp_eta_args info).

Definition push_arg_expected_type (d : expr) (info : first_pass_info) : first_pass_info :=
  mk_first_pass_info (args_mvars info) (args_expected_types info ++ [d]) (fp_new_args info)
    (new_args_size info) (new_instances info) (new_instances_size info) (fp_eta_args info).

(** lines 1355-1357 *)
Definition push_arg_mvar (new_arg : expr) (info : first_pass_info) : first_pass_info :=
  mk_first_pass_info (args_mvars info ++ [new_arg]) (args_expected_types info)
    (fp_new_args info)
    (new_args_size info ++ [List.length (fp_new_args info)])
    (new_instances info)
    (new_instances_size info ++ [List.length (new_instances info)])
    (fp_eta_args info).

Definition push_to_new_args (new_arg : expr) (info : first_pass_info) : first_pass_info :=
  mk_first_pass_info (args_mvars info) (args_expected_types info)
    (fp_new_args info ++ [new_arg])
    (new_args_size info) (new_instances info) (new_instances_size info) (fp_eta_args info).

Definition set_new_args (new_args : list expr) (info : first_pass_info) : first_pass_info :=
  mk_first_pass_info (args_mvars info) (args_expected_types info) new_args
    (new_args_size info) (new_instances info) (new_instances_size info) (fp_eta_args info).

Definition set_eta_args (eta_args : list expr) (info : first_pass_info) : first_pass_info :=
  mk_first_pass_info (args_mvars info) (args_expected_types info) (fp_new_args info)
    (new_args_size info) (new_instances info) (new_instances_size info) eta_args.

(** The argument made for an explicit binder of domain [d] whose argument
    [arg_ref] is marked as already elaborated (lines 1331-1350). *)
Definition first_pass_as_is (fn ref d arg_ref : expr) (info : first_pass_info)
  : M elab_state expr :=
  let new_arg := get_as_is_arg arg_ref in
  let* in_pattern := gets m_in_pattern in
  let thunk_of := if negb in_pattern then is_thunk d else None in
  let arg_expected_type := match thunk_of with Some t => t | None => d end in
  let new_arg := mk_thunk_if_needed new_arg thunk_of in
  let* new_arg_type := infer_type new_arg in
  let* new_new_arg := ensure_has_type new_arg new_arg_type arg_expected_type arg_ref in
  match new_new_arg with
  | None =>
      let tmp_args := fp_new_args info ++ [new_arg] in
      let* msg := mk_app_type_mismatch_error (mk_app fn tmp_args)
                    new_arg new_arg_type arg_expected_type in
      throw (elaborator_exception ref msg)
  | Some new_arg => ret new_arg
  end.

(** The loop of [first_pass] (lines 1284-1365), on [type_before_whnf],
    [type], [i] and [info]; what it returns is what the code after the
    loop reads. *)
Fixpoint first_pass_loop (fuel : nat) (fn : expr) (args : list expr) (ref : expr)
    (type_before_whnf type : expr) (i : nat) (info : first_pass_info)
  : MF elab_state (expr * nat * first_pass_info) :=
  match fuel with
  | O => undefined
  | S fuel' =>
      if negb (is_pi type) then liftF (ret (type_before_whnf, i, info))
      else
        let bi := binding_info type in
        let d := binding_domain type in
        if is_strict_implicit bi && (i =? List.length args)%nat then
          liftF (ret (type_before_whnf, i, info))
        else
          letF step :=
            liftF (if negb (is_explicit bi) then
                     let* new_arg := mk_metavar d ref in
                     let info :=
                       if is_inst_implicit bi then push_new_instance new_arg info else info in
                     let* in_pattern := gets m_in_pattern in
                     let new_arg := if in_pattern then mk_inaccessible new_arg else new_arg in
                     ret (Some (new_arg, i, info))
                   else
                     match nth_error args i with
                     | Some arg_ref =>
                         let info := push_arg_expected_type d info in
                         let* new_arg :=
                           if is_as_is arg_ref then first_pass_as_is fn ref d arg_ref info
                           else mk_metavar d arg_ref in
                         ret (Some (new_arg, S i, push_arg_mvar new_arg info))
                     | None => ret None
                     end) in
          match step with
          | None => liftF (ret (type_before_whnf, i, info))
          | Some (new_arg, i, info) =>
              let info := push_to_new_args new_arg info in
              let type_before_whnf := instantiate (binding_body type) new_arg in
              letF type := liftF (whnf type_before_whnf) in
              first_pass_loop fuel' fn args ref type_before_whnf type i info
          end
  end.

Definition empty_first_pass_info : first_pass_info := mk_first_pass_info [] [] [] [] [] [] [].

Definition first_pass_mismatch_msg (pe p1 p2 : format) : format :=
  fmt_text "type mismatch" <+> pe
  <+> fmt_line <+> fmt_text "has type" <+> p1
  <+> fmt_line <+> fmt_text "but is expected to have type" <+> p2.

(** [elaborator::first_pass(fn, args, expected_type, ref, info)] (lines
    1275-1386), from an empty [info]; the fuel bounds the iterations of
    each of its two loops. *)
Definition elaborator_first_pass (fuel : nat) (fn : expr) (args : list expr)
    (expected_type ref : expr) : MF elab_state first_pass_info :=
  letF fn_type := liftF (infer_type fn) in
  letF type := liftF (whnf fn_type) in
  letF '(type_before_whnf, i, info) :=
    first_pass_loop fuel fn args ref fn_type type 0 empty_first_pass_info in
  let type := type_before_whnf in
  letF '(new_type, eta_args, new_args) :=
    process_optional_and_auto_params fuel type ref (fp_eta_args info) (fp_new_args info) in
  let info := set_new_args new_args (set_eta_args eta_args info) in
  let type := match new_type with Some t => t | None => type end in
  if negb (i =? List.length args)%nat then
    liftF (throw (elaborator_exception ref (fmt_text "too many arguments")))
  else
    letF eq := liftF (is_def_eq expected_type type) in
    if negb eq then
      liftF (let* p1 := pp_indent type in
             let* p2 := pp_indent expected_type in
             let* pe := pp_indent (mk_app fn (fp_new_args info)) in
             throw (elaborator_exception ref (first_pass_mismatch_msg pe p1 p2)))
    else liftF (ret info).

(** [get_ref_for_child(arg, ref)] (lines 797-804) *)
Definition get_ref_for_child (arg ref : expr) : M elab_state expr :=
  let* provider := gets pos_info_provider in
  if provider && get_pos_info arg then ret arg else ret ref.

(** [elaborator::elaborate_arg(arg, expected_type, ref)] (lines 1388-1396) *)
Definition elaborate_arg (arg expected_type ref : expr)
  : M elab_state (expr * expr * option expr) :=
  let* in_pattern := gets m_in_pattern in
  let thunk_of := if negb in_pattern then is_thunk expected_type else None in
  let aux_expected_type := match thunk_of with Some t => t | None => expected_type end in
  let* new_arg := visit arg (Some aux_expected_type) in
  let new_arg := mk_thunk_if_needed new_arg thunk_of in
  let* new_arg_type := infer_type new_arg in
  let* r := ensure_has_type new_arg new_arg_type expected_type ref in
  ret (new_arg, new_arg_type, r).

(** [elaborator::mk_app_arg_mismatch_error(t, arg, expected_arg)] (lines
    981-991) *)
Definition mk_app_arg_mismatch_error (t arg expected_arg : expr) : M elab_state format :=
  let* p1 := pp_indent arg in
  let* p2 := pp_indent expected_arg in
  let* pt := pp_indent t in
  ret (fmt_text "unexpected argument at application"
       <+> pt
       <+> (fmt_line <+> fmt_text "given argument")
       <+> p1
       <+> (fmt_line <+> fmt_text "expected argument")
       <+> p2).

(** The two loops of [second_pass] over the new instances (lines
    1407-1411 and 1440-1444), for the metavariables they run over. *)
Fixpoint synthesize_new_instances (mvars : list expr) : M elab_state unit :=
  match mvars with
  | [] => ret tt
  | mvar :: rest =>
      let* ok := try_synthesize_type_class_instance mvar in
      (if negb ok then
         let* old := gets m_instances in
         let* l := cons_list mvar old in
         modify (set_m_instances l)
       else ret tt) ;;
      synthesize_new_instances rest
  end.

(** The elements [new_instances[j]], ..., [new_instances[bound-1]] the
    loop at lines 1407-1411 reads: none when [bound <= j], and no defined
    outcome when it would read past the end of the buffer. *)
Definition instances_upto (j bound : nat) (new_instances : list expr) : option (list expr) :=
  if (bound <=? j)%nat then Some []
  else if (bound <=? List.length new_instances)%nat then
    Some (firstn (bound - j) (skipn j new_instances))
  else None.

(** What [second_pass] stores at [new_args_size[i]] (lines 1414-1438). *)
Definition second_pass_arg (fn ref ref_arg arg expected_type mvar : expr)
    (new_args_before : list expr) : M elab_state expr :=
  recover_expr_from_exception (Some expected_type) ref_arg
    (if is_metavar mvar then
       let* '(new_arg, new_arg_type, new_new_arg) := elaborate_arg arg expected_type ref_arg in
       match new_new_arg with
       | None =>
           let tmp_args := new_args_before ++ [new_arg] in
           let* msg := mk_app_type_mismatch_error (mk_app fn tmp_args)
                         new_arg new_arg_type expected_type in
           throw (elaborator_exception ref msg)
       | Some new_new_arg =>
           let* eq := is_def_eq mvar new_new_arg in
           if negb eq then
             let tmp_args := new_args_before ++ [new_arg] in
             let* msg := mk_app_arg_mismatch_error (mk_app fn tmp_args) new_arg mvar in
             throw (elaborator_exception ref msg)
           else ret new_new_arg
       end
     else ret mvar).

(** The loop of [second_pass] over the arguments (lines 1405-1439), from
    the argument of index [i] on; a buffer read or written out of its
    bounds has no defined outcome. *)
Fixpoint second_pass_loop (fn ref : expr) (args : list expr) (i j : nat)
    (info : first_pass_info) : MF elab_state (nat * first_pass_info) :=
  match args with
  | [] => liftF (ret (j, info))
  | arg :: rest =>
      match nth_error (new_instances_size info) i with
      | None => undefined
      | Some bound =>
          match instances_upto j bound (new_instances info) with
          | None => undefined
          | Some mvars =>
              letF _ := liftF (synthesize_new_instances mvars) in
              let j := Nat.max j bound in
              letF ref_arg := liftF (get_ref_for_child arg ref) in
              match nth_error (args_expected_types info) i,
                    nth_error (new_args_size info) i,
                    nth_error (args_mvars info) i with
              | Some expected_type, Some k, Some mvar =>
                  if (List.length (fp_new_args info) <=? k)%nat then undefined
                  else
                    letF v := liftF (second_pass_arg fn ref ref_arg arg expected_type mvar
                                       (firstn k (fp_new_args info))) in
                    second_pass_loop fn ref rest (S i) j
                      (set_new_args (<[k := v]> (fp_new_args info)) info)
              | _, _, _ => undefined
              end
          end
      end
  end.

(** [elaborator::second_pass(fn, args, ref, info)] (lines 1400-1446) *)
Definition elaborator_second_pass (fn : expr) (args : list expr) (ref : expr)
    (info : first_pass_info) : MF elab_state expr :=
  letF '(j, info) := second_pass_loop fn ref args 0 0 info in
  letF _ := liftF (synthesize_new_instances (skipn j (new_instances info))) in
  liftF (ret (Fun_locals (fp_eta_args info) (mk_app fn (fp_new_args info)))).

(** *** Notions the properties below are stated with *)

(** What the second pass relies on, for [nargs] arguments: the four
    buffers filled once per argument have [nargs] entries; each entry of
    [new_args_size] is the position of the argument's metavariable in
    [new_args]; no entry of [new_instances_size] is beyond the end of
    [new_instances]. *)
Definition info_in_bounds (nargs : nat) (info : first_pass_info) : Prop :=
  List.length (args_mvars info) = nargs
  /\ List.length (args_expected_types info) = nargs
  /\ List.length (new_args_size info) = nargs
  /\ List.length (new_instances_size info) = nargs
  /\ (forall i k, nth_error (new_args_size info) i = Some k ->
        (k < List.length (fp_new_args info))%nat
        /\ nth_error (fp_new_args info) k = nth_error (args_mvars info) i)
  /\ (forall i b, nth_error (new_instances_size info) i = Some b ->
        (b <= List.length (new_instances info))%nat).

End Applications.

Section Sanitize.

(** What [sanitize_param_names_fn::mk_param] uses of [util/name.h]. *)
Class SanitizeExternal := {
  (** [n.append_after(i)] *)
  name_append_after : name -> nat -> name;
  (** the name as [sstream] writes it *)
  universe_string : name -> string;
}.
Context {Z_ : SanitizeExternal}.

(** The fields of [sanitize_param_names_fn] (lines 3317-3329) that
    [mk_param] reads or writes; [m_idx] is an [unsigned] that is taken
    not to wrap around. *)
Record sanitize_state := mk_sanitize_state {
  m_L : gset name;
  m_R : gmap name level;
  m_U : gmap name level;
  m_idx : nat;
  m_new_param_names : list name;
  m_fixed : bool;
}.

Definition m_p : name := mk_string anonymous "u".

Definition set_m_idx (i : nat) (st : sanitize_state) : sanitize_state :=
  mk_sanitize_state (m_L st) (m_R st) (m_U st) i (m_new_param_names st) (m_fixed st).

Definition push_param_name (n : name) (st : sanitize_state) : sanitize_state :=
  mk_sanitize_state (m_L st) (m_R st) (m_U st) (m_idx st) (m_new_param_names st ++ [n])
    (m_fixed st).

Definition universe_not_in_type_msg (new_n : name) : string :=
  "theorem/lemma proof uses universe '" ++ universe_string new_n
  ++ "' which does not occur in its type".

(** [sanitize_param_names_fn::mk_param()] (lines 3339-3351); the fuel
    bounds the iterations of [while (true)]. *)
Fixpoint mk_param (fuel : nat) : MF sanitize_state level :=
  match fuel with
  | O => undefined
  | S fuel' =>
      fun st =>
        let new_n := name_append_after m_p (m_idx st) in
        let st := set_m_idx (S (m_idx st)) st in
        if bool_decide (new_n ∈ m_L st) then mk_param fuel' st
        else if m_fixed st then
          Some (Exc (lean_exception generic_exception (universe_not_in_type_msg new_n)) st)
        else Some (Val (level_param new_n) (push_param_name new_n st))
  end.

End Sanitize.

Section Resolve.
Context {C : Carriers} {F : FieldExternal}.

(** What the resolution of names uses besides the classes above. *)
Class ResolveExternal := {
  (** [lctx.find_local_decl_from_user_name(id)], then [mk_ref()] of the
      declaration found *)
  find_local_ref : local_context -> name -> option expr;
  get_local_ref : environment -> name -> option expr;
  (** [replace(e, f)] of [kernel/replace_fn.h] *)
  replace_expr : (expr -> option expr) -> expr -> expr;
  get_namespaces : environment -> list name;
  is_protected : environment -> name -> bool;
  remove_root_prefix : name -> name;
  get_expr_aliases : environment -> name -> list name;
  mk_choice : list expr -> expr;
  is_choice : expr -> bool;
  (** [get_choice(e, 0)], ..., [get_choice(e, get_num_choices(e) - 1)] *)
  get_choices : expr -> list expr;
}.
Context {R : ResolveExternal}.

Definition is_anonymous (n : name) : bool :=
  match n with anonymous => true | _ => false end.

(** [n.is_atomic()]: anonymous, or without a prefix *)
Definition is_atomic (n : name) : bool :=
  match n with
  | anonymous | mk_string anonymous _ | mk_numeral anonymous _ => true
  | _ => false
  end.

Definition local_pp_name (e : expr) : name :=
  match e with Local _ pp_n _ _ => pp_n | _ => anonymous end.

Definition unknown_identifier_msg (id : name) : format :=
  fmt_text "unknown identifier '" <+> fmt_name id <+> fmt_text "'".

(** The test of the loop over the namespaces (lines 3600-3601). *)
Definition found_in_namespace (env : environment) (id ns : name) : bool :=
  negb (is_anonymous ns) && env_find env (name_append ns id)
  && (negb (is_atomic id) || negb (is_protected env (name_append ns id))).

(** The global and the aliases of [id] (lines 3615-3632). *)
Definition global_or_aliases (env : environment) (id : name) (ignore_aliases : bool)
  : option expr :=
  let r := if env_find env id then Some (mk_constant id) else None in
  if negb ignore_aliases then
    let as_ := get_expr_aliases env id in
    match as_ with
    | [] => r
    | _ :: _ =>
        let new_as := match r with Some g => [g] | None => [] end in
        Some (mk_choice (new_as ++ map mk_constant as_))
    end
  else r.

(** [resolve_local_name(env, lctx, id, src, ignore_aliases)] (lines
    3577-3638): the exception thrown or the term returned. *)
Definition resolve_local_name (env : environment) (lctx : local_context) (id : name)
    (src : expr) (ignore_aliases : bool) : exn + expr :=
  match find_local_ref lctx id with
  | Some ref => inr ref
  | None =>
      match get_local_ref env id with
      | Some ref =>
          inr (replace_expr
                 (fun e => if is_local e then find_local_ref lctx (local_pp_name e) else None)
                 ref)
      | None =>
          match List.find (found_in_namespace env id) (get_namespaces env) with
          | Some ns => inr (mk_constant (name_append ns id))
          | None =>
              if negb (is_atomic id) && env_find env (remove_root_prefix id) then
                inr (mk_constant (remove_root_prefix id))
              else
                match global_or_aliases env id ignore_aliases with
                | Some r => inr r
                | None => inl (elaborator_exception src (unknown_identifier_msg id))
                end
          end
      end
  end.

(** [resolve_names_fn::visit_constant(e, ignore_aliases)] (lines 3661-3668) *)
Definition rn_visit_constant (env : environment) (lctx : local_context) (e : expr)
    (ignore_aliases : bool) : exn + expr :=
  match const_levels e with
  | _ :: _ => inr e
  | [] => resolve_local_name env lctx (const_name e) e ignore_aliases
  end.

(** [resolve_names_fn::visit_local(e, ignore_aliases)] (lines 3674-3676) *)
Definition rn_visit_local (env : environment) (lctx : local_context) (e : expr)
    (ignore_aliases : bool) : exn + expr :=
  resolve_local_name env lctx (local_pp_name e) e ignore_aliases.

(** [resolve_names_fn::push_new_arg(new_args, arg)] (lines 3682-3689): the
    buffer afterwards; the fuel bounds the nesting of choices. *)
Fixpoint push_new_arg (fuel : nat) (new_args : list expr) (arg : expr)
  : option (list expr) :=
  match fuel with
  | O => None
  | S fuel' =>
      if is_choice arg then
        fold_left (fun acc c => match acc with
                                | Some l => push_new_arg fuel' l c
                                | None => None
                                end)
                  (get_choices arg) (Some new_args)
      else if existsb (fun x => expr_eq x arg) new_args then Some new_args
      else Some (new_args ++ [arg])
  end.

(** [resolve_names_fn::visit_choice(e)] (lines 3691-3704); [rn_visit] is
    the visitor's own [visit], whose traversal is in
    [kernel/replace_visitor.h]. *)
Fixpoint rn_visit_choices (fuel : nat) (env : environment) (lctx : local_context)
    (rn_visit : expr -> exn + expr) (choices new_args : list expr)
  : option (exn + list expr) :=
  match choices with
  | [] => Some (inr new_args)
  | arg :: rest =>
      if is_constant arg then
        match rn_visit_constant env lctx arg true with
        | inl ex => Some (inl ex)
        | inr r =>
            match push_new_arg fuel new_args r with
            | Some l => rn_visit_choices fuel env lctx rn_visit rest l
            | None => None
            end
        end
      else if is_local arg then
        match rn_visit_local env lctx arg true with
        | inl ex => Some (inl ex)
        | inr r =>
            match push_new_arg fuel new_args r with
            | Some l => rn_visit_choices fuel env lctx rn_visit rest l
            | None => None
            end
        end
      else
        match rn_visit arg with
        | inl ex => Some (inl ex)
        | inr r => rn_visit_choices fuel env lctx rn_visit rest (new_args ++ [r])
        end
  end.

Definition rn_visit_choice (fuel : nat) (env : environment) (lctx : local_context)
    (rn_visit : expr -> exn + expr) (e : expr) : option (exn + expr) :=
  match rn_visit_choices fuel env lctx rn_visit (get_choices e) [] with
  | Some (inr new_args) => Some (inr (mk_choice new_args))
  | Some (inl ex) => Some (inl ex)
  | None => None
  end.

(** *** Notions the properties below are stated with *)

(** No element of the buffer is equal to an earlier one. *)
Fixpoint distinct (l : list expr) : Prop :=
  match l with
  | [] => True
  | x :: l' => (forall y, In y l' -> expr_eq x y = false) /\ distinct l'
  end.

End Resolve.

(** ** Bounded quantifiers over lists
       ([library/init/category/applicative.lean], lines 85-114)

    The Lean instances [list.decidable_bex] and [list.decidable_ball]
    compute decisions; a decidable predicate is given by its decision
    [p : A -> bool], and a decision [is_true _] or [is_false _] by [true] or
    [false]. *)

Section ListInstances.
Context {A : Type}.

(** [instance decidable_bex : ∀ (l : list α), decidable (∃ x ∈ l, p x)] *)
Fixpoint decidable_bex (p : A -> bool) (l : list A) : bool :=
  match l with
  | [] => false
  | x :: xs =>
      if p x then true
      else match decidable_bex p xs with
           | true => true
           | false => false
           end
  end.

(** [instance decidable_ball (l : list α) : decidable (∀ x ∈ l, p x)]: the
    condition of its [if] is decided by [decidable_bex] for [¬ p x]. *)
Definition decidable_ball (p : A -> bool) (l : list A) : bool :=
  if decidable_bex (fun x => negb (p x)) l then false else true.

End ListInstances.

(** * A small instance of the collaborators

    The definitions above are parametric.  To run them (and to see that the
    hypotheses of the theorems below can be met) the collaborators are
    instantiated by a checker over first-order terms: a metavariable context
    is a list of assignments, definitional equality is structural equality
    up to assignments and assigns a metavariable met on either side, class
    instances and the types of constants come from tables.  The visitors that
    are not embedded are given by a record of parameters. *)

Definition toy_mctx : Type := list (name * expr).

Record toy_env := mk_toy_env {
  te_constants : list (name * expr);
  te_instances : list (expr * expr);
  te_inductives : list (name * list name);
  te_private : list name;
  te_structures : list name;
  te_strategies : list (name * elaborator_strategy);
  te_values : list (name * expr);
}.

Definition toy_carriers : Carriers := {|
  metavar_context := toy_mctx;
  local_context := unit;
  environment := toy_env;
  options := nat;
  info_manager := unit;
  tc_internal := toy_env * nat;
|}.

Section Toy.
#[local] Existing Instance toy_carriers.

Fixpoint toy_lookup {A} (n : name) (l : list (name * A)) : option A :=
  match l with
  | [] => None
  | (m, a) :: l' => if bool_decide (m = n) then Some a else toy_lookup n l'
  end.

Fixpoint toy_lookup_expr (e : expr) (l : list (expr * expr)) : option expr :=
  match l with
  | [] => None
  | (k, a) :: l' => if expr_eqb k e then Some a else toy_lookup_expr e l'
  end.

Definition toy_mem (n : name) (l : list name) : bool :=
  existsb (fun m => bool_decide (m = n)) l.

(** Assigned metavariables are replaced by their values under applications
    and binders. *)
Fixpoint toy_instantiate (m : toy_mctx) (e : expr) : expr :=
  match e with
  | Meta n t => match toy_lookup n m with Some v => v | None => e end
  | App f a => App (toy_instantiate m f) (toy_instantiate m a)
  | Pi n bi d b => Pi n bi (toy_instantiate m d) (toy_instantiate m b)
  | Lambda n bi d b => Lambda n bi (toy_instantiate m d) (toy_instantiate m b)
  | _ => e
  end.

Definition toy_assign (n : name) (v : expr) (c : type_context) : type_context :=
  set_mctx ((n, v) :: tc_mctx c) c.

Definition toy_is_def_eq (e1 e2 : expr) : M type_context bool :=
  fun c =>
    let a := toy_instantiate (tc_mctx c) e1 in
    let b := toy_instantiate (tc_mctx c) e2 in
    if expr_eqb a b then Val true c
    else match a, b with
         | Meta n _, _ => Val true (toy_assign n b c)
         | _, Meta n _ => Val true (toy_assign n a c)
         | _, _ => Val false c
         end.

Fixpoint toy_infer_in (consts : list (name * expr)) (e : expr) : expr :=
  match e with
  | Meta _ t => t
  | Local _ _ t _ => t
  | Constant n _ => match toy_lookup n consts with Some t => t | None => Sort (level_succ level_zero) end
  | App f _ => binding_body (toy_infer_in consts f)
  | _ => Sort (level_succ level_zero)
  end.

Definition toy_infer (e : expr) : M type_context expr :=
  fun c => Val (toy_infer_in (te_constants (fst (tc_rest c))) e) c.

Definition toy_mk_class_instance (C_ : expr) : M type_context (option expr) :=
  fun c =>
    Val (toy_lookup_expr (toy_instantiate (tc_mctx c) C_) (te_instances (fst (tc_rest c)))) c.

Definition toy_fresh_name (k : nat) : name := mk_numeral (mk_string anonymous "_mvar") (N.of_nat k).

Definition toy_mk_metavar_decl (A : expr) : M type_context expr :=
  fun c =>
    let k := snd (tc_rest c) in
    Val (Meta (toy_fresh_name k) A)
        (mk_type_context (tc_mctx c) (tc_lctx c) (tc_approximate c) (tc_full_postponed c)
           (fst (tc_rest c), S k)).

Definition toy_mk_univ_metavar_decl : M type_context level :=
  fun c =>
    let k := snd (tc_rest c) in
    Val (level_meta (toy_fresh_name k))
        (mk_type_context (tc_mctx c) (tc_lctx c) (tc_approximate c) (tc_full_postponed c)
           (fst (tc_rest c), S k)).

Fixpoint toy_exn_pp (ex : exn) : format :=
  match ex with
  | elaborator_exception _ msg => msg
  | nested_elaborator_exception _ inner msg => msg <+> fmt_line <+> toy_exn_pp inner
  | lean_exception _ w | std_exception w => fmt_text w
  end.

(** The behaviour of the visitors that are not embedded. *)
Record toy_visitors := mk_toy_visitors {
  tv_visit : expr -> option expr -> M elab_state expr;
  tv_visit_function : expr -> bool -> expr -> M elab_state expr;
  tv_first_pass : expr -> list expr -> expr -> expr -> M elab_state first_pass_info;
  tv_second_pass : expr -> list expr -> expr -> first_pass_info -> M elab_state expr;
  tv_visit_base_app_simple :
    expr -> arg_mask -> list expr -> bool -> option expr -> expr -> M elab_state expr;
}.

Definition toy_external (v : toy_visitors) : External := {|
  tc_infer := toy_infer;
  tc_whnf := fun e => ret e;
  tc_relaxed_whnf := fun e => ret e;
  tc_is_def_eq := toy_is_def_eq;
  tc_instantiate_mvars := fun e c => Val (toy_instantiate (tc_mctx c) e) c;
  tc_mk_class_instance_at := fun _ C_ => toy_mk_class_instance C_;
  tc_mk_class_instance := toy_mk_class_instance;
  tc_mk_metavar_decl := fun _ A => toy_mk_metavar_decl A;
  tc_mk_univ_metavar_decl := toy_mk_univ_metavar_decl;
  tc_kabstract := fun e _ => ret e;
  ab_mk_app := fun n args => ret (mk_app (mk_constant n) args);
  get_decl_context := fun _ _ => tt;
  instantiate := fun b _ => b;
  is_class_out_param := fun d => is_app_of d (mk_string anonymous "out_param") 1;
  lib_mk_sorry := fun t => App (mk_constant (mk_string anonymous "sorry")) t;
  mk_expr_placeholder := fun _ => Macro "placeholder" [];
  get_anonymous_constructor_arg :=
    fun e => match e with Macro _ [a] => a | _ => e end;
  mk_anonymous_constructor := fun e => Macro "anonymous_constructor" [e];
  mk_empty_structure_instance := Macro "structure_instance" [];
  mk_as_is := fun e => Macro "as_is" [e];
  strategy_attribute := fun env n => toy_lookup n (te_strategies env);
  is_elim_rule := fun _ _ => false;
  is_aux_recursor := fun _ _ => false;
  is_user_defined_recursor := fun _ _ => false;
  is_private := fun env n => toy_mem n (te_private env);
  is_inductive_decl :=
    fun env n => match toy_lookup n (te_inductives env) with Some _ => true | None => false end;
  get_intro_rule_names :=
    fun env n => match toy_lookup n (te_inductives env) with Some l => l | None => [] end;
  env_get_type :=
    fun env n => match toy_lookup n (te_constants env) with
                 | Some t => t
                 | None => Sort (level_succ level_zero)
                 end;
  is_structure := fun env n => toy_mem n (te_structures env);
  get_pp_indent := fun o => o;
  with_pp_full_names := fun o => o;
  exn_pp := toy_exn_pp;
  visit := tv_visit v;
  visit_function := tv_visit_function v;
  first_pass := tv_first_pass v;
  second_pass := tv_second_pass v;
  visit_base_app_simple := tv_visit_base_app_simple v;
  get_level := fun _ _ => ret (level_succ level_zero);
  try_to_pi := fun e => ret e;
  assign_mvar := fun m v => lift_ctx (toy_is_def_eq m v);
  synthesize_using_tactics := ret tt;
|}.

(** Terms of the examples. *)
Definition cst (s : string) : expr := mk_constant (mk_string anonymous s).
Definition mvar (s : string) (t : expr) : expr := Meta (mk_string anonymous s) t.
Definition Type1 : expr := Sort (level_succ level_zero).

(** Visitors that elaborate nothing: a term is returned as it is, an
    application is built from its parts. *)
Definition plain_visitors : toy_visitors := {|
  tv_visit := fun e _ => ret e;
  tv_visit_function := fun fn _ _ => ret fn;
  tv_first_pass := fun _ _ _ _ => ret (mk_first_pass_info [] [] [] [] [] [] []);
  tv_second_pass := fun fn args _ _ => ret (mk_app fn args);
  tv_visit_base_app_simple := fun fn _ args _ _ _ => ret (mk_app fn args);
|}.

Definition toy_state (env : toy_env) (m : toy_mctx) (pending : plist) (recover : bool)
  : elab_state :=
  mk_elab_state env 2%nat (mk_type_context m tt false false (env, 0%nat)) tt pending [] [] []
    recover false true false false true [] 100%positive.

Definition empty_env : toy_env := mk_toy_env [] [] [] [] [] [] [].

(** ** A small instance of the registry's collaborators *)

(** Modelled from the spec: [quick_cmp] on names ([util/name.h], not in
    [src/]) is what the specification calls the lexicographic order: names
    are compared component by component from the root, a numeral before a
    string, strings by their characters, and a proper prefix comes first. *)
Definition part_cmp (a b : string + N) : comparison :=
  match a, b with
  | inl s, inl t => String.compare s t
  | inr m, inr n => N.compare m n
  | inr _, inl _ => Lt
  | inl _, inr _ => Gt
  end.

Fixpoint lex_cmp (l1 l2 : list (string + N)) : comparison :=
  match l1, l2 with
  | [], [] => Eq
  | [], _ :: _ => Lt
  | _ :: _, [] => Gt
  | x :: l1', y :: l2' =>
      match part_cmp x y with
      | Eq => lex_cmp l1' l2'
      | c => c
      end
  end.

Definition name_cmp (a b : name) : comparison :=
  lex_cmp (rev (name_parts a)) (rev (name_parts b)).

Definition lex_quick_cmp (a b : name) : Z :=
  match name_cmp a b with Lt => -1 | Eq => 0 | Gt => 1 end.

(** Modelled from the spec: the queue ranks hints by priority, the higher
    first, and insertion order breaks ties. *)
Fixpoint toy_queue_insert (h : unification_hint) (p : nat)
    (q : list (unification_hint * nat)) : list (unification_hint * nat) :=
  match q with
  | [] => [(h, p)]
  | (h', p') :: q' =>
      if (p' <? p)%nat then (h, p) :: q else (h', p') :: toy_queue_insert h p q'
  end.

(** [instantiate_rev e subst]: the loose variable [i] is the [i]-th element
    of [subst] from its end. *)
Fixpoint toy_instantiate_rev (e : expr) (subst : list expr) : expr :=
  match e with
  | Var i => nth i (rev subst) e
  | App f a => App (toy_instantiate_rev f subst) (toy_instantiate_rev a subst)
  | _ => e
  end.

Definition toy_hint_external : HintExternal := {|
  quick_cmp := lex_quick_cmp;
  unification_hint_queue := list (unification_hint * nat);
  queue_empty := [];
  queue_insert := toy_queue_insert;
  queue_to_buffer := map fst;
  tmp_type_context := nat;
  mk_tmp_type_context := fun _ => 0%nat;
  mk_tmp_mvar := fun d k => (Meta (toy_fresh_name k) d, S k);
  tmp_is_def_eq := fun _ _ k => (true, k);
  instantiate_rev := toy_instantiate_rev;
  decl_type :=
    fun env n => match toy_lookup n (te_constants env) with
                 | Some t => t
                 | None => Sort (level_succ level_zero)
                 end;
  decl_value :=
    fun env n => match toy_lookup n (te_values env) with
                 | Some v => v
                 | None => Sort (level_succ level_zero)
                 end;
  decl_is_definition :=
    fun env n => match toy_lookup n (te_values env) with Some _ => true | None => false end;
|}.

End Toy.

(** ** Terms, environments and states of the examples *)

Section ExampleData.
#[local] Existing Instance toy_carriers.

Definition ex_nat : expr := cst "nat".
Definition ex_zero : expr := cst "zero".

(** *** The monad heuristic *)

Definition ex_name : expr := cst "name".
Definition ex_unit : expr := cst "unit".
Definition ex_tactic : expr := cst "tactic".
Definition ex_solver : expr := cst "solver".
Definition ex_t1 : expr := cst "t1".
Definition ex_meta_a : expr := mvar "a" Type1.
Definition ex_meta_m : expr := mvar "m" (Pi anonymous bi_default Type1 Type1).

(** [tactic], [solver] and the metavariable [?m] are monads; there is a
    coercion from [tactic name] to [solver name]. *)
Definition monad_env : toy_env :=
  mk_toy_env []
    [ (App (cst "monad") ex_tactic, cst "tactic.monad");
      (App (cst "monad") ex_solver, cst "solver.monad");
      (App (cst "monad") ex_meta_m, cst "m.monad");
      (mk_app (cst "has_coe_t") [App ex_tactic ex_name; App ex_solver ex_name],
       cst "tactic_to_solver") ]
    [] [] [] [] [].

Definition monad_state : elab_state := toy_state monad_env [] [] false.

(** *** A chain of instances *)

(** [?i1 : inhabited nat] is ready; [?i2 : C ?i1] is ready once [?i1] is
    assigned. *)
Definition ex_i1 : expr := mvar "i1" (App (cst "inhabited") ex_nat).
Definition ex_i2 : expr := mvar "i2" (App (cst "C") ex_i1).

Definition chain_env : toy_env :=
  mk_toy_env []
    [ (App (cst "inhabited") ex_nat, cst "nat.inhabited");
      (App (cst "C") (cst "nat.inhabited"), cst "C.inst") ]
    [] [] [] [] [].

Definition chain_state : elab_state :=
  toy_state chain_env [] [(2%positive, ex_i2); (1%positive, ex_i1)] false.

(** *** A synthesized instance that differs from the inferred one *)

(** The pending metavariable [?i : inhabited nat] was assigned [other_inst]
    by unification; the class search finds [nat.inhabited]. *)
Definition ex_i : expr := mvar "i" (App (cst "inhabited") ex_nat).

Definition mismatch_env : toy_env :=
  mk_toy_env
    [ (mk_string anonymous "other_inst", App (cst "inhabited") ex_nat) ]
    [ (App (cst "inhabited") ex_nat, cst "nat.inhabited") ]
    [] [] [] [] [].

Definition mismatch_state (recover : bool) : elab_state :=
  toy_state mismatch_env [(mk_string anonymous "i", cst "other_inst")]
    [(1%positive, ex_i)] recover.

Definition ex_emptyc : expr := Macro "emptyc" [].
Definition ex_set_nat : expr := App (cst "set") ex_nat.

Definition ex_mismatch : exn :=
  elaborator_exception ex_i
    (instance_mismatch_msg 2 (cst "nat.inhabited") (cst "other_inst")).

(** *** The two-pass fallback *)

(** A first pass that unifies [?a] with [nat], records a numeral type and
    then fails; a fallback that fails or not. *)
Definition failing_first_pass (simple_fails : bool) : toy_visitors := {|
  tv_visit := fun e _ => ret e;
  tv_visit_function := fun fn _ _ => ret fn;
  tv_first_pass := fun _ _ _ ref =>
    lift_ctx (toy_is_def_eq ex_meta_a ex_nat) ;;
    modify (set_m_numeral_types [ex_meta_a]) ;;
    throw (elaborator_exception ref (fmt_text "first pass: type mismatch"));
  tv_second_pass := fun fn args _ _ => ret (mk_app fn args);
  tv_visit_base_app_simple := fun fn _ args _ _ ref =>
    if simple_fails then throw (elaborator_exception ref (fmt_text "function expected"))
    else ret (mk_app fn args);
|}.

Definition ex_f : expr := cst "f".
Definition ex_app : expr := App ex_f ex_zero.
Definition fallback_state : elab_state := toy_state empty_env [] [] true.

Definition ex_first_pass_error_at (ref : expr) : exn :=
  elaborator_exception ref (fmt_text "first pass: type mismatch").
Definition ex_first_pass_error : exn := ex_first_pass_error_at ex_app.

(** *** Two overloads *)

(** [f : nat -> nat] and [g : nat -> bool], applied to [zero] against the
    expected type [nat]: [f zero] fits, [g zero] does not and there is no
    coercion from [bool] to [nat]. *)
Definition ex_g : expr := cst "g".
Definition ex_bool : expr := cst "bool".

Definition overload_env : toy_env :=
  mk_toy_env
    [ (mk_string anonymous "f", Pi anonymous bi_default ex_nat ex_nat);
      (mk_string anonymous "g", Pi anonymous bi_default ex_nat ex_bool) ]
    [] [] [] [] [] [].

Definition overload_state : elab_state := toy_state overload_env [] [] true.
Definition ex_choice : expr := Macro "choice" [ex_f; ex_g].

(** With [g : nat -> nat] too, both candidates survive and none is chosen. *)
Definition ambiguous_env : toy_env :=
  mk_toy_env
    [ (mk_string anonymous "f", Pi anonymous bi_default ex_nat ex_nat);
      (mk_string anonymous "g", Pi anonymous bi_default ex_nat ex_nat) ]
    [] [] [] [] [] [].







(** *** The retry of overload resolution *)

Definition retry_start : elab_state := toy_state overload_env [] [] true.


(** *** An eliminator against an expected type with a metavariable *)

Definition ex_cases_on : expr := Constant (mk_string (mk_string anonymous "nat") "cases_on") [].
Definition ex_cases_on_info : elim_info := mk_elim_info 4 3 0 [1%nat].
Definition ex_goal : expr := App (cst "P") ex_meta_a.
Definition elim_state : elab_state := toy_state empty_env [] [] false.

(** [nat.cases_on : Pi {C : nat -> Type} (n : nat) (z : C zero), C n], with
    the major premise at position 1 and the motive at position 0. *)
Definition elim_env : toy_env :=
  mk_toy_env
    [ (const_name ex_cases_on,
       Pi (mk_string anonymous "C") bi_implicit (Pi anonymous bi_default ex_nat Type1)
         (Pi (mk_string anonymous "n") bi_default ex_nat
            (Pi (mk_string anonymous "z") bi_default (App (Var 1) ex_zero)
               (App (Var 2) (Var 1)))));
      (mk_string anonymous "zero", ex_nat) ]
    [] [] [] [] [] [].

(** *** Anonymous constructors *)

(** [prod] has one constructor, [nat] has two, [secret] is private. *)
Definition ctor_env : toy_env :=
  mk_toy_env
    [ (mk_string (mk_string anonymous "prod") "mk",
       Pi anonymous bi_implicit Type1
         (Pi anonymous bi_implicit Type1
            (Pi anonymous bi_default (Var 1)
               (Pi anonymous bi_default (Var 1) (cst "prod"))))) ]
    []
    [ (mk_string anonymous "prod", [mk_string (mk_string anonymous "prod") "mk"]);
      (mk_string anonymous "nat",
       [mk_string (mk_string anonymous "nat") "zero";
        mk_string (mk_string anonymous "nat") "succ"]);
      (mk_string anonymous "secret", [mk_string (mk_string anonymous "secret") "mk"]) ]
    [ mk_string anonymous "secret" ]
    [] [] [].

Definition ctor_state : elab_state := toy_state ctor_env [] [] false.
Definition ex_anonymous : expr :=
  Macro "anonymous_constructor" [mk_app (cst "_") [ex_zero; ex_t1]].

(** *** The registry of unification hints *)

(** The hint [fun n, succ n =?= add n one], with no constraint. *)
Definition ex_succ : expr := Constant (mk_string (mk_string anonymous "nat") "succ") [].
Definition ex_add : expr := Constant (mk_string (mk_string anonymous "nat") "add") [].

Definition ex_hint_value : expr :=
  Lambda (mk_string anonymous "n") bi_default ex_nat
    (mk_app (Constant get_unification_hint_mk_name [])
       [ mk_app (cst "unification_constraint.mk")
           [ex_nat; App ex_succ (Var 0); mk_app ex_add [Var 0; cst "one"]];
         mk_app (Constant get_list_nil_name []) [cst "unification_constraint"] ]).

Definition ex_hint : unification_hint :=
  mk_unification_hint (mk_app ex_add [Var 0; cst "one"]) (App ex_succ (Var 0)) [] 1.

Definition empty_registry : unification_hint_state (H := toy_hint_external) :=
  mk_unification_hint_state (H := toy_hint_external) ∅ ∅.

(** The registry after the registration of the hint. *)
Definition ex_registry : gmap name_pair (list (unification_hint * nat)) :=
  match register_hint (H := toy_hint_external) empty_env (mk_string anonymous "succ_add_hint")
          ex_hint_value 1000 empty_registry with
  | Val _ st' | Exc _ st' => m_hints st'
  end.

End ExampleData.

(** ** A small instance of the further collaborators *)

Section FurtherToy.
#[local] Existing Instance toy_carriers.

Definition macro_is (tag : string) (e : expr) : bool :=
  match e with Macro t _ => String.eqb t tag | _ => false end.

Definition macro_arg_or (e : expr) (i : nat) : expr :=
  match e with Macro _ args => nth i args e | _ => e end.

Definition toy_declared (env : toy_env) (n : name) : bool :=
  match toy_lookup n (te_constants env) with Some _ => true | None => false end.

Definition toy_coercion_external : CoercionExternal := {|
  ab_mk_app_mask := fun n _ args => ret (mk_app (mk_constant n) args);
|}.

(** The comparisons go by the number of arguments of the terms. *)
Definition toy_num_args (e : expr) : Z := Z.of_nat (List.length (get_app_rev_args e)).

Definition toy_hint_order_external : HintOrderExternal := {|
  expr_neq := fun a b => negb (expr_eqb a b);
  expr_quick_cmp := fun a b => toy_num_args a - toy_num_args b;
  expr_pair_quick_cmp := fun p q => toy_num_args (fst p) - toy_num_args (fst q);
  name_to_string := fun n => match n with mk_string _ s => s | _ => EmptyString end;
|}.

(** A pre-numeral is a macro over the bound variable of its value. *)
Definition toy_numeral_external : NumeralExternal := {|
  lean_dec_level := fun l => match l with level_succ l' => Some l' | _ => None end;
  tc_is_def_eq_level := fun _ _ => ret true;
  prenum_value := fun e => match e with Macro _ [Var n] => Z.of_nat n | _ => -1 end;
|}.

(** Every declared constant has one universe parameter, every inductive
    type one parameter and no index. *)
Definition toy_head_external : HeadExternal := {|
  level_replace :=
    fun f l => let* r := f l in ret (match r with Some l' => l' | None => l end);
  is_placeholder_level := fun l => match l with level_param anonymous => true | _ => false end;
  is_one_placeholder := fun _ => false;
  is_placeholder := macro_is "placeholder";
  is_field_notation := macro_is "field";
  get_num_univ_params :=
    fun env n => if toy_declared env n then inr 1%nat
                 else inl (lean_exception generic_exception "unknown declaration");
  visit_macro := fun e _ _ => ret e;
  visit_lambda := fun e _ => ret e;
  visit_let := fun e _ => ret e;
  save_identifier_info := fun _ => ret tt;
  ensure_no_unassigned_metavars := fun e => ret e;
  inductive_num_params :=
    fun env n => match toy_lookup n (te_inductives env) with Some _ => 1%nat | None => 0%nat end;
  inductive_num_indices := fun _ _ => 0%nat;
|}.

Fixpoint toy_intro_rule (n : name) (inductives : list (name * list name)) : option name :=
  match inductives with
  | [] => None
  | (I_name, cs) :: rest => if toy_mem n cs then Some I_name else toy_intro_rule n rest
  end.

Definition toy_pattern_external : PatternExternal := {|
  is_intro_rule := fun env n => toy_intro_rule n (te_inductives env);
  is_inaccessible := macro_is "inaccessible";
  mk_inaccessible := fun e => Macro "inaccessible" [e];
  get_annotation_arg := fun e => macro_arg_or e 0;
|}.

Fixpoint toy_name_append (n1 n2 : name) : name :=
  match n2 with
  | anonymous => n1
  | mk_string p s => mk_string (toy_name_append n1 p) s
  | mk_numeral p k => mk_numeral (toy_name_append n1 p) k
  end.

(** A field notation is a macro over the structure and the field: a bound
    variable for an index, a constant for a name.  The fields of a
    structure are listed where the constructors of an inductive type
    are. *)
Definition toy_field_external : FieldExternal := {|
  is_anonymous_field_notation :=
    fun e => match macro_arg_or e 1 with Var _ => true | _ => false end;
  get_field_notation_field_idx :=
    fun e => match macro_arg_or e 1 with Var n => n | _ => 0%nat end;
  get_field_notation_field_name := fun e => const_name (macro_arg_or e 1);
  get_structure_fields :=
    fun env n => match toy_lookup n (te_inductives env) with Some l => l | None => [] end;
  env_find := toy_declared;
  name_append := toy_name_append;
  unfold_term := fun _ _ => None;
  tc_whnf_head_pred_macro := fun e => ret e;
  expr_eq := expr_eqb;
  head_beta_reduce := fun e => e;
  macro_arg := macro_arg_or;
|}.

Definition toy_equation_external : EquationExternal := {|
  is_equation := macro_is "equation";
  is_no_equation := macro_is "no_equation";
  equation_lhs := fun e => macro_arg_or e 0;
|}.

Definition toy_application_external : ApplicationExternal := {|
  is_as_is := macro_is "as_is";
  get_as_is_arg := fun e => macro_arg_or e 0;
  expr_to_string := fun _ => None;
  mk_by := fun e => Macro "by" [e];
  mk_tactic_unit := App (cst "tactic") (cst "unit");
  env_find_type := fun env n => toy_lookup n (te_constants env);
  name_string := fun n => match n with mk_string _ s => s | _ => EmptyString end;
  mk_fresh_name := ret (mk_string anonymous "_fresh");
  Pi_locals := fun locals e => fold_right (fun l b => Pi anonymous bi_default l b) e locals;
  Fun_locals := fun locals e => fold_right (fun l b => Lambda anonymous bi_default l b) e locals;
  get_pos_info := fun _ => true;
|}.

Definition toy_sanitize_external : SanitizeExternal := {|
  name_append_after := fun n i => mk_numeral n (N.of_nat i);
  universe_string := fun n => match n with mk_numeral (mk_string _ s) _ => s | _ => EmptyString end;
|}.

(** No local declaration and no alias; the namespace [nat] is open. *)
Definition toy_resolve_external : ResolveExternal := {|
  find_local_ref := fun _ _ => None;
  get_local_ref := fun _ _ => None;
  replace_expr := fun f e => match f e with Some r => r | None => e end;
  get_namespaces := fun _ => [mk_string anonymous "nat"];
  is_protected := fun _ _ => false;
  remove_root_prefix := fun n => n;
  get_expr_aliases := fun _ _ => [];
  mk_choice := fun l => Macro "choice" l;
  is_choice := macro_is "choice";
  get_choices := fun e => match e with Macro _ l => l | _ => [] end;
|}.

End FurtherToy.

(** ** Terms, environments and states of the further examples *)

Section FurtherExampleData.
#[local] Existing Instance toy_carriers.

(** *** A coercion to a function *)

(** [coe_fn] applied to a type and a term has a function type. *)
Definition coe_env : toy_env :=
  mk_toy_env
    [ (get_coe_fn_name,
       Pi anonymous bi_default Type1
         (Pi anonymous bi_default Type1 (Pi anonymous bi_default ex_nat ex_nat))) ]
    [] [] [] [] [] [].

Definition coe_state : elab_state := toy_state coe_env [] [] false.

(** *** A type headed by a metavariable *)

(** [T : ?m nat]: the type of [T] is no metavariable, its head is. *)
Definition applied_meta_env : toy_env :=
  mk_toy_env [ (mk_string anonymous "T", App ex_meta_m ex_nat) ] [] [] [] [] [] [].

Definition applied_meta_state : elab_state := toy_state applied_meta_env [] [] false.

(** [applied_meta_state] once a metavariable was made. *)
Definition applied_meta_state_after : elab_state :=
  mk_elab_state applied_meta_env 2%nat
    (mk_type_context [] tt false false (applied_meta_env, 1%nat)) tt [] [] [] []
    false false true false false true [] 100%positive.

(** *** Numerals *)

Definition ex_prenum (n : nat) : expr := Macro "prenum" [Var n].

(** *** Constants *)

Definition ex_const_f : expr := Constant (mk_string anonymous "f") [].

(** *** Field notation *)

(** [p : point], and [point.x] is declared. *)
Definition ex_point : expr := cst "point".
Definition ex_p : expr := cst "p".
Definition point_x : name := mk_string (mk_string anonymous "point") "x".

Definition field_env : toy_env :=
  mk_toy_env
    [ (mk_string anonymous "p", ex_point);
      (point_x, Pi anonymous bi_default ex_point ex_nat) ]
    [] [ (mk_string anonymous "point", [point_x]) ] [] [mk_string anonymous "point"] [] [].

Definition field_state : elab_state := toy_state field_env [] [] false.

(** [p^.x] and [p^.1], [p^.2] *)
Definition ex_field_x : expr := Macro "field" [ex_p; Constant (mk_string anonymous "x") []].
Definition ex_field_idx (i : nat) : expr := Macro "field" [ex_p; Var i].

(** *** Equations *)

Definition ex_lam (b : expr) : expr := Lambda (mk_string anonymous "f") bi_default ex_nat b.

(** [f x = ...] and [f x y = ...] under the binder of [f] *)
Definition ex_eqn1 : expr := ex_lam (Macro "equation" [App (Var 0) ex_zero; ex_zero]).
Definition ex_eqn2 : expr :=
  ex_lam (Macro "equation" [mk_app (Var 0) [ex_zero; ex_zero]; ex_zero]).

(** *** Patterns *)

(** [list] has one parameter; [list.cons] is a constructor. *)
Definition list_cons : name := mk_string (mk_string anonymous "list") "cons".
Definition list_env : toy_env :=
  mk_toy_env [] [] [ (mk_string anonymous "list", [list_cons]) ] [] [] [] [].

Definition ex_cons (A x xs : expr) : expr := mk_app (Constant list_cons []) [A; x; xs].

(** *** Applications *)

Definition app_state : elab_state := toy_state overload_env [] [] false.

(** *** Universe parameters *)

Definition ex_u (i : nat) : name := mk_numeral (mk_string anonymous "u") (N.of_nat i).

Definition ex_sanitize_state : sanitize_state :=
  mk_sanitize_state {[ ex_u 1; ex_u 2 ]} ∅ ∅ 1 [] false.

(** *** Choices *)

Definition ex_h : expr := cst "h".
Definition ex_nested_choice : expr :=
  Macro "choice" [ex_f; ex_g; Macro "choice" [ex_g; ex_h]].

(** [returns o]: the outcome [o] is a value, not an exception. *)
Definition returns {S A} (o : outcome S A) : bool :=
  match o with Val _ _ => true | Exc _ _ => false end.

(** *** The instances the further examples run on *)

Definition plain_external : External := toy_external plain_visitors.

(** [has_zero nat], [has_one nat] and [has_add nat] at the universe level
    zero have instances. *)
Definition numeral_env : toy_env :=
  mk_toy_env []
    [ (App (Constant get_has_zero_name [level_zero]) ex_nat, cst "nat.has_zero");
      (App (Constant get_has_one_name [level_zero]) ex_nat, cst "nat.has_one");
      (App (Constant get_has_add_name [level_zero]) ex_nat, cst "nat.has_add") ]
    [] [] [] [] [].

Definition numeral_state : elab_state := toy_state numeral_env [] [] false.

End FurtherExampleData.

(** * Properties *)

Section Properties.
Context {C : Carriers} {X : External}.

Ltac unfold_monad :=
  unfold bind, ret, throw, gets, get, modify, try_catch, finally, lift_ctx in *.

(** ** Coercion insertion *)

(** [is_def_eq] answers what the checker answers in approximate mode, and
    leaves the approximate flag as it found it. *)
Lemma is_def_eq_checker (e1 e2 : expr) (s : elab_state) (b : bool) (c' : type_context) :
  tc_is_def_eq e1 e2 (set_approximate true (m_ctx s)) = Val b c' ->
  is_def_eq e1 e2 s = Val b (set_m_ctx (set_approximate (tc_approximate (m_ctx s)) c') s).
Proof.
  intros Hc. unfold is_def_eq. unfold_monad. cbn. rewrite Hc. reflexivity.
Qed.

(** C2.  Coercion reflexivity: when the checker's definitional-equality test
    of [T] against [T] succeeds, [ensure_has_type e T T] returns [e] itself,
    with no coercion wrapped around it; only the checker's own state
    changes. *)
Theorem ensure_has_type_reflexive (e T ref : expr) (s : elab_state) (c' : type_context) :
  tc_is_def_eq T T (set_approximate true (m_ctx s)) = Val true c' ->
  ensure_has_type e T T ref s
  = Val (Some e) (set_m_ctx (set_approximate (tc_approximate (m_ctx s)) c') s).
Proof.
  intros Hc. unfold ensure_has_type, bind.
  rewrite (is_def_eq_checker T T s true c' Hc). reflexivity.
Qed.

(** [mk_coercion] with metavariables left in one of the types: the monad
    heuristic decides. *)
Lemma mk_coercion_with_metavars (e e_type type ref : expr) (s s1 s2 : elab_state)
    (e_type' type' : expr) :
  m_coercions s = true ->
  instantiate_mvars e_type s = Val e_type' s1 ->
  instantiate_mvars type s1 = Val type' s2 ->
  has_expr_metavar e_type' || has_expr_metavar type' = true ->
  mk_coercion e e_type type ref s = try_monad_coercion e e_type' type' ref s2.
Proof.
  intros Hco He Ht Hm. unfold mk_coercion. unfold bind at 1. unfold gets. rewrite Hco. cbn.
  unfold bind at 1. rewrite He. unfold bind at 1. rewrite Ht.
  destruct (has_expr_metavar e_type'), (has_expr_metavar type'); try discriminate; cbn;
    unfold bind; destruct (try_monad_coercion e e_type' type' ref s2) as [[r|] s'|ex s'];
    reflexivity.
Qed.

(** C5 (amended).  With coercions enabled and exactly one of the two
    instantiated types containing metavariables:
    - no coercion is inserted when one of the types is no application, when
      the function part of one of them contains a metavariable, or when
      neither of the two arguments is itself a metavariable;
    - a coercion is inserted only if both function parts are free of
      metavariables and are monads, one of the two arguments is a
      metavariable and the checker unifies the two arguments; with the
      metavariables in the expected type it is then the one the general
      coercion search finds for the inferred type and the expected type
      instantiated again;
    - and when those tests pass with the metavariables in the expected
      type, the result is that of the general search on the inferred type
      and the expected type instantiated again. *)
Theorem mk_coercion_monad_heuristic (e e_type type ref : expr) (s s1 s2 : elab_state)
    (e_type' type' : expr) :
  m_coercions s = true ->
  instantiate_mvars e_type s = Val e_type' s1 ->
  instantiate_mvars type s1 = Val type' s2 ->
  has_expr_metavar e_type' <> has_expr_metavar type' ->
  (is_app e_type' = false \/ is_app type' = false
   \/ has_expr_metavar (app_fn e_type') = true \/ has_expr_metavar (app_fn type') = true
   \/ (is_metavar (app_arg e_type') = false /\ is_metavar (app_arg type') = false) ->
   mk_coercion e e_type type ref s = Val None s2)
  /\ (forall r s',
        mk_coercion e e_type type ref s = Val (Some r) s' ->
        is_app e_type' = true /\ is_app type' = true
        /\ has_expr_metavar (app_fn e_type') = false
        /\ has_expr_metavar (app_fn type') = false
        /\ is_metavar (app_arg e_type') || is_metavar (app_arg type') = true
        /\ exists s3 s4 s5,
             is_monad (app_fn e_type') s2 = Val true s3
             /\ is_monad (app_fn type') s3 = Val true s4
             /\ lift_ctx (tc_is_def_eq (app_arg e_type') (app_arg type')) s4 = Val true s5
             /\ (has_expr_metavar e_type' = false ->
                 exists type'' s6,
                   instantiate_mvars type' s5 = Val type'' s6
                   /\ mk_coercion_core e e_type' type'' ref s6 = Val (Some r) s'))
  /\ (forall s3 s4 s5 type'' s6,
        has_expr_metavar e_type' = false ->
        is_app e_type' = true -> is_app type' = true ->
        has_expr_metavar (app_fn e_type') = false ->
        has_expr_metavar (app_fn type') = false ->
        is_metavar (app_arg e_type') || is_metavar (app_arg type') = true ->
        is_monad (app_fn e_type') s2 = Val true s3 ->
        is_monad (app_fn type') s3 = Val true s4 ->
        lift_ctx (tc_is_def_eq (app_arg e_type') (app_arg type')) s4 = Val true s5 ->
        instantiate_mvars type' s5 = Val type'' s6 ->
        mk_coercion e e_type type ref s = mk_coercion_core e e_type' type'' ref s6).
Proof.
  intros Hco He Ht Hx.
  assert (Hm : has_expr_metavar e_type' || has_expr_metavar type' = true).
  { destruct (has_expr_metavar e_type'), (has_expr_metavar type'); auto; congruence. }
  rewrite (mk_coercion_with_metavars e e_type type ref s s1 s2 e_type' type' Hco He Ht Hm).
  assert (Hone : has_expr_metavar e_type' && has_expr_metavar type' = false
                 /\ negb (has_expr_metavar e_type') && negb (has_expr_metavar type') = false).
  { destruct (has_expr_metavar e_type'), (has_expr_metavar type'); auto; congruence. }
  destruct Hone as [Hone1 Hone2].
  unfold try_monad_coercion, monad_coercion_shape_excluded. rewrite Hone1, Hone2. cbn [orb].
  split; [|split].
  - intros Hshape.
    destruct (is_app e_type'); [|reflexivity].
    destruct (is_app type'); [|reflexivity].
    destruct (has_expr_metavar (app_fn type')); [reflexivity|].
    destruct (has_expr_metavar (app_fn e_type')); [reflexivity|].
    destruct (is_metavar (app_arg e_type')), (is_metavar (app_arg type')); cbn;
      try reflexivity; destruct Hshape as [?|[?|[?|[?|[? ?]]]]]; discriminate.
  - intros r s' Hr.
    destruct (is_app e_type'); [|discriminate].
    destruct (is_app type'); [|discriminate].
    destruct (has_expr_metavar (app_fn type')); [discriminate|].
    destruct (has_expr_metavar (app_fn e_type')); [discriminate|].
    destruct (is_metavar (app_arg e_type') || is_metavar (app_arg type')) eqn:Harg.
    2:{ apply orb_false_elim in Harg as [Ha Hb]. rewrite Ha, Hb in Hr. discriminate. }
    assert (Hneg : negb (is_metavar (app_arg e_type')) && negb (is_metavar (app_arg type'))
                   = false).
    { destruct (is_metavar (app_arg e_type')), (is_metavar (app_arg type'));
        auto; discriminate. }
    rewrite Hneg in Hr. cbn in Hr. unfold bind in Hr.
    destruct (is_monad (app_fn e_type') s2) as [[|] s3|] eqn:Hm1; try discriminate.
    cbn in Hr.
    destruct (is_monad (app_fn type') s3) as [[|] s4|] eqn:Hm2; try discriminate.
    cbn in Hr.
    destruct (lift_ctx (tc_is_def_eq (app_arg e_type') (app_arg type')) s4)
      as [[|] s5|] eqn:Hd; try discriminate.
    cbn in Hr.
    destruct (instantiate_mvars type' s5) as [type'' s6|] eqn:Hi; try discriminate.
    repeat split; auto. exists s3, s4, s5.
    split; [reflexivity|]. split; [exact Hm2|]. split; [exact Hd|].
    intros _. exists type'', s6. auto.
  - intros s3 s4 s5 type'' s6 _ -> -> -> -> Harg Hm1 Hm2 Hd Hi.
    assert (Hneg : negb (is_metavar (app_arg e_type')) && negb (is_metavar (app_arg type'))
                   = false).
    { destruct (is_metavar (app_arg e_type')), (is_metavar (app_arg type'));
        auto; discriminate. }
    rewrite Hneg. cbn. unfold bind. rewrite Hm1. cbn. rewrite Hm2. cbn. rewrite Hd. cbn.
    rewrite Hi. reflexivity.
Qed.

(** The comment above [try_monad_coercion] gives [tactic ?a ===> smt_tactic
    unit] as a case it handles.  After the two arguments are unified only
    [type] is instantiated again, and [mk_coercion_core] searches only
    between types free of metavariables: with a metavariable in the
    instantiated inferred type no coercion is ever returned. *)
Lemma mk_coercion_core_inferred_metavar (e e_type type ref : expr) (s : elab_state) :
  has_expr_metavar e_type = true ->
  mk_coercion_core e e_type type ref s = Val None s.
Proof.
  intros Hm. unfold mk_coercion_core.
  assert (Hp : is_Prop_expr e_type = false).
  { destruct e_type as [| [] | | | | | | | |]; try reflexivity; discriminate. }
  rewrite Hp, Hm. reflexivity.
Qed.

Lemma mk_coercion_inferred_metavar (e e_type type ref : expr) (s s1 : elab_state)
    (e_type' : expr) :
  instantiate_mvars e_type s = Val e_type' s1 ->
  has_expr_metavar e_type' = true ->
  forall r s', mk_coercion e e_type type ref s <> Val (Some r) s'.
Proof.
  intros He Hm r s'. unfold mk_coercion. unfold bind at 1. unfold gets.
  destruct (m_coercions s); cbn [negb]; [|discriminate].
  unfold bind at 1. rewrite He. unfold bind at 1.
  destruct (instantiate_mvars type s1) as [type' s2|]; [|discriminate].
  rewrite Hm. cbn [negb andb].
  unfold try_monad_coercion.
  destruct (monad_coercion_shape_excluded e_type' type'); [discriminate|].
  unfold bind.
  destruct (is_monad (app_fn e_type') s2) as [[|] s3|]; try discriminate. cbn.
  destruct (is_monad (app_fn type') s3) as [[|] s4|]; try discriminate. cbn.
  destruct (lift_ctx (tc_is_def_eq (app_arg e_type') (app_arg type')) s4) as [[|] s5|];
    try discriminate. cbn.
  destruct (instantiate_mvars type' s5) as [type'' s6|]; [|discriminate].
  rewrite (mk_coercion_core_inferred_metavar e e_type' type'' ref s6 Hm). discriminate.
Qed.

(** ** The worklist of type-class instances *)

Lemma ready_args_out_params (it : expr) (C_args : list expr) :
  ready_args it C_args = true ->
  forall i arg,
    nth_error C_args i = Some arg ->
    exists d, nth_binding_domain it i = Some d
              /\ (has_expr_metavar arg = true -> is_class_out_param d = true).
Proof.
  revert it. induction C_args as [|a rest IH]; intros it Hr i arg Hn.
  - destruct i; discriminate.
  - cbn in Hr. destruct (is_pi it) eqn:Hpi; cbn in Hr; [|discriminate].
    destruct (has_expr_metavar a && negb (is_class_out_param (binding_domain it))) eqn:Hc;
      [discriminate|].
    destruct i as [|i].
    + cbn in Hn. injection Hn as <-. exists (binding_domain it).
      destruct it; try discriminate; cbn; split; auto; intros Ha;
        rewrite Ha in Hc; cbn in Hc; destruct (is_class_out_param _); auto; discriminate.
    + cbn in Hn. destruct (IH _ Hr i arg Hn) as [d [Hd Ho]].
      exists d. split; auto. destruct it; try discriminate; cbn in *; auto.
Qed.

(** Calls into the checker touch [m_ctx] only. *)
Lemma lift_ctx_instances {A} (m : M type_context A) (s : elab_state) (a : A) (s' : elab_state) :
  lift_ctx m s = Val a s' -> m_instances s' = m_instances s.
Proof.
  unfold lift_ctx. destruct (m (m_ctx s)); intros Heq; inversion Heq; reflexivity.
Qed.

Lemma ready_to_synthesize_instances (t : expr) (s : elab_state) (b : bool) (s' : elab_state) :
  ready_to_synthesize t s = Val b s' -> m_instances s' = m_instances s.
Proof.
  unfold ready_to_synthesize.
  destruct (negb (has_expr_metavar t)); [intros Heq; inversion Heq; reflexivity|].
  destruct (negb (is_constant _)); [intros Heq; inversion Heq; reflexivity|].
  unfold bind. destruct (lift_ctx _ s) as [it s1|] eqn:Hl; [|discriminate].
  intros Heq. inversion Heq; subst. eapply lift_ctx_instances; eauto.
Qed.

(** What the scan of a step computes: nothing is lost, the pending list is
    not touched, and what it hands over for synthesis passed the readiness
    test. *)
Lemma scan_instances_spec (mvars to_keep : list expr) (to_process : list (expr * expr * expr))
    (s : elab_state) (k : list expr) (p : list (expr * expr * expr)) (s' : elab_state) :
  scan_instances mvars to_keep to_process s = Val (k, p) s' ->
  (List.length k + List.length p = List.length mvars + List.length to_keep + List.length to_process)%nat
  /\ m_instances s' = m_instances s
  /\ (exists p', p = to_process ++ p'
        /\ Forall (fun x => exists s1 s2,
                     ready_to_synthesize (snd x) s1 = Val true s2) p').
Proof.
  revert to_keep to_process s. induction mvars as [|m rest IH]; intros to_keep to_process s Hs.
  - cbn in Hs. unfold ret in Hs. inversion Hs; subst. cbn. split; [lia|]. split; [reflexivity|].
    exists []. rewrite app_nil_r. auto.
  - cbn in Hs. unfold bind in Hs.
    destruct (instantiate_mvars m s) as [inst s1|] eqn:H1; [|discriminate].
    destruct (infer_type inst s1) as [t s2|] eqn:H2; [|discriminate].
    destruct (instantiate_mvars t s2) as [inst_type s3|] eqn:H3; [|discriminate].
    destruct (ready_to_synthesize inst_type s3) as [ready s4|] eqn:H4; [|discriminate].
    assert (Hi : m_instances s4 = m_instances s).
    { rewrite (ready_to_synthesize_instances _ _ _ _ H4).
      rewrite (lift_ctx_instances _ _ _ _ H3), (lift_ctx_instances _ _ _ _ H2).
      apply (lift_ctx_instances _ _ _ _ H1). }
    destruct ready; cbn in Hs; apply IH in Hs as (Hlen & Hinst & p' & Hp & Hall).
    + rewrite length_app in Hlen. cbn in Hlen. cbn. split; [lia|].
      split; [rewrite Hinst; exact Hi|].
      exists ((m, inst, inst_type) :: p'). rewrite <- app_assoc in Hp. split; auto.
      constructor; auto. cbn. eauto.
    + rewrite length_app in Hlen. cbn in Hlen. cbn. split; [lia|].
      split; [rewrite Hinst; exact Hi|].
      exists p'. auto.
Qed.

Lemma to_list_spec (buf : list expr) (s : elab_state) :
  exists l s', to_list buf s = Val l s' /\ elems l = buf.
Proof.
  induction buf as [|x buf IH]; cbn.
  - eexists _, _. split; reflexivity.
  - destruct IH as (l & s' & Hl & He). unfold bind, cons_list, alloc_cell. rewrite Hl. cbn.
    eexists _, _. split; [reflexivity|]. rewrite <- He. reflexivity.
Qed.

Lemma length_elems (l : plist) : List.length (elems l) = List.length l.
Proof. apply length_map. Qed.

(** A step that returns either leaves the pending list as it is, the very
    same object, or makes it shorter. *)
Lemma step_instances (s s' : elab_state) :
  synthesize_type_class_instances_step s = Val tt s' ->
  m_instances s' = m_instances s
  \/ (List.length (m_instances s') < List.length (m_instances s))%nat.
Proof.
  unfold synthesize_type_class_instances_step. unfold bind at 1. unfold gets.
  unfold bind at 1.
  destruct (scan_instances (elems (m_instances s)) [] [] s) as [[k p] s1|] eqn:Hscan;
    [|discriminate].
  apply scan_instances_spec in Hscan as (Hlen & Hinst & _).
  destruct p as [|x p].
  - intros Heq. inversion Heq; subst. left. exact Hinst.
  - unfold bind. destruct (forM_ _ (x :: p) s1) as [[] s2|]; [|discriminate].
    destruct (to_list_spec k s2) as (l & s3 & Hl & He). rewrite Hl.
    unfold modify. intros [= <-]. right. cbn.
    rewrite <- (length_elems l), He. rewrite length_elems in Hlen. cbn in Hlen. lia.
Qed.

Lemma is_eqp_refl (l : plist) : is_eqp l l = true.
Proof. unfold is_eqp. apply bool_decide_eq_true. reflexivity. Qed.

Lemma synthesize_type_class_instances_loop_unfold (fuel : nat) (s : elab_state) :
  synthesize_type_class_instances_loop (S fuel) s
  = match synthesize_type_class_instances_step s with
    | Exc e s' => Some (Exc e s')
    | Val _ s' =>
        if is_eqp (m_instances s) (m_instances s') then Some (Val tt s')
        else synthesize_type_class_instances_loop fuel s'
    end.
Proof. reflexivity. Qed.

(** One round more than there are pending instances is enough fuel. *)
Lemma synthesize_type_class_instances_loop_terminates (fuel : nat) (s : elab_state) :
  (List.length (m_instances s) < fuel)%nat ->
  exists r, synthesize_type_class_instances_loop fuel s = Some r.
Proof.
  revert s. induction fuel as [|fuel IH]; intros s Hlt; [lia|].
  rewrite synthesize_type_class_instances_loop_unfold. destruct (synthesize_type_class_instances_step s) as [[] s'|ex s'] eqn:Hstep;
    [|eauto].
  destruct (step_instances _ _ Hstep) as [Heq|Hshorter].
  - rewrite Heq, is_eqp_refl. eauto.
  - destruct (is_eqp _ _); [eauto|]. apply IH. lia.
Qed.

(** The loop returns where a step left the pending list identical. *)
Lemma synthesize_type_class_instances_loop_exit (fuel : nat) (s s' : elab_state) :
  synthesize_type_class_instances_loop fuel s = Some (Val tt s') ->
  exists s_prev,
    synthesize_type_class_instances_step s_prev = Val tt s'
    /\ is_eqp (m_instances s_prev) (m_instances s') = true.
Proof.
  revert s. induction fuel as [|fuel IH]; intros s; [discriminate|].
  rewrite synthesize_type_class_instances_loop_unfold.
  destruct (synthesize_type_class_instances_step s) as [[] s1|ex s1] eqn:Hstep;
    [|discriminate].
  destruct (is_eqp (m_instances s) (m_instances s1)) eqn:Heq.
  - intros Hr. inversion Hr; subst. eauto.
  - apply IH.
Qed.

Lemma synthesize_core_ready (mvar inferred_inst inst_type : expr) (s s' : elab_state) :
  synthesize_type_class_instance_core mvar inferred_inst inst_type s = Val true s' ->
  exists s1, ready_to_synthesize inst_type s = Val true s1.
Proof.
  unfold synthesize_type_class_instance_core. unfold bind at 1.
  destruct (ready_to_synthesize inst_type s) as [[|] s1|]; try discriminate; eauto.
Qed.

(** C4.  The worklist of type-class instances.
    - An instance is synthesized only when its type is ready:
      [synthesize_type_class_instance_core] returns [true] only after
      [ready_to_synthesize] did, and returns [false], having done nothing
      more than the test, when it did not.
    - Ready means: no expression metavariable in the type, or the head of
      the class application under the binders is a constant and every
      argument with a metavariable stands where the type of the class has an
      output parameter.
    - The loop of [synthesize_type_class_instances] runs the step again and
      again and returns exactly when the pending list after a step is the
      list before it, by the address of its head cell ([is_eqp]).
    - The loop terminates: one round more than there are pending instances
      is enough, whatever they depend on. *)
Theorem instance_worklist :
  (forall mvar inferred_inst inst_type s s',
      synthesize_type_class_instance_core mvar inferred_inst inst_type s = Val true s' ->
      exists s1, ready_to_synthesize inst_type s = Val true s1)
  /\ (forall mvar inferred_inst inst_type s s1,
        ready_to_synthesize inst_type s = Val false s1 ->
        synthesize_type_class_instance_core mvar inferred_inst inst_type s = Val false s1)
  /\ (forall inst_type s s1,
        ready_to_synthesize inst_type s = Val true s1 ->
        has_expr_metavar inst_type = false
        \/ exists it,
             is_constant (get_app_fn (strip_pis inst_type)) = true
             /\ infer_type (get_app_fn (strip_pis inst_type)) s = Val it s1
             /\ forall i arg,
                  nth_error (get_app_args (strip_pis inst_type)) i = Some arg ->
                  has_expr_metavar arg = true ->
                  exists d, nth_binding_domain it i = Some d /\ is_class_out_param d = true)
  /\ (forall fuel s s1,
        synthesize_type_class_instances_step s = Val tt s1 ->
        is_eqp (m_instances s) (m_instances s1) = true ->
        synthesize_type_class_instances_loop (S fuel) s = Some (Val tt s1))
  /\ (forall fuel s s1,
        synthesize_type_class_instances_step s = Val tt s1 ->
        is_eqp (m_instances s) (m_instances s1) = false ->
        synthesize_type_class_instances_loop (S fuel) s
        = synthesize_type_class_instances_loop fuel s1)
  /\ (forall fuel s s',
        synthesize_type_class_instances_loop fuel s = Some (Val tt s') ->
        exists s_prev,
          synthesize_type_class_instances_step s_prev = Val tt s'
          /\ is_eqp (m_instances s_prev) (m_instances s') = true)
  /\ (forall l1 l2 : plist, is_eqp l1 l2 = true <-> plist_ptr l1 = plist_ptr l2)
  /\ (forall s,
        exists r,
          synthesize_type_class_instances_loop (S (List.length (m_instances s))) s = Some r
          /\ synthesize_type_class_instances s = r).
Proof.
  split; [exact synthesize_core_ready|].
  split.
  { intros mvar inferred_inst inst_type s s1 Hr.
    unfold synthesize_type_class_instance_core. unfold bind at 1. rewrite Hr. reflexivity. }
  split.
  { intros inst_type s s1. unfold ready_to_synthesize.
    destruct (has_expr_metavar inst_type) eqn:Hm; cbn [negb]; [|auto].
    destruct (is_constant (get_app_fn (strip_pis inst_type))) eqn:Hc; cbn [negb];
      [|discriminate].
    unfold bind. fold (infer_type (get_app_fn (strip_pis inst_type))).
    destruct (infer_type (get_app_fn (strip_pis inst_type)) s) as [it s2|] eqn:Hi;
      [|discriminate].
    unfold ret. intros [= Hargs <-]. right. exists it. split; [reflexivity|].
    split; [reflexivity|].
    intros i arg Hn Ha. destruct (ready_args_out_params _ _ Hargs i arg Hn) as (d & Hd & Ho).
    exists d. auto. }
  split.
  { intros fuel s s1 Hs He. rewrite synthesize_type_class_instances_loop_unfold, Hs, He.
    reflexivity. }
  split.
  { intros fuel s s1 Hs He. rewrite synthesize_type_class_instances_loop_unfold, Hs, He.
    reflexivity. }
  split; [exact synthesize_type_class_instances_loop_exit|].
  split.
  { intros l1 l2. unfold is_eqp. apply bool_decide_eq_true. }
  intros s.
  destruct (synthesize_type_class_instances_loop_terminates
              (S (List.length (m_instances s))) s) as [r Hr]; [lia|].
  exists r. split; [exact Hr|]. unfold synthesize_type_class_instances. rewrite Hr. reflexivity.
Qed.

(** ** Errors of instance synthesis and recovery *)

Lemma is_def_eq_only_ctx (e1 e2 : expr) (s : elab_state) (b : bool) (s' : elab_state) :
  is_def_eq e1 e2 s = Val b s' -> exists c, s' = set_m_ctx c s.
Proof.
  unfold is_def_eq. unfold_monad. cbn.
  destruct (tc_is_def_eq e1 e2 (set_approximate true (m_ctx s))) as [b' c|ex c].
  - intros [= <- <-]. eexists. reflexivity.
  - destruct (is_lean_exception ex); [|discriminate]. intros [= <- <-]. eexists. reflexivity.
Qed.

Lemma synthesize_type_class_instances_raises (s : elab_state) (ex : exn) (s' : elab_state) :
  synthesize_type_class_instances_step s = Exc ex s' ->
  synthesize_type_class_instances s = Exc ex s'.
Proof.
  intros Hs. unfold synthesize_type_class_instances.
  rewrite synthesize_type_class_instances_loop_unfold, Hs. reflexivity.
Qed.

(** C6 (amended).  When the synthesized instance is not definitionally
    equal to the inferred one,
    - [synthesize_type_class_instance_core] throws, whatever
      [m_recover_from_errors] says: nothing is reported and no placeholder
      is made there;
    - [synthesize_type_class_instances] passes on what a step throws;
    - a visitor's [recover_expr_from_exception] treats the exception like
      any other: it is thrown again when recovery is off or no position
      information is available, and otherwise it is reported and the visited
      term is replaced by a placeholder of the expected type. *)
Theorem instance_mismatch_error :
  (forall mvar inferred_inst inst_type s s1 synthesized s2 s3,
      ready_to_synthesize inst_type s = Val true s1 ->
      mk_instance_core (get_decl_context (tc_mctx (m_ctx s1)) mvar) inst_type mvar s1
      = Val synthesized s2 ->
      is_def_eq inferred_inst synthesized s2 = Val false s3 ->
      synthesize_type_class_instance_core mvar inferred_inst inst_type s
      = Exc (elaborator_exception mvar
               (instance_mismatch_msg (get_pp_indent (m_opts s3)) synthesized inferred_inst))
            s3
      /\ m_has_errors s3 = m_has_errors s2
      /\ reported s3 = reported s2)
  /\ (forall s ex s',
        synthesize_type_class_instances_step s = Exc ex s' ->
        synthesize_type_class_instances s = Exc ex s')
  /\ (forall expected_type ref fn s ex s',
        fn s = Exc ex s' ->
        (m_recover_from_errors s' && pos_info_provider s' = false ->
         recover_expr_from_exception expected_type ref fn s = Exc ex s')
        /\ (m_recover_from_errors s' && pos_info_provider s' = true ->
            recover_expr_from_exception expected_type ref fn s
            = mk_sorry expected_type ref
                (set_m_has_errors true (set_reported ((ex, Some ref) :: reported s') s')))).
Proof.
  split; [|split].
  - intros mvar inferred_inst inst_type s s1 synthesized s2 s3 Hr Hi Hd.
    split.
    + unfold synthesize_type_class_instance_core. unfold bind at 1. rewrite Hr. cbn [negb].
      unfold bind at 1. unfold gets. unfold bind at 1. rewrite Hi.
      unfold bind at 1. rewrite Hd. reflexivity.
    + destruct (is_def_eq_only_ctx _ _ _ _ _ Hd) as [c ->]. split; reflexivity.
  - exact synthesize_type_class_instances_raises.
  - intros expected_type ref fn s ex s' Hf.
    unfold recover_expr_from_exception, try_catch. rewrite Hf. cbn [is_std_exception].
    unfold bind, try_report.
    destruct (m_recover_from_errors s'), (pos_info_provider s'); cbn;
      split; intros Hb; try discriminate; reflexivity.
Qed.

(** ** Two-pass application elaboration *)

Lemma take_snapshot_restore (S_ : snapshot) (s : elab_state) :
  take_snapshot (restore S_ s) = S_.
Proof. destruct S_. reflexivity. Qed.

Lemma first_pass_scopes {A} (body : M elab_state A) (s : elab_state) :
  full_postponed_scope false (flet_recover_from_errors false body) s
  = match body (first_pass_entry s) with
    | Val a s1 => Val a (first_pass_exit s s1)
    | Exc e s1 => Exc e (first_pass_exit s s1)
    end.
Proof.
  unfold full_postponed_scope, flet_recover_from_errors, finally, first_pass_entry,
    first_pass_exit.
  cbn. destruct (body _); reflexivity.
Qed.

(** C7.  Two-pass fallback.  For a candidate for the two-pass strategy with
    an expected type, when [first_pass] throws an elaboration error [ex1]:
    the fallback [visit_base_app_simple] starts from a state whose snapshot
    (metavariable context, info, the three pending lists, the inaccessible
    stack) is the one taken before the attempt, with the recovery flag as
    before; what it returns is returned; and an elaboration error [ex2] of
    the fallback is thrown as a nested error around [ex2] whose message
    carries the printed first-pass error. *)
Theorem visit_base_app_core_fallback (fn : expr) (args : list expr) (T ref : expr)
    (s s1 : elab_state) (ex1 : exn) :
  is_with_expected_candidate fn s = Val true s ->
  first_pass fn args T ref (first_pass_entry s) = Exc ex1 s1 ->
  is_elaborator_exception ex1 = true ->
  take_snapshot (restore (take_snapshot s) (first_pass_exit s s1)) = take_snapshot s
  /\ m_recover_from_errors (restore (take_snapshot s) (first_pass_exit s s1))
     = m_recover_from_errors s
  /\ visit_base_app_core fn Default args false (Some T) ref s
     = match visit_base_app_simple fn Default args false (Some T) ref
               (restore (take_snapshot s) (first_pass_exit s s1)) with
       | Val r s2 => Val r s2
       | Exc ex2 s2 =>
           if is_elaborator_exception ex2 then
             Exc (nested_elaborator_exception ref ex2
                    (switched_to_simple_msg (m_opts s2) ex1)) s2
           else Exc ex2 s2
       end
  /\ forall opts, fmt_occurs (exn_pp ex1) (switched_to_simple_msg opts ex1).
Proof.
  intros Hc Hf He. split; [apply take_snapshot_restore|]. split; [reflexivity|]. split.
  - unfold visit_base_app_core. cbn [orb negb arg_mask_is_default].
    unfold bind at 1. rewrite Hc. unfold bind at 1. unfold gets.
    unfold bind at 1. unfold try_catch at 1. unfold bind at 1.
    rewrite first_pass_scopes, Hf, He.
    unfold bind at 1. unfold modify. unfold bind at 1. unfold try_catch.
    destruct (visit_base_app_simple fn Default args false (Some T) ref
                (restore (take_snapshot s) (first_pass_exit s s1))) as [r s2|ex2 s2].
    + reflexivity.
    + destruct (is_elaborator_exception ex2); reflexivity.
  - intros opts. unfold switched_to_simple_msg.
    apply occurs_right, occurs_nest, occurs_right, occurs_here.
Qed.

(** ** Overload resolution *)

















(** ** Eliminator applications *)

Lemma elim_key_arg_returns (fn ref : expr) (new_args : list expr) (d arg : expr)
    (s : elab_state) (a : expr) (s' : elab_state) :
  elim_key_arg fn ref new_args d arg s = Val a s' -> has_expr_metavar a = false.
Proof.
  unfold elim_key_arg. unfold bind at 1.
  destruct (visit arg (Some d) s) as [a0 s1|]; [|discriminate].
  unfold bind at 1. destruct (synthesize s1) as [[] s2|]; [|discriminate].
  unfold bind at 1. destruct (instantiate_mvars a0 s2) as [a1 s3|]; [|discriminate].
  destruct (has_expr_metavar a1) eqn:Hm.
  - unfold bind, pp_indent, bind, gets, ret, throw. discriminate.
  - unfold bind at 1. destruct (infer_type a1 s3) as [t s4|]; [|discriminate].
    unfold bind at 1. destruct (is_def_eq t d s4) as [[|] s5|]; try discriminate.
    cbn. unfold ret. intros [= <- <-]. exact Hm.
Qed.

(** The arguments the first loop elaborated at the key positions are free
    of metavariables. *)
Lemma elim_first_pass_keys (fuel : nat) (fn : expr) (main_idxs : list nat) (args : list expr)
    (ref : expr) (type : expr) (i j : nat) (new_args : list expr)
    (postponed_args : list (option expr)) (s : elab_state)
    (type' : expr) (j' : nat) (new_args' : list expr) (postponed_args' : list (option expr))
    (s' : elab_state) :
  elim_first_pass fuel fn main_idxs args ref type i j new_args postponed_args s
  = Some (Val (type', j', new_args', postponed_args') s') ->
  List.length new_args = i ->
  (forall k a, In k main_idxs -> nth_error new_args k = Some a -> has_expr_metavar a = false) ->
  forall k a, In k main_idxs -> nth_error new_args' k = Some a -> has_expr_metavar a = false.
Proof.
  revert type i j new_args postponed_args s.
  induction fuel as [|fuel IH]; intros type i j new_args postponed_args s Hr Hlen Hold.
  - cbn in Hr. destruct (is_pi type); cbn in Hr; [discriminate|].
    unfold liftF, ret in Hr. injection Hr as <- <- <- <- <-. exact Hold.
  - cbn in Hr. destruct (is_pi type); cbn [negb] in Hr.
    2:{ unfold liftF, ret in Hr. injection Hr as <- <- <- <- <-. exact Hold. }
    unfold bindF at 1 in Hr.
    match type of Hr with
    | match ?step s with _ => _ end = _ => destruct (step s) as [[[[new_arg p] j1] s1|ex s1]|] eqn:Hstep
    end; try discriminate.
    unfold bindF at 1 in Hr. unfold liftF at 1 in Hr.
    destruct (try_to_pi (instantiate (binding_body type) new_arg) s1) as [type1 s2|];
      [|discriminate].
    refine (IH _ _ _ _ _ _ Hr _ _).
    + rewrite length_app, Hlen. cbn. lia.
    + intros k a Hk Hn.
      destruct (Nat.lt_ge_cases k (List.length new_args)) as [Hlt|Hge].
      * rewrite nth_error_app1 in Hn by exact Hlt. eapply Hold; eauto.
      * rewrite nth_error_app2 in Hn by exact Hge.
        destruct (k - List.length new_args)%nat as [|m] eqn:Hk0;
          [|destruct m; discriminate].
        cbn in Hn. injection Hn as <-.
        assert (Hki : k = i) by lia. subst k.
        assert (Hex : existsb (Nat.eqb i) main_idxs = true).
        { apply existsb_exists. exists i. split; [exact Hk|]. apply Nat.eqb_refl. }
        rewrite Hex in Hstep.
        destruct (nth_error args j) as [arg|]; [|discriminate].
        unfold liftF, bind in Hstep.
        destruct (elim_key_arg fn ref new_args (binding_domain type) arg s)
          as [a0 s0|] eqn:Hkey; [|discriminate].
        unfold ret in Hstep. injection Hstep as <- <- <- <-.
        eapply elim_key_arg_returns, Hkey.
Qed.

(** A key argument that keeps a metavariable: the error of lines 1046-1055. *)
Lemma elim_key_arg_throws (fn ref : expr) (new_args : list expr) (d arg : expr)
    (s : elab_state) (a : expr) (s1 s2 : elab_state) (a' : expr) (s3 : elab_state) :
  visit arg (Some d) s = Val a s1 ->
  synthesize s1 = Val tt s2 ->
  instantiate_mvars a s2 = Val a' s3 ->
  has_expr_metavar a' = true ->
  elim_key_arg fn ref new_args d arg s
  = Exc (elaborator_exception ref
           (key_has_metavars_msg fn
              (fmt_nest (get_pp_indent (m_opts s3)) (fmt_line <+> fmt_pp a'))))
      s3.
Proof.
  intros Hv Hs Hi Hm.
  unfold elim_key_arg. unfold bind at 1. rewrite Hv. unfold bind at 1. rewrite Hs.
  unfold bind at 1. rewrite Hi. rewrite Hm. reflexivity.
Qed.

(** C9.  Eliminator applications.
    - With no expected type [visit_elim_app] throws an elaboration error.
    - With an expected type that still contains metavariables once the
      pending instances are synthesized and it is instantiated,
      [visit_elim_app] throws an elaboration error.
    - So a term is produced only for an expected type that is given and
      free of metavariables after instantiation.
    - An argument at a key position that, elaborated, synthesized and
      instantiated, contains a metavariable makes the elaboration of that
      argument throw an elaboration error; and whenever the first loop
      returns, every argument it put at a key position is free of
      metavariables.
    - The key positions of [visit_elim_app] are [info.m_idxs]: an exception
      of its first loop over [m_idxs info] is the outcome of
      [visit_elim_app]; at any iteration of that loop whose position is a
      key position, an argument that keeps a metavariable makes the loop
      throw the elaboration error; and [visit_elim_app] returns a term only
      if the first loop over [m_idxs info] returned with every argument at
      a position of [m_idxs info] free of metavariables. *)
Theorem visit_elim_app_errors :
  (forall fuel fn info args ref s,
      visit_elim_app fuel fn info args None ref s
      = Some (Exc (elaborator_exception ref (expected_type_unknown_msg fn)) s))
  /\ (forall fuel fn info args T ref s s1 T' s2,
        synthesize_type_class_instances s = Val tt s1 ->
        instantiate_mvars T s1 = Val T' s2 ->
        has_expr_metavar T' = true ->
        visit_elim_app fuel fn info args (Some T) ref s
        = Some (Exc (elaborator_exception ref
                       (expected_type_has_metavars_msg fn
                          (fmt_nest (get_pp_indent (m_opts s2)) (fmt_line <+> fmt_pp T'))))
                  s2))
  /\ (forall fuel fn info args expected_type ref s r s',
        visit_elim_app fuel fn info args expected_type ref s = Some (Val r s') ->
        exists T s1 T' s2,
          expected_type = Some T
          /\ synthesize_type_class_instances s = Val tt s1
          /\ instantiate_mvars T s1 = Val T' s2
          /\ has_expr_metavar T' = false)
  /\ (forall fn ref new_args d arg s a s1 s2 a' s3,
        visit arg (Some d) s = Val a s1 ->
        synthesize s1 = Val tt s2 ->
        instantiate_mvars a s2 = Val a' s3 ->
        has_expr_metavar a' = true ->
        elim_key_arg fn ref new_args d arg s
        = Exc (elaborator_exception ref
                 (key_has_metavars_msg fn
                    (fmt_nest (get_pp_indent (m_opts s3)) (fmt_line <+> fmt_pp a'))))
            s3)
  /\ (forall fuel fn main_idxs args ref type s type' j' new_args' postponed_args' s',
        elim_first_pass fuel fn main_idxs args ref type 0 0 [] [] s
        = Some (Val (type', j', new_args', postponed_args') s') ->
        forall k a,
          In k main_idxs -> nth_error new_args' k = Some a -> has_expr_metavar a = false)
  /\ (forall fuel fn info args T ref s s1 T' s2 t s3 fn_type s4 ex s5,
        synthesize_type_class_instances s = Val tt s1 ->
        instantiate_mvars T s1 = Val T' s2 ->
        has_expr_metavar T' = false ->
        infer_type fn s2 = Val t s3 ->
        try_to_pi t s3 = Val fn_type s4 ->
        elim_first_pass fuel fn (m_idxs info) args ref fn_type 0 0 [] [] s4
        = Some (Exc ex s5) ->
        visit_elim_app fuel fn info args (Some T) ref s = Some (Exc ex s5))
  /\ (forall fuel fn main_idxs args ref type i j new_args postponed_args s arg a s1 s2 a' s3,
        is_pi type = true ->
        In i main_idxs ->
        nth_error args j = Some arg ->
        visit arg (Some (binding_domain type)) s = Val a s1 ->
        synthesize s1 = Val tt s2 ->
        instantiate_mvars a s2 = Val a' s3 ->
        has_expr_metavar a' = true ->
        elim_first_pass (S fuel) fn main_idxs args ref type i j new_args postponed_args s
        = Some (Exc (elaborator_exception ref
                       (key_has_metavars_msg fn
                          (fmt_nest (get_pp_indent (m_opts s3)) (fmt_line <+> fmt_pp a'))))
                  s3))
  /\ (forall fuel fn info args T ref s r s',
        visit_elim_app fuel fn info args (Some T) ref s = Some (Val r s') ->
        exists s2 t s3 fn_type s4 type j new_args postponed_args s5,
          infer_type fn s2 = Val t s3
          /\ try_to_pi t s3 = Val fn_type s4
          /\ elim_first_pass fuel fn (m_idxs info) args ref fn_type 0 0 [] [] s4
             = Some (Val (type, j, new_args, postponed_args) s5)
          /\ forall k a,
               In k (m_idxs info) -> nth_error new_args k = Some a ->
               has_expr_metavar a = false).
Proof.
  split; [reflexivity|]. split; [|split; [|split; [|split; [|split; [|split]]]]].
  - intros fuel fn info args T ref s s1 T' s2 Hs Hi Hm.
    unfold visit_elim_app. unfold bindF at 1. unfold liftF at 1. rewrite Hs.
    unfold bindF at 1. unfold liftF at 1. rewrite Hi. rewrite Hm. reflexivity.
  - intros fuel fn info args expected_type ref s r s'. unfold visit_elim_app.
    destruct expected_type as [T|]; [|discriminate].
    unfold bindF at 1. unfold liftF at 1.
    destruct (synthesize_type_class_instances s) as [[] s1|] eqn:Hs; [|discriminate].
    unfold bindF at 1. unfold liftF at 1.
    destruct (instantiate_mvars T s1) as [T' s2|] eqn:Hi; [|discriminate].
    destruct (has_expr_metavar T') eqn:Hm; [discriminate|].
    intros _. exists T, s1, T', s2. auto.
  - intros fn ref new_args d arg s a s1 s2 a' s3 Hv Hs Hi Hm.
    apply (elim_key_arg_throws fn ref new_args d arg s a s1 s2 a' s3 Hv Hs Hi Hm).
  - intros fuel fn main_idxs args ref type s type' j' new_args' postponed_args' s' Hr.
    refine (elim_first_pass_keys _ _ _ _ _ _ _ _ _ _ _ _ _ _ _ _ Hr eq_refl _).
    intros k a _ Hn. destruct k; discriminate.
  - intros fuel fn info args T ref s s1 T' s2 t s3 fn_type s4 ex s5 Hs Hi Hm Ht Hp Hl.
    unfold visit_elim_app. unfold bindF at 1. unfold liftF at 1. rewrite Hs.
    unfold bindF at 1. unfold liftF at 1. rewrite Hi. rewrite Hm.
    unfold bindF at 1. unfold liftF at 1. unfold bind at 1. rewrite Ht. rewrite Hp.
    unfold bindF at 1. rewrite Hl. reflexivity.
  - intros fuel fn main_idxs args ref type i j new_args postponed_args s arg a s1 s2 a' s3
      Hpi Hin Hn Hv Hs Hi Hm.
    assert (Hex : existsb (Nat.eqb i) main_idxs = true).
    { apply existsb_exists. exists i. split; [exact Hin|]. apply Nat.eqb_refl. }
    cbn [elim_first_pass]. rewrite Hpi. cbn [negb]. rewrite Hex, Hn.
    unfold bindF at 1. unfold liftF at 1. unfold bind at 1.
    rewrite (elim_key_arg_throws fn ref new_args _ arg s a s1 s2 a' s3 Hv Hs Hi Hm).
    reflexivity.
  - intros fuel fn info args T ref s r s'. unfold visit_elim_app.
    unfold bindF at 1. unfold liftF at 1.
    destruct (synthesize_type_class_instances s) as [[] s1|] eqn:Hs; [|discriminate].
    unfold bindF at 1. unfold liftF at 1.
    destruct (instantiate_mvars T s1) as [T' s2|] eqn:Hi; [|discriminate].
    destruct (has_expr_metavar T') eqn:Hm; [discriminate|].
    unfold bindF at 1. unfold liftF at 1. unfold bind at 1.
    destruct (infer_type fn s2) as [t s3|] eqn:Ht; [|discriminate].
    destruct (try_to_pi t s3) as [fn_type s4|] eqn:Hp; [|discriminate].
    unfold bindF at 1.
    destruct (elim_first_pass fuel fn (m_idxs info) args ref fn_type 0 0 [] [] s4)
      as [[[[[type j] new_args] postponed_args] s5|ex s5]|] eqn:Hl; try discriminate.
    intros _. exists s2, t, s3, fn_type, s4, type, j, new_args, postponed_args, s5.
    split; [exact Ht|]. split; [exact Hp|]. split; [exact Hl|].
    refine (elim_first_pass_keys _ _ _ _ _ _ _ _ _ _ _ _ _ _ _ _ Hl eq_refl _).
    intros k a _ Hn. destruct k; discriminate.
Qed.

(** ** Anonymous constructors *)

(** C10.  [visit_anonymous_constructor] returns a term only if an expected
    type is given and the head of its weak-head normal form (after
    instantiation) is a constant naming an inductive type that is not
    private and has exactly one constructor.  With no expected type, or with
    one whose head is no constant, or names a private type, or no inductive
    type, or a type whose number of constructors is not one, it throws an
    elaboration error. *)
Theorem visit_anonymous_constructor_errors :
  (forall e expected_type s r s',
      visit_anonymous_constructor e expected_type s = Val r s' ->
      exists T T' s1 w s2 I_name ls c_name,
        expected_type = Some T
        /\ instantiate_mvars T s = Val T' s1
        /\ lift_ctx (tc_relaxed_whnf T') s1 = Val w s2
        /\ get_app_fn w = Constant I_name ls
        /\ is_private (m_env s2) I_name = false
        /\ is_inductive_decl (m_env s2) I_name = true
        /\ get_intro_rule_names (m_env s2) I_name = [c_name])
  /\ (forall e s,
        exists msg, visit_anonymous_constructor e None s = Exc (elaborator_exception e msg) s)
  /\ (forall e T s T' s1 w s2,
        instantiate_mvars T s = Val T' s1 ->
        lift_ctx (tc_relaxed_whnf T') s1 = Val w s2 ->
        is_constant (get_app_fn w) = false
        \/ is_private (m_env s2) (const_name (get_app_fn w)) = true
        \/ is_inductive_decl (m_env s2) (const_name (get_app_fn w)) = false
        \/ List.length (get_intro_rule_names (m_env s2) (const_name (get_app_fn w))) <> 1%nat ->
        exists msg,
          visit_anonymous_constructor e (Some T) s = Exc (elaborator_exception e msg) s2).
Proof.
  split; [|split].
  - intros e expected_type s r s'. unfold visit_anonymous_constructor.
    destruct expected_type as [T|]; [|discriminate].
    unfold bind at 1. destruct (instantiate_mvars T s) as [T' s1|] eqn:Hi; [|discriminate].
    unfold bind at 1.
    destruct (lift_ctx (tc_relaxed_whnf T') s1) as [w s2|] eqn:Hw; [|discriminate].
    destruct (get_app_fn w) as [| |I_name ls| | | | | | |] eqn:Hh; try discriminate.
    cbn [is_constant negb const_name]. unfold bind at 1. unfold gets.
    destruct (is_private (m_env s2) I_name) eqn:Hp; [discriminate|].
    destruct (is_inductive_decl (m_env s2) I_name) eqn:Hd; [|discriminate].
    cbn [negb].
    destruct (get_intro_rule_names (m_env s2) I_name) as [|c_name [|c2 rest]] eqn:Hc;
      try discriminate.
    intros _. exists T, T', s1, w, s2, I_name, ls, c_name. auto 10.
  - intros e s. eexists. reflexivity.
  - intros e T s T' s1 w s2 Hi Hw Hbad. unfold visit_anonymous_constructor.
    unfold bind at 1. rewrite Hi. unfold bind at 1. rewrite Hw.
    destruct (is_constant (get_app_fn w)) eqn:Hh; cbn [negb].
    2:{ eexists. unfold bind, pp_indent, bind, gets, ret, throw. reflexivity. }
    unfold bind at 1. unfold gets.
    destruct (is_private (m_env s2) (const_name (get_app_fn w))) eqn:Hp;
      [eexists; reflexivity|].
    destruct (is_inductive_decl (m_env s2) (const_name (get_app_fn w))) eqn:Hd; cbn [negb];
      [|eexists; reflexivity].
    destruct (get_intro_rule_names (m_env s2) (const_name (get_app_fn w)))
      as [|c_name [|c2 rest]] eqn:Hc; try (eexists; reflexivity).
    exfalso. destruct Hbad as [?|[?|[?|Hlen]]]; try discriminate. apply Hlen. reflexivity.
Qed.

End Properties.

(** ** The unification-hint registry *)

Section HintProperties.
Context {C : Carriers} {H : HintExternal}.

Lemma hint_binders_body (e : expr) (n : nat) (mvars : list expr) (ctx : tmp_type_context) :
  fst (fst (fst (hint_binders e n mvars ctx))) = strip_lambdas e.
Proof.
  revert n mvars ctx. induction e; intros k mvars ctx; try reflexivity.
  cbn. destruct (mk_tmp_mvar (instantiate_rev e1 mvars) ctx) as [mv ctx']. apply IHe2.
Qed.

Lemma ordered_pair_sorted (n1 n2 : name) :
  (forall a b, 0 < quick_cmp a b <-> quick_cmp b a < 0) ->
  quick_cmp (fst (ordered_pair n1 n2)) (snd (ordered_pair n1 n2)) <= 0.
Proof.
  intros Hanti. unfold ordered_pair. destruct (0 <? quick_cmp n1 n2) eqn:Hc; cbn.
  - apply Z.ltb_lt, Hanti in Hc. lia.
  - apply Z.ltb_ge in Hc. exact Hc.
Qed.

Lemma ordered_pair_comm (n1 n2 : name) :
  (forall a b, 0 < quick_cmp a b <-> quick_cmp b a < 0) ->
  (forall a b, quick_cmp a b = 0 <-> a = b) ->
  ordered_pair n1 n2 = ordered_pair n2 n1.
Proof.
  intros Hanti Heq. unfold ordered_pair.
  destruct (0 <? quick_cmp n1 n2) eqn:H12, (0 <? quick_cmp n2 n1) eqn:H21; try reflexivity.
  - apply Z.ltb_lt in H12, H21. apply Hanti in H12. lia.
  - apply Z.ltb_ge in H12, H21.
    assert (Hz : quick_cmp n1 n2 = 0).
    { destruct (Z.eq_dec (quick_cmp n1 n2) 0) as [|Hne]; [assumption|].
      assert (Hlt : quick_cmp n1 n2 < 0) by lia. apply Hanti in Hlt. lia. }
    apply Heq in Hz. subst. reflexivity.
Qed.

Lemma get_unification_hints_key (hints : gmap name_pair unification_hint_queue)
    (n1 n2 : name) (uhints : list unification_hint) :
  get_unification_hints hints n1 n2 uhints
  = uhints ++ match hints !! ordered_pair n1 n2 with
              | Some q => queue_to_buffer q
              | None => []
              end.
Proof.
  unfold get_unification_hints, ordered_pair.
  destruct (0 <? quick_cmp n1 n2); destruct (hints !! _); rewrite ?app_nil_r; reflexivity.
Qed.

(** What a successful registration stores, and where. *)
Lemma register_hint_stores (env : environment) (decl_name : name) (value : expr)
    (priority : nat) (st st' : unification_hint_state) :
  register_hint env decl_name value priority st = Val tt st' ->
  exists hint,
    let key := ordered_pair (lhs_head value) (rhs_head value) in
    const_name (get_app_fn (m_lhs hint)) = fst key
    /\ const_name (get_app_fn (m_rhs hint)) = snd key
    /\ m_hints st'
       = <[key := queue_insert hint priority (default queue_empty (m_hints st !! key))]>
           (m_hints st).
Proof.
  unfold register_hint. unfold bind at 1. unfold modify at 1.
  pose proof (hint_binders_body value 0 [] (mk_tmp_type_context env)) as Hbody.
  destruct (hint_binders value 0 [] (mk_tmp_type_context env)) as [[[e_hint num_vars] tmp_mvars] ctx].
  cbn in Hbody. subst e_hint.
  destruct (is_app_of (strip_lambdas value) get_unification_hint_mk_name 2);
    cbn [negb]; [|discriminate].
  fold (pattern_lhs value). fold (pattern_rhs value).
  destruct (is_constant (get_app_fn (pattern_lhs value))); cbn [negb orb]; [|discriminate].
  destruct (is_constant (get_app_fn (pattern_rhs value))); cbn [negb]; [|discriminate].
  unfold swap_if_greater. fold (lhs_head value). fold (rhs_head value).
  cbn zeta. unfold ordered_pair.
  destruct (0 <? quick_cmp (lhs_head value) (rhs_head value)).
  - destruct (hint_constraints _ tmp_mvars [] 1 ctx) as [[[e_c cs] ctx']|eqidx];
      [|discriminate].
    destruct (is_app_of e_c get_list_nil_name 1); cbn [negb]; [|discriminate].
    destruct (tmp_is_def_eq _ _ ctx') as [[|] ctx'']; cbn [negb]; [|discriminate].
    unfold modify. intros [= <-].
    exists (mk_unification_hint (pattern_rhs value) (pattern_lhs value) cs num_vars).
    cbn. split; [reflexivity|]. split; reflexivity.
  - destruct (hint_constraints _ tmp_mvars [] 1 ctx) as [[[e_c cs] ctx']|eqidx];
      [|discriminate].
    destruct (is_app_of e_c get_list_nil_name 1); cbn [negb]; [|discriminate].
    destruct (tmp_is_def_eq _ _ ctx') as [[|] ctx'']; cbn [negb]; [|discriminate].
    unfold modify. intros [= <-].
    exists (mk_unification_hint (pattern_lhs value) (pattern_rhs value) cs num_vars).
    cbn. split; [reflexivity|]. split; reflexivity.
Qed.

(** When a registration succeeds: the body under the lambdas is
    [unification_hint.mk] applied to two arguments, the heads of both sides
    of the pattern are constants, every constraint of the list unifies, the
    list ends with [list.nil], and the two sides unify.  The state it
    leaves. *)
Lemma register_hint_succeeds (env : environment) (decl_name : name) (value : expr)
    (priority : nat) (st : unification_hint_state) (e_hint : expr) (num_vars : nat)
    (tmp_mvars : list expr) (ctx : tmp_type_context) (e_c : expr)
    (constraints : list expr_pair) (ctx' ctx'' : tmp_type_context) :
  hint_binders value 0 [] (mk_tmp_type_context env) = (e_hint, num_vars, tmp_mvars, ctx) ->
  is_app_of e_hint get_unification_hint_mk_name 2 = true ->
  is_constant (get_app_fn (pattern_lhs value)) = true ->
  is_constant (get_app_fn (pattern_rhs value)) = true ->
  hint_constraints (app_arg e_hint) tmp_mvars [] 1 ctx = inl (e_c, constraints, ctx') ->
  is_app_of e_c get_list_nil_name 1 = true ->
  let swap := 0 <? quick_cmp (lhs_head value) (rhs_head value) in
  let lhs := if swap then pattern_rhs value else pattern_lhs value in
  let rhs := if swap then pattern_lhs value else pattern_rhs value in
  tmp_is_def_eq (instantiate_rev lhs tmp_mvars) (instantiate_rev rhs tmp_mvars) ctx'
  = (true, ctx'') ->
  let hint := mk_unification_hint lhs rhs constraints num_vars in
  let key := ordered_pair (lhs_head value) (rhs_head value) in
  register_hint env decl_name value priority st
  = Val tt (mk_unification_hint_state
              (<[key := queue_insert hint priority (default queue_empty (m_hints st !! key))]>
                 (m_hints st))
              (<[decl_name := priority]> (m_decl_names_to_prio st))).
Proof.
  intros Hb Happ Hl Hr Hc Hnil swap lhs rhs Hu hint key.
  pose proof (hint_binders_body value 0 [] (mk_tmp_type_context env)) as Hbody.
  rewrite Hb in Hbody. cbn in Hbody. subst e_hint.
  unfold register_hint. unfold bind at 1. unfold modify at 1. rewrite Hb.
  rewrite Happ. cbn [negb].
  fold (pattern_lhs value). fold (pattern_rhs value).
  rewrite Hl, Hr. cbn [negb orb].
  unfold swap_if_greater. fold (lhs_head value). fold (rhs_head value).
  cbn zeta. subst hint key lhs rhs swap. unfold ordered_pair in *.
  destruct (0 <? quick_cmp (lhs_head value) (rhs_head value)).
  - rewrite Hc, Hnil. cbn [negb]. rewrite Hu. cbn [negb]. reflexivity.
  - rewrite Hc, Hnil. cbn [negb]. rewrite Hu. cbn [negb]. reflexivity.
Qed.

(** C3.  Keying of the hint registry, for an order [quick_cmp] on names
    (antisymmetric, and zero on equal names only).
    - A registered hint is stored under the pair of the names of the heads
      of its two pattern sides, the smaller name first, with its sides in
      that order.
    - [get_unification_hints] looks up the pair of its two names, the
      smaller first.
    - So the hints for [(n1, n2)] are the hints for [(n2, n1)], and a
      registered hint is found from the names of its heads in either
      order.
    - [register_hint] does register: for a hint whose body under the
      lambdas is [unification_hint.mk] applied to two arguments, with
      constant heads on both sides of the pattern, a list of constraints
      that unify one by one and ends with [list.nil], and sides that unify,
      it returns, the queue under the ordered pair of the two head names
      has received the hint with its sides in that order, nothing else of
      the map has changed, and the hint is found from the two head names in
      either order. *)
Theorem hint_registry_keying :
  (forall a b, 0 < quick_cmp a b <-> quick_cmp b a < 0) ->
  (forall a b, quick_cmp a b = 0 <-> a = b) ->
  (forall env decl_name value priority st st',
      register_hint env decl_name value priority st = Val tt st' ->
      exists key hint,
        (key = (lhs_head value, rhs_head value) \/ key = (rhs_head value, lhs_head value))
        /\ quick_cmp (fst key) (snd key) <= 0
        /\ const_name (get_app_fn (m_lhs hint)) = fst key
        /\ const_name (get_app_fn (m_rhs hint)) = snd key
        /\ m_hints st'
           = <[key := queue_insert hint priority (default queue_empty (m_hints st !! key))]>
               (m_hints st)
        /\ get_unification_hints (m_hints st') (lhs_head value) (rhs_head value) []
           = queue_to_buffer
               (queue_insert hint priority (default queue_empty (m_hints st !! key)))
        /\ get_unification_hints (m_hints st') (rhs_head value) (lhs_head value) []
           = queue_to_buffer
               (queue_insert hint priority (default queue_empty (m_hints st !! key))))
  /\ (forall (hints : gmap name_pair unification_hint_queue) n1 n2 uhints,
        exists key,
          (key = (n1, n2) \/ key = (n2, n1))
          /\ quick_cmp (fst key) (snd key) <= 0
          /\ get_unification_hints hints n1 n2 uhints
             = uhints ++ match hints !! key with
                         | Some q => queue_to_buffer q
                         | None => []
                         end)
  /\ (forall (hints : gmap name_pair unification_hint_queue) n1 n2 uhints,
        get_unification_hints hints n1 n2 uhints = get_unification_hints hints n2 n1 uhints)
  /\ (forall env decl_name value priority st e_hint num_vars tmp_mvars ctx e_c constraints
             ctx' ctx'',
        hint_binders value 0 [] (mk_tmp_type_context env)
        = (e_hint, num_vars, tmp_mvars, ctx) ->
        is_app_of e_hint get_unification_hint_mk_name 2 = true ->
        is_constant (get_app_fn (pattern_lhs value)) = true ->
        is_constant (get_app_fn (pattern_rhs value)) = true ->
        hint_constraints (app_arg e_hint) tmp_mvars [] 1 ctx = inl (e_c, constraints, ctx') ->
        is_app_of e_c get_list_nil_name 1 = true ->
        let swap := 0 <? quick_cmp (lhs_head value) (rhs_head value) in
        let lhs := if swap then pattern_rhs value else pattern_lhs value in
        let rhs := if swap then pattern_lhs value else pattern_rhs value in
        tmp_is_def_eq (instantiate_rev lhs tmp_mvars) (instantiate_rev rhs tmp_mvars) ctx'
        = (true, ctx'') ->
        let hint := mk_unification_hint lhs rhs constraints num_vars in
        let key := (const_name (get_app_fn lhs), const_name (get_app_fn rhs)) in
        let q := queue_insert hint priority (default queue_empty (m_hints st !! key)) in
        exists st',
          register_hint env decl_name value priority st = Val tt st'
          /\ quick_cmp (fst key) (snd key) <= 0
          /\ m_hints st' !! key = Some q
          /\ (forall key', key' <> key -> m_hints st' !! key' = m_hints st !! key')
          /\ m_decl_names_to_prio st' = <[decl_name := priority]> (m_decl_names_to_prio st)
          /\ get_unification_hints (m_hints st') (lhs_head value) (rhs_head value) []
             = queue_to_buffer q
          /\ get_unification_hints (m_hints st') (rhs_head value) (lhs_head value) []
             = queue_to_buffer q).
Proof.
  intros Hanti Heq. split; [|split; [|split]].
  - intros env decl_name value priority st st' Hr.
    destruct (register_hint_stores _ _ _ _ _ _ Hr) as (hint & Hl & Hrh & Hst).
    cbn zeta in *.
    exists (ordered_pair (lhs_head value) (rhs_head value)), hint.
    split.
    { unfold ordered_pair. destruct (0 <? _); auto. }
    split; [apply ordered_pair_sorted, Hanti|].
    split; [exact Hl|]. split; [exact Hrh|]. split; [exact Hst|].
    split.
    + rewrite get_unification_hints_key, Hst. rewrite lookup_insert_eq. reflexivity.
    + rewrite get_unification_hints_key, Hst.
      rewrite <- (ordered_pair_comm _ _ Hanti Heq). rewrite lookup_insert_eq. reflexivity.
  - intros hints n1 n2 uhints. exists (ordered_pair n1 n2).
    split.
    { unfold ordered_pair. destruct (0 <? _); auto. }
    split; [apply ordered_pair_sorted, Hanti|]. apply get_unification_hints_key.
  - intros hints n1 n2 uhints. rewrite !get_unification_hints_key.
    rewrite (ordered_pair_comm n1 n2 Hanti Heq). reflexivity.
  - intros env decl_name value priority st e_hint num_vars tmp_mvars ctx e_c constraints
      ctx' ctx'' Hb Happ Hl Hr Hc Hnil swap lhs rhs Hu hint key q.
    pose proof (register_hint_succeeds env decl_name value priority st e_hint num_vars
                  tmp_mvars ctx e_c constraints ctx' ctx'' Hb Happ Hl Hr Hc Hnil Hu) as Hreg.
    cbn zeta in Hreg.
    assert (Hkey : key = ordered_pair (lhs_head value) (rhs_head value)).
    { subst key lhs rhs swap. unfold ordered_pair, lhs_head, rhs_head.
      destruct (0 <? _); reflexivity. }
    fold swap lhs rhs hint in Hreg. rewrite <- Hkey in Hreg. fold q in Hreg.
    eexists. split; [exact Hreg|]. cbn [m_hints m_decl_names_to_prio].
    split; [rewrite Hkey; apply ordered_pair_sorted, Hanti|].
    split; [apply lookup_insert_eq|].
    split; [intros key' Hne; apply lookup_insert_ne; congruence|].
    split; [reflexivity|].
    split.
    + rewrite get_unification_hints_key, <- Hkey, lookup_insert_eq. reflexivity.
    + rewrite get_unification_hints_key, <- (ordered_pair_comm _ _ Hanti Heq), <- Hkey,
        lookup_insert_eq. reflexivity.
Qed.

End HintProperties.

(** * The properties at work on the small instance *)

Section Examples.
#[local] Existing Instance toy_carriers.

Lemma ensure_has_type_reflexive_witness :
  ensure_has_type (X := toy_external plain_visitors) ex_zero ex_nat ex_nat ex_zero
    (toy_state empty_env [] [] false)
  = Val (Some ex_zero) (toy_state empty_env [] [] false).
Proof.
  exact (ensure_has_type_reflexive (X := toy_external plain_visitors) ex_zero ex_nat ex_zero
           (toy_state empty_env [] [] false)
           (set_approximate true (m_ctx (toy_state empty_env [] [] false)))
           eq_refl).
Defined.

(** *** The monad heuristic *)

(** The problem of the comment above [try_monad_coercion]:
    [tactic name ===> solver ?a]. *)
Lemma mk_coercion_monad_heuristic_witness :
  mk_coercion (X := toy_external plain_visitors) ex_t1
    (App ex_tactic ex_name) (App ex_solver ex_meta_a) ex_t1 monad_state
  = mk_coercion_core (X := toy_external plain_visitors) ex_t1
      (App ex_tactic ex_name) (App ex_solver ex_name) ex_t1
      (toy_state monad_env [(mk_string anonymous "a", ex_name)] [] false).
Proof.
  refine (proj2 (proj2 (mk_coercion_monad_heuristic (X := toy_external plain_visitors)
                          ex_t1 (App ex_tactic ex_name) (App ex_solver ex_meta_a) ex_t1
                          monad_state monad_state monad_state
                          (App ex_tactic ex_name) (App ex_solver ex_meta_a)
                          eq_refl eq_refl eq_refl _))
            monad_state monad_state
            (toy_state monad_env [(mk_string anonymous "a", ex_name)] [] false)
            (App ex_solver ex_name)
            (toy_state monad_env [(mk_string anonymous "a", ex_name)] [] false)
            eq_refl eq_refl eq_refl eq_refl eq_refl eq_refl eq_refl eq_refl eq_refl
            eq_refl).
  vm_compute. discriminate.
Defined.

(** C5 as stated fails.  The inferred type [?m ?a] and the expected type
    [solver unit] are applications to one argument of distinct heads, both
    monads for the class search, the first a metavariable; exactly the
    inferred type contains metavariables, and the checker unifies the two
    arguments when asked.  Yet [mk_coercion] inserts nothing and the
    arguments are not unified: the metavariable context is as before. *)
Lemma mk_coercion_metavariable_head_counterexample :
  has_expr_metavar (App ex_meta_m ex_meta_a) = true
  /\ has_expr_metavar (App ex_solver ex_unit) = false
  /\ expr_eqb ex_meta_m ex_solver = false
  /\ is_monad (X := toy_external plain_visitors) ex_meta_m monad_state = Val true monad_state
  /\ is_monad (X := toy_external plain_visitors) ex_solver monad_state = Val true monad_state
  /\ lift_ctx (tc_is_def_eq (External := toy_external plain_visitors) ex_meta_a ex_unit)
       monad_state
     = Val true (toy_state monad_env [(mk_string anonymous "a", ex_unit)] [] false)
  /\ mk_coercion (X := toy_external plain_visitors) ex_t1
       (App ex_meta_m ex_meta_a) (App ex_solver ex_unit) ex_t1 monad_state
     = Val None monad_state.
Proof. repeat split; vm_compute; reflexivity. Qed.

(** *** A chain of instances *)

Lemma instance_worklist_witness :
  exists r,
    synthesize_type_class_instances_loop (X := toy_external plain_visitors)
      (S (List.length (m_instances chain_state))) chain_state = Some r
    /\ synthesize_type_class_instances (X := toy_external plain_visitors) chain_state = r.
Proof.
  exact (proj2 (proj2 (proj2 (proj2 (proj2 (proj2 (proj2
           (instance_worklist (X := toy_external plain_visitors)))))))) chain_state).
Defined.

(** The chain is resolved in two rounds; the third finds nothing to do. *)
Example chain_resolved :
  synthesize_type_class_instances (X := toy_external plain_visitors) chain_state
  = Val tt
      (set_heap_next 101%positive
         (toy_state chain_env
            [ (mk_string anonymous "i2", cst "C.inst");
              (mk_string anonymous "i1", cst "nat.inhabited") ]
            [] false)).
Proof. vm_compute. reflexivity. Qed.

(** *** A synthesized instance that differs from the inferred one *)

Lemma instance_mismatch_error_witness :
  synthesize_type_class_instance_core (X := toy_external plain_visitors)
    ex_i (cst "other_inst") (App (cst "inhabited") ex_nat) (mismatch_state true)
  = Exc ex_mismatch (mismatch_state true)
  /\ m_has_errors (mismatch_state true) = m_has_errors (mismatch_state true)
  /\ reported (mismatch_state true) = reported (mismatch_state true).
Proof.
  exact (proj1 (instance_mismatch_error (X := toy_external plain_visitors))
           ex_i (cst "other_inst") (App (cst "inhabited") ex_nat)
           (mismatch_state true) (mismatch_state true) (cst "nat.inhabited")
           (mismatch_state true) (mismatch_state true) eq_refl eq_refl eq_refl).
Defined.

(** C6 as stated fails.  With recovery on, visiting an empty-collection
    term against [set nat] drains the instances first; the mismatch error is
    thrown, and the visitor's handler reports it and returns the placeholder
    [sorry (set nat)] in place of the term: the error does not reach the
    caller.  With recovery off it does. *)
Lemma instance_mismatch_recovered_counterexample :
  synthesize_type_class_instances (X := toy_external plain_visitors) (mismatch_state true)
  = Exc ex_mismatch (mismatch_state true)
  /\ visit_emptyc (X := toy_external plain_visitors) ex_emptyc (Some ex_set_nat)
       (mismatch_state true)
     = Val (App (cst "sorry") ex_set_nat)
         (set_m_has_errors true
            (set_reported [(ex_mismatch, Some ex_emptyc)] (mismatch_state true)))
  /\ visit_emptyc (X := toy_external plain_visitors) ex_emptyc (Some ex_set_nat)
       (mismatch_state false)
     = Exc ex_mismatch (mismatch_state false).
Proof. repeat split; vm_compute; reflexivity. Qed.

(** *** The two-pass fallback *)

Lemma visit_base_app_core_fallback_witness :
  visit_base_app_core (X := toy_external (failing_first_pass true))
    ex_f Default [ex_zero] false (Some ex_nat) ex_app fallback_state
  = Exc (nested_elaborator_exception ex_app
           (elaborator_exception ex_app (fmt_text "function expected"))
           (switched_to_simple_msg (X := toy_external (failing_first_pass true)) 2%nat
              ex_first_pass_error))
        fallback_state.
Proof.
  exact (proj1 (proj2 (proj2
           (visit_base_app_core_fallback (X := toy_external (failing_first_pass true))
              ex_f [ex_zero] ex_nat ex_app fallback_state
              (set_m_numeral_types [ex_meta_a]
                 (set_m_ctx (toy_assign (mk_string anonymous "a") ex_nat
                               (m_ctx (first_pass_entry fallback_state)))
                    (first_pass_entry fallback_state)))
              ex_first_pass_error eq_refl eq_refl eq_refl)))).
Defined.

(** When the fallback succeeds its result is returned, from the restored
    state. *)
Example fallback_succeeds :
  visit_base_app_core (X := toy_external (failing_first_pass false))
    ex_f Default [ex_zero] false (Some ex_nat) ex_app fallback_state
  = Val ex_app fallback_state.
Proof. vm_compute. reflexivity. Qed.

(** *** Two overloads *)



(** With the plain visitors, whose trials change nothing. *)
Example overload_resolved :
  visit_overloaded_app_core (X := toy_external plain_visitors)
    [ex_f; ex_g] [ex_zero] (Some ex_nat) ex_choice overload_state
  = Val (App ex_f ex_zero) overload_state
  /\ visit_overloaded_app_core (X := toy_external plain_visitors)
       [ex_g; ex_f] [ex_zero] (Some ex_nat) ex_choice overload_state
     = Val (App ex_f ex_zero) overload_state.
Proof. split; vm_compute; reflexivity. Qed.

Example ambiguous_overload :
  visit_overloaded_app_core (X := toy_external plain_visitors)
    [ex_f; ex_g] [ex_zero] (Some ex_nat) ex_choice (toy_state ambiguous_env [] [] true)
  = Exc (elaborator_exception ex_choice
           (fmt_text "ambiguous overload, possible interpretations"
            <+> fmt_nest 2 (fmt_line <+> fmt_pp (App ex_f ex_zero))
            <+> fmt_nest 2 (fmt_line <+> fmt_pp (App ex_g ex_zero))))
      (toy_state ambiguous_env [] [] true).
Proof. vm_compute. reflexivity. Qed.

(** *** The retry of overload resolution *)


(** The retry finds the one candidate whose type fits. *)
Example retry_resolves :
  visit_overloaded_app_with_expected (X := toy_external (failing_first_pass false))
    [ex_f; ex_g] [ex_zero] ex_nat ex_choice retry_start
  = Val (App ex_f ex_zero) retry_start.
Proof. vm_compute. reflexivity. Qed.

(** *** Eliminator applications *)

(** The second argument of [nat.cases_on] is its key argument; given as a
    metavariable it stops the first loop of [visit_elim_app], after the
    motive was replaced by a fresh metavariable. *)
Lemma visit_elim_app_errors_witness :
  exists s',
    visit_elim_app (X := toy_external plain_visitors) 8 ex_cases_on
      (mk_elim_info 3 2 0 [1%nat]) [ex_meta_a; ex_t1] (Some (cst "P0")) ex_app
      (toy_state elim_env [] [] false)
    = Some (Exc (elaborator_exception ex_app
                   (key_has_metavars_msg ex_cases_on
                      (fmt_nest 2 (fmt_line <+> fmt_pp ex_meta_a))))
              s').
Proof.
  eexists.
  refine (proj1 (proj2 (proj2 (proj2 (proj2 (proj2
            (visit_elim_app_errors (X := toy_external plain_visitors)))))))
            8%nat ex_cases_on (mk_elim_info 3 2 0 [1%nat]) [ex_meta_a; ex_t1] (cst "P0")
            ex_app (toy_state elim_env [] [] false) _ _ _ _ _ _ _ _ _
            eq_refl eq_refl eq_refl eq_refl eq_refl _).
  vm_compute. reflexivity.
Defined.

(** An expected type that keeps a metavariable. *)
Example expected_type_with_metavariable :
  visit_elim_app (X := toy_external plain_visitors) 8 ex_cases_on ex_cases_on_info
    [ex_zero; ex_t1; ex_t1] (Some ex_goal) ex_app elim_state
  = Some (Exc (elaborator_exception ex_app
                 (expected_type_has_metavars_msg ex_cases_on
                    (fmt_nest 2 (fmt_line <+> fmt_pp ex_goal))))
            elim_state).
Proof. vm_compute. reflexivity. Qed.

(** A key argument that keeps a metavariable. *)
Example key_argument_with_metavariable :
  elim_key_arg (X := toy_external plain_visitors) ex_cases_on ex_app [] ex_nat ex_meta_a
    elim_state
  = Exc (elaborator_exception ex_app
           (key_has_metavars_msg ex_cases_on (fmt_nest 2 (fmt_line <+> fmt_pp ex_meta_a))))
      elim_state.
Proof. vm_compute. reflexivity. Qed.

(** Against a known expected type free of metavariables the application is
    elaborated: the motive is computed and the postponed argument filled
    in. *)
Example eliminator_application :
  exists s',
    visit_elim_app (X := toy_external plain_visitors) 8 ex_cases_on (mk_elim_info 3 2 0 [1%nat])
      [ex_zero; ex_t1] (Some (cst "P0")) ex_app (toy_state elim_env [] [] false)
    = Some (Val (mk_app ex_cases_on [mk_lambda "_x" Type1 (cst "P0"); ex_zero; ex_t1]) s').
Proof. eexists. vm_compute. reflexivity. Qed.

(** *** Anonymous constructors *)

Lemma visit_anonymous_constructor_errors_witness :
  exists msg,
    visit_anonymous_constructor (X := toy_external plain_visitors) ex_anonymous (Some ex_nat)
      ctor_state
    = Exc (elaborator_exception ex_anonymous msg) ctor_state.
Proof.
  refine (proj2 (proj2 (visit_anonymous_constructor_errors (X := toy_external plain_visitors)))
            ex_anonymous ex_nat ctor_state ex_nat ctor_state ex_nat ctor_state
            eq_refl eq_refl _).
  right. right. right. vm_compute. discriminate.
Defined.

Example anonymous_constructor_of_pair :
  visit_anonymous_constructor (X := toy_external plain_visitors) ex_anonymous
    (Some (mk_app (cst "prod") [ex_nat; ex_nat])) ctor_state
  = Val (mk_app (Constant (mk_string (mk_string anonymous "prod") "mk") []) [ex_zero; ex_t1])
      ctor_state.
Proof. vm_compute. reflexivity. Qed.

Example anonymous_constructor_private :
  visit_anonymous_constructor (X := toy_external plain_visitors) ex_anonymous
    (Some (cst "secret")) ctor_state
  = Exc (elaborator_exception ex_anonymous
           (fmt_text "invalid constructor ⟨...⟩, type is a private inductive datatype"))
      ctor_state.
Proof. vm_compute. reflexivity. Qed.

(** *** The registry of unification hints *)

Lemma string_compare_refl (s : string) : String.compare s s = Eq.
Proof.
  pose proof (String.compare_antisym s s) as Hs.
  destruct (String.compare s s); try reflexivity; discriminate.
Qed.

Lemma part_cmp_antisym (a b : string + N) : part_cmp b a = CompOpp (part_cmp a b).
Proof.
  destruct a as [s|m], b as [t|n]; cbn; try reflexivity.
  - apply String.compare_antisym.
  - apply N.compare_antisym.
Qed.

Lemma part_cmp_eq (a b : string + N) : part_cmp a b = Eq <-> a = b.
Proof.
  destruct a as [s|m], b as [t|n]; cbn; split; intros Hc; try discriminate.
  - apply String.compare_eq_iff in Hc. congruence.
  - injection Hc as ->. apply string_compare_refl.
  - apply N.compare_eq_iff in Hc. congruence.
  - injection Hc as ->. apply N.compare_refl.
Qed.

Lemma lex_cmp_antisym (l1 l2 : list (string + N)) : lex_cmp l2 l1 = CompOpp (lex_cmp l1 l2).
Proof.
  revert l2. induction l1 as [|x l1 IH]; intros [|y l2]; cbn; try reflexivity.
  rewrite (part_cmp_antisym x y). destruct (part_cmp x y); cbn; auto.
Qed.

Lemma lex_cmp_eq (l1 l2 : list (string + N)) : lex_cmp l1 l2 = Eq <-> l1 = l2.
Proof.
  revert l2. induction l1 as [|x l1 IH]; intros [|y l2]; cbn; split; intros Hc;
    try discriminate; try reflexivity.
  - destruct (part_cmp x y) eqn:Hp; try discriminate.
    apply part_cmp_eq in Hp. apply IH in Hc. congruence.
  - injection Hc as -> ->. rewrite (proj2 (part_cmp_eq y y) eq_refl). apply IH. reflexivity.
Qed.

Lemma name_cmp_eq (a b : name) : name_cmp a b = Eq <-> a = b.
Proof.
  unfold name_cmp. rewrite lex_cmp_eq. split; [|congruence].
  intros Hr. apply (f_equal (@rev _)) in Hr. rewrite !rev_involutive in Hr.
  apply (f_equal name_of_parts) in Hr. rewrite !name_of_parts_name_parts in Hr. exact Hr.
Qed.

Lemma lex_quick_cmp_antisym (a b : name) : 0 < lex_quick_cmp a b <-> lex_quick_cmp b a < 0.
Proof.
  unfold lex_quick_cmp, name_cmp. rewrite (lex_cmp_antisym (rev (name_parts a))).
  destruct (lex_cmp _ _); cbn; lia.
Qed.

Lemma lex_quick_cmp_eq (a b : name) : lex_quick_cmp a b = 0 <-> a = b.
Proof.
  rewrite <- name_cmp_eq. unfold lex_quick_cmp. destruct (name_cmp a b); split;
    intros; try discriminate; try reflexivity; lia.
Qed.

(** [nat.add] comes before [nat.succ]: the sides are swapped, and the hint
    is found from either order of the two heads. *)
Example hint_registered :
  get_unification_hints (H := toy_hint_external) ex_registry
    (const_name ex_succ) (const_name ex_add) [] = [ex_hint]
  /\ get_unification_hints (H := toy_hint_external) ex_registry
       (const_name ex_add) (const_name ex_succ) [] = [ex_hint].
Proof. split; vm_compute; reflexivity. Qed.

(** The registration of the hint, and its lookup from either order of the
    two heads. *)
Lemma hint_registry_keying_witness :
  exists st',
    register_hint (H := toy_hint_external) empty_env (mk_string anonymous "succ_add_hint")
      ex_hint_value 1000 empty_registry
    = Val tt st'
    /\ m_hints st' !! (const_name ex_add, const_name ex_succ) = Some [(ex_hint, 1000%nat)]
    /\ get_unification_hints (H := toy_hint_external) (m_hints st')
         (const_name ex_succ) (const_name ex_add) [] = [ex_hint]
    /\ get_unification_hints (H := toy_hint_external) (m_hints st')
         (const_name ex_add) (const_name ex_succ) [] = [ex_hint].
Proof.
  destruct (proj2 (proj2 (proj2 (hint_registry_keying (H := toy_hint_external)
                                   lex_quick_cmp_antisym lex_quick_cmp_eq)))
              empty_env (mk_string anonymous "succ_add_hint") ex_hint_value 1000%nat
              empty_registry _ _ _ _ _ _ _ _
              eq_refl eq_refl eq_refl eq_refl eq_refl eq_refl eq_refl)
    as (st' & Hr & _ & Hl & _ & _ & Hg1 & Hg2).
  exists st'. exact (conj Hr (conj Hl (conj Hg1 Hg2))).
Defined.

End Examples.

(** * Further properties

    Properties of the functions of the second part, and of the first part
    beyond what the sections above state. *)

Section CoercionProperties.
Context {C : Carriers} {X : External} {K : CoercionExternal}.

Lemma frame_refl (s : elab_state) : frame s s.
Proof. exists (m_ctx s). destruct s; reflexivity. Qed.

Lemma frame_trans (s1 s2 s3 : elab_state) : frame s1 s2 -> frame s2 s3 -> frame s1 s3.
Proof. intros [c1 ->] [c2 ->]. exists c2. reflexivity. Qed.

Lemma frame_lift_ctx {A} (m : M type_context A) (s : elab_state) :
  frame s (outcome_state (lift_ctx m s)).
Proof. unfold lift_ctx. destruct (m (m_ctx s)); eexists; reflexivity. Qed.

Lemma frame_bind {A B} (m : M elab_state A) (k : A -> M elab_state B) (s : elab_state) :
  frame s (outcome_state (m s)) ->
  (forall a s1, m s = Val a s1 -> frame s1 (outcome_state (k a s1))) ->
  frame s (outcome_state (bind m k s)).
Proof.
  intros Hm Hk. unfold bind. destruct (m s) as [a s1|ex s1] eqn:Hms; [|exact Hm].
  eapply frame_trans; [exact Hm|]. apply Hk. reflexivity.
Qed.

Lemma frame_is_def_eq (e1 e2 : expr) (s : elab_state) :
  frame s (outcome_state (is_def_eq e1 e2 s)).
Proof.
  unfold is_def_eq, finally, try_catch, lift_ctx, ret. cbn.
  destruct (tc_is_def_eq e1 e2 _) as [b c|ex c]; cbn.
  - eexists. reflexivity.
  - destruct (is_lean_exception ex); cbn; eexists; reflexivity.
Qed.

Lemma try_is_def_eq_unfold (e1 e2 : expr) (s : elab_state) :
  try_is_def_eq e1 e2 s = is_def_eq e1 e2 s.
Proof.
  unfold try_is_def_eq, bind, gets, flet_recover_from_errors, finally, try_catch.
  unfold is_def_eq, finally, try_catch, lift_ctx, ret. cbn.
  destruct (tc_is_def_eq e1 e2 _) as [b c|ex c]; cbn.
  - destruct s; reflexivity.
  - destruct (is_lean_exception ex) eqn:Hl; cbn; rewrite ?Hl; destruct s; reflexivity.
Qed.

(** X1.  [try_is_def_eq] is [is_def_eq]: whatever the answer, the snapshot taken
    on entry is not restored, so what a failed unification assigned stays
    assigned; the recovery flag is as before. *)
Theorem try_is_def_eq_is_def_eq (e1 e2 : expr) (s : elab_state) :
  try_is_def_eq e1 e2 s = is_def_eq e1 e2 s.
Proof. exact (try_is_def_eq_unfold e1 e2 s). Qed.

Lemma frame_mk_coercion_to_fn_sort (is_fn : bool) (e t ref : expr) (s : elab_state) :
  frame s (outcome_state (mk_coercion_to_fn_sort is_fn e t ref s)).
Proof.
  unfold mk_coercion_to_fn_sort. apply frame_bind; [apply frame_refl|].
  intros coercions s1 _. destruct coercions; cbn [negb]; [|apply frame_refl].
  apply frame_bind; [apply frame_lift_ctx|].
  intros e_type s2 _. destruct (has_expr_metavar e_type); cbn [negb]; [apply frame_refl|].
  unfold try_catch.
  match goal with |- frame _ (outcome_state (match ?m with _ => _ end)) =>
    assert (Hb : frame s2 (outcome_state m)); [|destruct m as [r s3|ex s3]]
  end.
  - apply frame_bind; [apply frame_lift_ctx|]. intros new_e s3 _.
    apply frame_bind; [apply frame_lift_ctx|]. intros t' s4 _.
    apply frame_bind; [apply frame_lift_ctx|]. intros T s5 _.
    destruct (_ || _); apply frame_refl.
  - exact Hb.
  - destruct (is_app_builder_exception ex); exact Hb.
Qed.

Lemma mk_coercion_to_fn_sort_val (is_fn : bool) (e _e_type ref : expr) (s : elab_state)
    (r : expr) (s' : elab_state) :
  mk_coercion_to_fn_sort is_fn e _e_type ref s = Val (Some r) s' ->
  m_coercions s = true
  /\ frame s s'
  /\ exists e_type s1 s2 t s3 T,
       instantiate_mvars _e_type s = Val e_type s1
       /\ has_expr_metavar e_type = false
       /\ lift_ctx (ab_mk_app_mask (if is_fn then get_coe_fn_name else get_coe_sort_name)
                      [true; false; true] [e_type; e]) s1 = Val r s2
       /\ infer_type r s2 = Val t s3
       /\ whnf t s3 = Val T s'
       /\ (if is_fn then is_pi T else is_sort T) = true.
Proof.
  intros Hr. split; [|split].
  - unfold mk_coercion_to_fn_sort, bind, gets in Hr.
    destruct (m_coercions s); [reflexivity|discriminate].
  - pose proof (frame_mk_coercion_to_fn_sort is_fn e _e_type ref s) as Hf.
    rewrite Hr in Hf. exact Hf.
  - unfold mk_coercion_to_fn_sort in Hr. unfold bind at 1 in Hr. unfold gets in Hr.
    destruct (m_coercions s); cbn [negb] in Hr; [|discriminate].
    unfold bind at 1 in Hr.
    destruct (instantiate_mvars _e_type s) as [e_type s1|] eqn:Hi; [|discriminate].
    destruct (has_expr_metavar e_type) eqn:Hm; cbn [negb] in Hr; [discriminate|].
    unfold try_catch in Hr. unfold bind at 1 in Hr.
    destruct (lift_ctx (ab_mk_app_mask _ _ _) s1) as [new_e s2|ex s2] eqn:Ha.
    2:{ destruct (is_app_builder_exception ex); discriminate. }
    unfold bind at 1 in Hr.
    destruct (infer_type new_e s2) as [t s3|ex s3] eqn:Ht.
    2:{ destruct (is_app_builder_exception ex); discriminate. }
    unfold bind at 1 in Hr.
    destruct (whnf t s3) as [T s4|ex s4] eqn:Hw.
    2:{ destruct (is_app_builder_exception ex); discriminate. }
    destruct ((is_fn && is_pi T) || (negb is_fn && is_sort T)) eqn:Hk; [|discriminate].
    unfold ret in Hr. injection Hr as <- <-.
    assert (Hk' : (if is_fn then is_pi T else is_sort T) = true).
    { destruct is_fn; cbn in Hk; [rewrite orb_false_r in Hk|]; exact Hk. }
    exists e_type, s1, s2, t, s3, T. auto 10.
Qed.

(** X2.  A coercion to a function or to a sort is returned only with coercions
    enabled, for a type free of metavariables once instantiated, and only if
    the type of the coercion application reduces to a function type (to a
    sort); building it changes nothing but the checker. *)
Theorem mk_coercion_to_fn_sort_some (is_fn : bool) (e _e_type ref : expr) (s : elab_state)
    (r : expr) (s' : elab_state) :
  mk_coercion_to_fn_sort is_fn e _e_type ref s = Val (Some r) s' ->
  m_coercions s = true
  /\ frame s s'
  /\ exists e_type s1 s2 t s3 T,
       instantiate_mvars _e_type s = Val e_type s1
       /\ has_expr_metavar e_type = false
       /\ lift_ctx (ab_mk_app_mask (if is_fn then get_coe_fn_name else get_coe_sort_name)
                      [true; false; true] [e_type; e]) s1 = Val r s2
       /\ infer_type r s2 = Val t s3
       /\ whnf t s3 = Val T s'
       /\ (if is_fn then is_pi T else is_sort T) = true.
Proof. exact (mk_coercion_to_fn_sort_val is_fn e _e_type ref s r s'). Qed.

Lemma ensure_function_post :
  (forall e ref s t s1 e_type s2,
      infer_type e s = Val t s1 -> whnf t s1 = Val e_type s2 -> is_pi e_type = true ->
      ensure_function e ref s = Val e s2)
  /\ (forall e ref s r s',
        ensure_function e ref s = Val r s' ->
        exists sa t sb T, infer_type r sa = Val t sb /\ whnf t sb = Val T s' /\ is_pi T = true)
  /\ (forall e ref s, frame s (outcome_state (ensure_function e ref s)))
  /\ (forall e ref s t s1 e_type s2,
        infer_type e s = Val t s1 -> whnf t s1 = Val e_type s2 -> is_pi e_type = false ->
        m_coercions s = false ->
        ensure_function e ref s
        = Exc (elaborator_exception ref
                 (fmt_text "function expected at"
                  <+> fmt_nest (get_pp_indent (m_opts s2)) (fmt_line <+> fmt_pp e))) s2).
Proof.
  split; [|split; [|split]].
  - intros e ref s t s1 e_type s2 Hi Hw Hp. unfold ensure_function, bind.
    rewrite Hi, Hw, Hp. reflexivity.
  - intros e ref s r s'. unfold ensure_function. unfold bind at 1.
    destruct (infer_type e s) as [t s1|] eqn:Hi; [|discriminate].
    unfold bind at 1. destruct (whnf t s1) as [e_type s2|] eqn:Hw; [|discriminate].
    destruct (is_pi e_type) eqn:Hp.
    + unfold ret. intros [= <- <-]. eauto 8.
    + unfold bind at 1.
      destruct (mk_coercion_to_fn e e_type ref s2) as [[r'|] s3|] eqn:Hc; try discriminate.
      unfold ret. intros [= <- <-].
      apply (mk_coercion_to_fn_sort_val true e e_type ref) in Hc
        as (_ & _ & e_type' & sa & sb & t' & sc & T & _ & _ & _ & Ht & HT & Hk).
      exists sb, t', sc, T. auto.
  - intros e ref s. unfold ensure_function.
    apply frame_bind; [apply frame_lift_ctx|]. intros t s1 _.
    apply frame_bind; [apply frame_lift_ctx|]. intros e_type s2 _.
    destruct (is_pi e_type); [apply frame_refl|].
    apply frame_bind; [apply frame_mk_coercion_to_fn_sort|]. intros [r|] s3 _;
      apply frame_refl.
  - intros e ref s t s1 e_type s2 Hi Hw Hp Hc. unfold ensure_function, bind.
    rewrite Hi, Hw, Hp.
    assert (Hc2 : m_coercions s2 = false).
    { pose proof (frame_lift_ctx (tc_infer e) s) as [c1 H1]. fold (infer_type e) in H1.
      rewrite Hi in H1. cbn in H1.
      pose proof (frame_lift_ctx (tc_whnf t) s1) as [c2 H2]. fold (whnf t) in H2.
      rewrite Hw in H2. cbn in H2. subst. exact Hc. }
    unfold mk_coercion_to_fn, mk_coercion_to_fn_sort, bind, gets. rewrite Hc2. reflexivity.
Qed.

(** X3.  [ensure_function]:
    - a term whose type reduces to a function type is returned as it is;
    - whatever is returned has a type that reduces to a function type;
    - nothing but the checker changes, on return or on failure: a failure is
      an exception whatever the recovery flag says, never a diagnostic;
    - with coercions disabled, a term whose type does not reduce to a
      function type is refused. *)
Theorem ensure_function_spec :
  (forall e ref s t s1 e_type s2,
      infer_type e s = Val t s1 -> whnf t s1 = Val e_type s2 -> is_pi e_type = true ->
      ensure_function e ref s = Val e s2)
  /\ (forall e ref s r s',
        ensure_function e ref s = Val r s' ->
        exists sa t sb T, infer_type r sa = Val t sb /\ whnf t sb = Val T s' /\ is_pi T = true)
  /\ (forall e ref s, frame s (outcome_state (ensure_function e ref s)))
  /\ (forall e ref s t s1 e_type s2,
        infer_type e s = Val t s1 -> whnf t s1 = Val e_type s2 -> is_pi e_type = false ->
        m_coercions s = false ->
        ensure_function e ref s
        = Exc (elaborator_exception ref
                 (fmt_text "function expected at"
                  <+> fmt_nest (get_pp_indent (m_opts s2)) (fmt_line <+> fmt_pp e))) s2).
Proof. exact (ensure_function_post). Qed.

Lemma report_or_throw_spec (ex_ref : expr) (msg : format) (s : elab_state) :
  report_or_throw ex_ref msg s
  = if can_recover s then Val tt (report_diagnostic (elaborator_exception ex_ref msg) None s)
    else Exc (elaborator_exception ex_ref msg) s.
Proof.
  unfold report_or_throw, bind, try_report, can_recover.
  destruct (m_recover_from_errors s), (pos_info_provider s); reflexivity.
Qed.

Lemma recoverable_error_spec (expected_type : option expr) (ref ex_ref : expr) (msg : format)
    (s : elab_state) :
  recoverable_error expected_type ref ex_ref msg s
  = if can_recover s
    then mk_sorry expected_type ref
           (report_diagnostic (elaborator_exception ex_ref msg) None s)
    else Exc (elaborator_exception ex_ref msg) s.
Proof.
  unfold recoverable_error. unfold bind at 1. rewrite report_or_throw_spec.
  destruct (can_recover s); reflexivity.
Qed.


(** X5.  [enforce_type]:
    - a term whose inferred type the checker accepts against the expected
      type is returned as it is;
    - more generally what [ensure_has_type] returns is returned;
    - when [ensure_has_type] finds nothing the error is recoverable: it is
      reported and a placeholder of the expected type is returned, or it is
      thrown, with a message that starts with the caller's header. *)
Theorem enforce_type_spec :
  (forall e expected_type header ref s e_type s1 c',
      infer_type e s = Val e_type s1 ->
      tc_is_def_eq e_type expected_type (set_approximate true (m_ctx s1)) = Val true c' ->
      enforce_type e expected_type header ref s
      = Val e (set_m_ctx (set_approximate (tc_approximate (m_ctx s1)) c') s1))
  /\ (forall e expected_type header ref s e_type s1 r s2,
        infer_type e s = Val e_type s1 ->
        ensure_has_type e e_type expected_type ref s1 = Val (Some r) s2 ->
        enforce_type e expected_type header ref s = Val r s2)
  /\ (forall e expected_type header ref s e_type s1 s2,
        infer_type e s = Val e_type s1 ->
        ensure_has_type e e_type expected_type ref s1 = Val None s2 ->
        let indented x := fmt_nest (get_pp_indent (m_opts s2)) (fmt_line <+> fmt_pp x) in
        let ex := elaborator_exception ref
                    (enforce_type_msg header (indented e) (indented e_type)
                       (indented expected_type)) in
        enforce_type e expected_type header ref s
        = if can_recover s2
          then Val (lib_mk_sorry expected_type) (report_diagnostic ex None s2)
          else Exc ex s2).
Proof.
  split; [|split].
  - intros e expected_type header ref s e_type s1 c' Hi Hd. unfold enforce_type.
    unfold bind at 1. rewrite Hi. unfold bind at 1.
    unfold ensure_has_type. unfold bind at 1.
    rewrite (is_def_eq_checker e_type expected_type s1 true c' Hd). reflexivity.
  - intros e expected_type header ref s e_type s1 r s2 Hi He. unfold enforce_type, bind.
    rewrite Hi, He. reflexivity.
  - intros e expected_type header ref s e_type s1 s2 Hi He.
    cbn zeta. unfold enforce_type. unfold bind at 1. rewrite Hi.
    unfold bind at 1. rewrite He.
    unfold bind, pp_indent, bind, gets, ret. rewrite recoverable_error_spec.
    destruct (can_recover s2); reflexivity.
Qed.

(** X6.  [get_level]:
    - for a type whose type reduces to a sort, the level of that sort, with
      no universe metavariable made;
    - for a type whose type reduces to a term headed by a metavariable (a
      metavariable, or one applied to arguments), a new universe
      metavariable when that term unifies with its sort;
    - an error in every other case, the failed unification included. *)
Theorem elaborator_get_level_spec :
  (forall A ref s t s1 A_type s2,
      infer_type A s = Val t s1 -> whnf t s1 = Val A_type s2 -> is_sort A_type = true ->
      elaborator_get_level A ref s = Val (sort_level A_type) s2)
  /\ (forall A ref s t s1 A_type s2 l s3 s4,
        infer_type A s = Val t s1 -> whnf t s1 = Val A_type s2 ->
        is_meta A_type = true ->
        mk_univ_metavar s2 = Val l s3 ->
        is_def_eq A_type (mk_sort l) s3 = Val true s4 ->
        elaborator_get_level A ref s = Val l s4)
  /\ (forall A ref s t s1 A_type s2 l s3 s4,
        infer_type A s = Val t s1 -> whnf t s1 = Val A_type s2 ->
        is_meta A_type = true ->
        mk_univ_metavar s2 = Val l s3 ->
        is_def_eq A_type (mk_sort l) s3 = Val false s4 ->
        elaborator_get_level A ref s
        = Exc (elaborator_exception ref
                 (fmt_text "type expected at"
                  <+> fmt_nest (get_pp_indent (m_opts s4)) (fmt_line <+> fmt_pp A))) s4)
  /\ (forall A ref s t s1 A_type s2,
        infer_type A s = Val t s1 -> whnf t s1 = Val A_type s2 ->
        is_sort A_type = false -> is_meta A_type = false ->
        elaborator_get_level A ref s
        = Exc (elaborator_exception ref
                 (fmt_text "type expected at"
                  <+> fmt_nest (get_pp_indent (m_opts s2)) (fmt_line <+> fmt_pp A))) s2).
Proof.
  assert (Hns : forall A_type, is_meta A_type = true -> is_sort A_type = false).
  { intros A_type Hm. destruct A_type; try reflexivity. discriminate Hm. }
  split; [|split; [|split]].
  - intros A ref s t s1 A_type s2 Hi Hw Hs. unfold elaborator_get_level, bind.
    rewrite Hi, Hw, Hs. reflexivity.
  - intros A ref s t s1 A_type s2 l s3 s4 Hi Hw Hm Hu Hd. unfold elaborator_get_level.
    unfold bind at 1. rewrite Hi. unfold bind at 1. rewrite Hw, (Hns _ Hm), Hm.
    unfold bind at 1. unfold bind at 1. rewrite Hu. unfold bind at 1.
    rewrite try_is_def_eq_unfold, Hd. reflexivity.
  - intros A ref s t s1 A_type s2 l s3 s4 Hi Hw Hm Hu Hd. unfold elaborator_get_level.
    unfold bind at 1. rewrite Hi. unfold bind at 1. rewrite Hw, (Hns _ Hm), Hm.
    unfold bind at 1. unfold bind at 1. rewrite Hu. unfold bind at 1.
    rewrite try_is_def_eq_unfold, Hd. reflexivity.
  - intros A ref s t s1 A_type s2 Hi Hw Hs Hm. unfold elaborator_get_level.
    unfold bind at 1. rewrite Hi. unfold bind at 1. rewrite Hw, Hs, Hm. reflexivity.
Qed.

End CoercionProperties.

Section RecoveryProperties.
Context {C : Carriers} {X : External}.

(** X7.  A failed class-instance search ([mk_instance_core]) is a recoverable
    error: with recovery enabled and position information the diagnostic is
    recorded and the placeholder [sorry] of the class itself stands for the
    instance; otherwise the error is thrown. *)
Theorem mk_instance_core_failure (lctx : local_context) (C_ ref : expr) (s : elab_state)
    (c' : type_context) :
  tc_mk_class_instance_at lctx C_ (m_ctx s) = Val None c' ->
  let s1 := set_m_ctx c' s in
  let ex := elaborator_exception ref
              (fmt_text "failed to synthesize type class instance for"
               <+> fmt_line <+> fmt_goal C_) in
  mk_instance_core lctx C_ ref s
  = if can_recover s
    then Val (lib_mk_sorry C_) (report_diagnostic ex None s1)
    else Exc ex s1.
Proof.
  intros Hc s1 ex. unfold mk_instance_core, bind, lift_ctx. rewrite Hc.
  rewrite recoverable_error_spec. fold s1. fold ex.
  replace (can_recover s1) with (can_recover s) by reflexivity.
  destruct (can_recover s); reflexivity.
Qed.

(** X8.  Snapshots.  Restoring the snapshot just taken changes nothing; the
    snapshot of a restored state is the snapshot restored; restoring twice is
    restoring once.  A restore brings back the metavariable context, the
    info manager and the four pending lists only: the diagnostics reported
    since, the error flag, the recovery flag, the environment, the options
    and the local context stay as they are. *)
Theorem snapshot_round_trip :
  (forall s, restore (take_snapshot s) s = s)
  /\ (forall S_ s, take_snapshot (restore S_ s) = S_)
  /\ (forall S_ s, restore S_ (restore S_ s) = restore S_ s)
  /\ (forall S_ s,
        reported (restore S_ s) = reported s
        /\ m_has_errors (restore S_ s) = m_has_errors s
        /\ m_recover_from_errors (restore S_ s) = m_recover_from_errors s
        /\ m_env (restore S_ s) = m_env s
        /\ m_opts (restore S_ s) = m_opts s
        /\ tc_lctx (m_ctx (restore S_ s)) = tc_lctx (m_ctx s)
        /\ tc_rest (m_ctx (restore S_ s)) = tc_rest (m_ctx s)).
Proof.
  split; [|split; [|split]].
  - intros [? ? [? ? ? ? ?] ? ? ? ? ? ? ? ? ? ? ? ? ?]. reflexivity.
  - intros [] s. reflexivity.
  - intros S_ s. reflexivity.
  - intros S_ s. repeat split.
Qed.

End RecoveryProperties.

Section WorklistProperties.
Context {C : Carriers} {X : External}.












End WorklistProperties.

Section RegistryProperties.
Context {C : Carriers} {H : HintExternal} {O : HintOrderExternal}.

(** X10.  A registration that fails leaves the hints as they were; the priority
    of the declaration is recorded all the same, since that is the first
    thing [register_hint] does.  What is thrown is a [lean::exception]. *)
Theorem register_hint_failure (env : environment) (decl_name : name) (value : expr)
    (priority : nat) (st : unification_hint_state) (ex : exn) (st' : unification_hint_state) :
  register_hint env decl_name value priority st = Exc ex st' ->
  m_hints st' = m_hints st
  /\ m_decl_names_to_prio st' = <[decl_name := priority]> (m_decl_names_to_prio st)
  /\ exists what, ex = lean_exception generic_exception what.
Proof.
  unfold register_hint. unfold bind at 1. unfold modify at 1.
  destruct (hint_binders value 0 [] (mk_tmp_type_context env))
    as [[[e_hint num_vars] tmp_mvars] ctx].
  unfold hint_exception, throw.
  destruct (negb (is_app_of e_hint get_unification_hint_mk_name 2)).
  { intros [= <- <-]. cbn. eauto. }
  destruct (negb (is_constant _) || negb (is_constant _)).
  { intros [= <- <-]. cbn. eauto. }
  destruct (swap_if_greater _ _ _ _) as [[[lf rf] l] r].
  destruct (hint_constraints _ tmp_mvars [] 1 ctx) as [[[e_c cs] ctx']|eqidx].
  2:{ intros [= <- <-]. cbn. eauto. }
  destruct (negb (is_app_of e_c get_list_nil_name 1)).
  { intros [= <- <-]. cbn. eauto. }
  destruct (tmp_is_def_eq _ _ ctx') as [[|] ctx'']; cbn [negb].
  - unfold modify. discriminate.
  - intros [= <- <-]. cbn. eauto.
Qed.

(** X11.  A registration that succeeds records the priority of the declaration
    and touches one entry of the registry: the hints found for any two names
    whose ordered pair is not that of the heads of the new hint are those
    found before.  An empty registry has no hint for any two names. *)
Theorem register_hint_frame (env : environment) (decl_name : name) (value : expr)
    (priority : nat) (st st' : unification_hint_state) :
  register_hint env decl_name value priority st = Val tt st' ->
  m_decl_names_to_prio st' = <[decl_name := priority]> (m_decl_names_to_prio st)
  /\ (forall n1 n2 uhints,
        ordered_pair n1 n2 <> ordered_pair (lhs_head value) (rhs_head value) ->
        get_unification_hints (m_hints st') n1 n2 uhints
        = get_unification_hints (m_hints st) n1 n2 uhints)
  /\ (forall n1 n2 uhints, get_unification_hints ∅ n1 n2 uhints = uhints).
Proof.
  intros Hr. split; [|split].
  - revert Hr. unfold register_hint. unfold bind at 1. unfold modify at 1.
    destruct (hint_binders value 0 [] (mk_tmp_type_context env))
      as [[[e_hint num_vars] tmp_mvars] ctx].
    unfold hint_exception, throw.
    destruct (negb (is_app_of e_hint get_unification_hint_mk_name 2)); [discriminate|].
    destruct (negb (is_constant _) || negb (is_constant _)); [discriminate|].
    destruct (swap_if_greater _ _ _ _) as [[[lf rf] l] r].
    destruct (hint_constraints _ tmp_mvars [] 1 ctx) as [[[e_c cs] ctx']|eqidx];
      [|discriminate].
    destruct (negb (is_app_of e_c get_list_nil_name 1)); [discriminate|].
    destruct (tmp_is_def_eq _ _ ctx') as [[|] ctx'']; cbn [negb]; [|discriminate].
    unfold modify. intros [= <-]. reflexivity.
  - intros n1 n2 uhints Hne.
    destruct (register_hint_stores _ _ _ _ _ _ Hr) as (hint & _ & _ & Hst). cbn zeta in Hst.
    rewrite !get_unification_hints_key, Hst.
    rewrite lookup_insert_ne by congruence. reflexivity.
  - intros n1 n2 uhints. rewrite get_unification_hints_key, lookup_empty.
    apply app_nil_r.
Qed.

(** X12.  [unification_hint_cmp] does not look at the number of variables of a
    hint, and compares the constraints up to the end of the shorter list
    only: two hints with the same sides, one with the constraints of the
    other and more, compare as equal. *)
Theorem unification_hint_cmp_prefix (lhs rhs : expr) (cs more : list expr_pair) (n1 n2 : nat) :
  (forall p, expr_pair_quick_cmp p p = 0) ->
  expr_neq lhs lhs = false -> expr_neq rhs rhs = false ->
  unification_hint_cmp (mk_unification_hint lhs rhs cs n1)
    (mk_unification_hint lhs rhs (cs ++ more) n2) = 0
  /\ unification_hint_cmp (mk_unification_hint lhs rhs (cs ++ more) n2)
       (mk_unification_hint lhs rhs cs n1) = 0.
Proof.
  intros Hrefl Hl Hr. unfold unification_hint_cmp. cbn. rewrite Hl, Hr.
  split; induction cs as [|p cs IH]; cbn; try reflexivity.
  - rewrite Hrefl. cbn. exact IH.
  - destruct more; reflexivity.
  - rewrite Hrefl. cbn. exact IH.
Qed.

(** X13.  [add_unification_hint] refuses a declaration that is no definition, and
    [add_entry] one whose type does not end in [unification_hint], before
    the registry is touched: the state at the throw is the state before.
    An accepted declaration is registered by its value. *)
Theorem add_unification_hint_rejects :
  (forall env decl_name prio st,
      decl_is_definition env decl_name = false ->
      exists what,
        add_unification_hint env decl_name prio st
        = Exc (lean_exception generic_exception what) st)
  /\ (forall env decl_name prio st,
        is_app_of (strip_pis (decl_type env decl_name)) get_unification_hint_name 0 = false ->
        exists what,
          add_entry env decl_name prio st = Exc (lean_exception generic_exception what) st)
  /\ (forall env decl_name prio st,
        decl_is_definition env decl_name = true ->
        is_app_of (strip_pis (decl_type env decl_name)) get_unification_hint_name 0 = true ->
        add_unification_hint env decl_name prio st
        = register_hint env decl_name (decl_value env decl_name) prio st).
Proof.
  split; [|split].
  - intros env decl_name prio st Hd. unfold add_unification_hint. rewrite Hd. cbn.
    eexists. reflexivity.
  - intros env decl_name prio st Ht. unfold add_entry, bind, validate_type. rewrite Ht. cbn.
    eexists. reflexivity.
  - intros env decl_name prio st Hd Ht. unfold add_unification_hint. rewrite Hd. cbn.
    unfold add_entry, bind, validate_type. rewrite Ht. reflexivity.
Qed.

End RegistryProperties.

Section NumeralProperties.
Context {C : Carriers} {X : External} {N : NumeralExternal}.

Lemma convert_value (one S_one S_add A : expr) (ls : list level) (v : positive) :
  numeral_value one = Some 1 ->
  numeral_value (convert one S_one S_add A ls v) = Some (Z.pos v).
Proof.
  intros Hone. induction v as [p IH|p IH|]; cbn [convert].
  - cbn. cbn in IH. rewrite IH. reflexivity.
  - cbn. cbn in IH. rewrite IH. reflexivity.
  - exact Hone.
Qed.

(** X14.  The numeral [visit_prenum] builds for a pre-numeral of value [v >= 0]
    denotes [v]: [zero] for 0, [one] for 1, and above that the binary
    representation of [v] in [bit0] and [bit1] over [one]. *)
Theorem visit_prenum_value (e : expr) (expected_type : option expr) (s : elab_state)
    (r : expr) (s' : elab_state) :
  visit_prenum e expected_type s = Val r s' ->
  0 <= prenum_value e ->
  numeral_value r = Some (prenum_value e).
Proof.
  unfold visit_prenum. intros Hr Hv. unfold bind at 1 in Hr.
  destruct (prenum_type e expected_type s) as [A s1|]; [|discriminate].
  unfold prenum_numeral in Hr. unfold bind at 1 in Hr.
  destruct (elaborator_get_level A e s1) as [A_lvl s2|]; [|discriminate].
  unfold bind at 1 in Hr.
  destruct (dec_level A_lvl e s2) as [l s3|]; [|discriminate].
  destruct (prenum_value e <? 0) eqn:Hneg; [apply Z.ltb_lt in Hneg; lia|].
  destruct (prenum_value e =? 0) eqn:H0.
  { apply Z.eqb_eq in H0. rewrite H0. unfold bind at 1 in Hr.
    destruct (mk_instance _ e s3) as [S_ s4|]; [|discriminate].
    unfold ret in Hr. injection Hr as <- <-. reflexivity. }
  unfold bind at 1 in Hr.
  destruct (mk_instance _ e s3) as [S_one s4|]; [|discriminate].
  destruct (prenum_value e =? 1) eqn:H1.
  { apply Z.eqb_eq in H1. rewrite H1. unfold ret in Hr. injection Hr as <- <-. reflexivity. }
  unfold bind at 1 in Hr.
  destruct (mk_instance _ e s4) as [S_add s5|]; [|discriminate].
  unfold ret in Hr. injection Hr as <- <-.
  rewrite convert_value by reflexivity.
  apply Z.eqb_neq in H0. rewrite Z2Pos.id by lia. reflexivity.
Qed.

(** [convert] follows the recursion of the source on the value. *)
Lemma convert_equation (one S_one S_add A : expr) (ls : list level) (v : positive) :
  v <> 1%positive ->
  convert one S_one S_add A ls v
  = if Z.pos v mod 2 =? 0
    then mk_app (mk_constant_with_levels get_bit0_name ls)
           [A; S_add; convert one S_one S_add A ls (Z.to_pos (Z.pos v / 2))]
    else mk_app (mk_constant_with_levels get_bit1_name ls)
           [A; S_one; S_add; convert one S_one S_add A ls (Z.to_pos (Z.pos v / 2))].
Proof.
  intros Hv. destruct v as [p|p|]; [| |congruence]; cbn [convert].
  - assert (Hm : Z.pos p~1 mod 2 = 1).
    { rewrite Pos2Z.inj_xI, Z.add_comm, Z.mul_comm, Z.mod_add by lia. reflexivity. }
    assert (Hd : Z.pos p~1 / 2 = Z.pos p).
    { rewrite Pos2Z.inj_xI, Z.add_comm, Z.mul_comm, Z.div_add by lia. reflexivity. }
    rewrite Hm, Hd. reflexivity.
  - assert (Hm : Z.pos p~0 mod 2 = 0).
    { rewrite Pos2Z.inj_xO, Z.mul_comm, Z.mod_mul by lia. reflexivity. }
    assert (Hd : Z.pos p~0 / 2 = Z.pos p).
    { rewrite Pos2Z.inj_xO, Z.mul_comm, Z.div_mul by lia. reflexivity. }
    rewrite Hm, Hd. reflexivity.
Qed.

Lemma same_rest_refl (s : elab_state) : same_rest s s.
Proof. reflexivity. Qed.

Lemma same_rest_trans (s1 s2 s3 : elab_state) :
  same_rest s1 s2 -> same_rest s2 s3 -> same_rest s1 s3.
Proof. unfold same_rest. congruence. Qed.

Lemma same_rest_frame (s s' : elab_state) : frame s s' -> same_rest s s'.
Proof. intros [c ->]. reflexivity. Qed.

Lemma same_rest_bind {A B} (m : M elab_state A) (k : A -> M elab_state B) (s : elab_state) :
  same_rest s (outcome_state (m s)) ->
  (forall a s1, m s = Val a s1 -> same_rest s1 (outcome_state (k a s1))) ->
  same_rest s (outcome_state (bind m k s)).
Proof.
  intros Hm Hk. unfold bind. destruct (m s) as [a s1|ex s1] eqn:Hms; [|exact Hm].
  eapply same_rest_trans; [exact Hm|]. apply Hk. reflexivity.
Qed.

Lemma same_rest_lift_ctx {A} (m : M type_context A) (s : elab_state) :
  same_rest s (outcome_state (lift_ctx m s)).
Proof. apply same_rest_frame, frame_lift_ctx. Qed.

Lemma same_rest_recoverable_error (expected_type : expr) (ref ex_ref : expr) (msg : format)
    (s : elab_state) :
  same_rest s (outcome_state (recoverable_error (Some expected_type) ref ex_ref msg s)).
Proof. rewrite recoverable_error_spec. destruct (can_recover s); reflexivity. Qed.

Lemma same_rest_mk_instance (C_ ref : expr) (s : elab_state) :
  same_rest s (outcome_state (mk_instance C_ ref s)).
Proof.
  unfold mk_instance. apply same_rest_bind; [apply same_rest_refl|]. intros pq s1 _.
  destruct pq; [apply same_rest_refl|].
  apply same_rest_bind.
  { unfold ready_to_synthesize.
    destruct (negb (has_expr_metavar C_)); [apply same_rest_refl|].
    destruct (negb (is_constant _)); [apply same_rest_refl|].
    apply same_rest_bind; [apply same_rest_lift_ctx|]. intros; apply same_rest_refl. }
  intros ready s2 _. destruct ready; cbn [negb].
  - apply same_rest_bind; [apply same_rest_refl|]. intros lctx s3 _.
    unfold mk_instance_core. apply same_rest_bind; [apply same_rest_lift_ctx|].
    intros [i|] s4 _; [apply same_rest_refl|apply same_rest_recoverable_error].
  - apply same_rest_bind.
    { unfold mk_metavar. apply same_rest_bind; [apply same_rest_refl|].
      intros; apply same_rest_lift_ctx. }
    intros inst s3 _. apply same_rest_bind; [apply same_rest_refl|]. intros old s4 _.
    apply same_rest_bind; [reflexivity|]. intros l s5 _.
    apply same_rest_bind; [reflexivity|]. intros; apply same_rest_refl.
Qed.

Lemma same_rest_elaborator_get_level (A ref : expr) (s : elab_state) :
  same_rest s (outcome_state (elaborator_get_level A ref s)).
Proof.
  unfold elaborator_get_level.
  apply same_rest_bind; [apply same_rest_lift_ctx|]. intros t s1 _.
  apply same_rest_bind; [apply same_rest_lift_ctx|]. intros A_type s2 _.
  destruct (is_sort A_type); [apply same_rest_refl|].
  apply same_rest_bind.
  { destruct (is_meta A_type); [|apply same_rest_refl].
    apply same_rest_bind; [apply same_rest_lift_ctx|]. intros l s3 _.
    apply same_rest_bind; [|intros; apply same_rest_refl].
    rewrite try_is_def_eq_unfold. apply same_rest_frame, frame_is_def_eq. }
  intros [l|] s3 _; [apply same_rest_refl|].
  apply same_rest_bind; [apply same_rest_refl|]. intros; apply same_rest_refl.
Qed.

Lemma same_rest_dec_level (l : level) (ref : expr) (s : elab_state) :
  same_rest s (outcome_state (dec_level l ref s)).
Proof.
  unfold dec_level. destruct (lean_dec_level l); [apply same_rest_refl|].
  apply same_rest_bind; [apply same_rest_lift_ctx|]. intros r s1 _.
  apply same_rest_bind; [apply same_rest_lift_ctx|]. intros eq s2 _.
  destruct eq; apply same_rest_refl.
Qed.

Lemma same_rest_prenum_numeral (e A : expr) (s : elab_state) :
  same_rest s (outcome_state (prenum_numeral e A s)).
Proof.
  unfold prenum_numeral.
  apply same_rest_bind; [apply same_rest_elaborator_get_level|]. intros A_lvl s2 _.
  apply same_rest_bind; [apply same_rest_dec_level|]. intros l s3 _. cbn zeta.
  destruct (prenum_value e <? 0); [apply same_rest_recoverable_error|].
  destruct (prenum_value e =? 0).
  { apply same_rest_bind; [apply same_rest_mk_instance|]. intros; apply same_rest_refl. }
  apply same_rest_bind; [apply same_rest_mk_instance|]. intros S_one s4 _.
  destruct (prenum_value e =? 1); [apply same_rest_refl|].
  apply same_rest_bind; [apply same_rest_mk_instance|]. intros; apply same_rest_refl.
Qed.

(** X15.  The numeral types pending for the default [nat].  A numeral elaborated
    against a metavariable, or with no expected type (its type is then a new
    metavariable), has its type recorded in [m_numeral_types]; a numeral
    elaborated against any other type records nothing.  The rest of the
    elaboration of the numeral leaves the record alone.  A negative
    pre-numeral is a recoverable error: reported, with a placeholder of the
    type of the numeral in its place, or thrown. *)
Theorem visit_prenum_numeral_types :
  (forall e T s r s',
      visit_prenum e (Some T) s = Val r s' ->
      m_numeral_types s'
      = if is_metavar T then T :: m_numeral_types s else m_numeral_types s)
  /\ (forall e s r s',
        visit_prenum e None s = Val r s' ->
        exists A s1,
          mk_type_metavar e s = Val A s1
          /\ m_numeral_types s' = A :: m_numeral_types s)
  /\ (forall e A s A_lvl s1 l s2,
        elaborator_get_level A e s = Val A_lvl s1 ->
        dec_level A_lvl e s1 = Val l s2 ->
        prenum_value e < 0 ->
        let ex := elaborator_exception e
                    (fmt_text "invalid pre-numeral, it must be a non-negative value") in
        prenum_numeral e A s
        = if can_recover s2
          then Val (lib_mk_sorry A) (report_diagnostic ex None s2)
          else Exc ex s2).
Proof.
  split; [|split].
  - intros e T s r s' Hr. unfold visit_prenum, prenum_type in Hr. unfold bind at 1 in Hr.
    unfold bind at 1 in Hr.
    destruct (is_metavar T); unfold modify, ret in Hr;
      match type of Hr with
      | prenum_numeral e T ?s0 = _ =>
          pose proof (same_rest_prenum_numeral e T s0) as Hk; rewrite Hr in Hk
      end; unfold same_rest, session_rest in Hk; cbn in Hk; congruence.
  - intros e s r s' Hr. unfold visit_prenum, prenum_type in Hr. unfold bind at 1 in Hr.
    unfold bind at 1 in Hr.
    destruct (mk_type_metavar e s) as [A s1|] eqn:HA; [|discriminate].
    exists A, s1. split; [reflexivity|].
    unfold bind at 1 in Hr. unfold modify, ret in Hr.
    match type of Hr with
    | prenum_numeral e A ?s0 = _ =>
        pose proof (same_rest_prenum_numeral e A s0) as Hk; rewrite Hr in Hk
    end.
    unfold same_rest, session_rest in Hk. cbn in Hk.
    assert (Hm : same_rest s s1).
    { unfold mk_type_metavar in HA.
      pose proof (same_rest_bind mk_univ_metavar (fun l => mk_metavar (mk_sort l) e) s) as Hb.
      rewrite HA in Hb. apply Hb; [apply same_rest_lift_ctx|].
      intros l s2 _. unfold mk_metavar. apply same_rest_bind; [apply same_rest_refl|].
      intros; apply same_rest_lift_ctx. }
    unfold same_rest, session_rest in Hm. congruence.
  - intros e A s A_lvl s1 l s2 Hg Hd Hv ex. unfold prenum_numeral. unfold bind at 1.
    rewrite Hg. unfold bind at 1. rewrite Hd. cbn zeta.
    apply Z.ltb_lt in Hv. rewrite Hv. rewrite recoverable_error_spec. fold ex.
    destruct (can_recover s2); reflexivity.
Qed.

End NumeralProperties.

Section HeadProperties.
Context {C : Carriers} {X : External} {K : CoercionExternal} {D : HeadExternal}.

Lemma mapM_length {S A B} (f : A -> M S B) (l : list A) (s : S) (r : list B) (s' : S) :
  mapM f l s = Val r s' -> List.length r = List.length l.
Proof.
  revert s r s'. induction l as [|x l IH]; intros s r s'; cbn.
  - unfold ret. intros [= <- <-]. reflexivity.
  - unfold bind at 1. destruct (f x s) as [y s1|]; [|discriminate].
    unfold bind at 1. destruct (mapM f l s1) as [ys s2|] eqn:Hm; [|discriminate].
    unfold ret. intros [= <- <-]. cbn. f_equal. eapply IH, Hm.
Qed.

Lemma fill_univ_metavars_length (n : nat) (s : elab_state) (us : list level)
    (s' : elab_state) :
  fill_univ_metavars n s = Val us s' -> List.length us = n.
Proof.
  revert s us s'. induction n as [|n IH]; intros s us s'; cbn.
  - unfold ret. intros [= <- <-]. reflexivity.
  - unfold bind at 1. destruct (mk_univ_metavar s) as [u s1|]; [|discriminate].
    unfold bind at 1. destruct (fill_univ_metavars n s1) as [us' s2|] eqn:Hf; [|discriminate].
    unfold ret. intros [= <- <-]. cbn. f_equal. eapply IH, Hf.
Qed.

(** X16.  The universe levels of an elaborated constant.  For a constant
    declared with [n] universe parameters and written with at most [n]
    levels, [visit_const_core] returns the constant with exactly [n] levels:
    the written ones, placeholders replaced, then universe metavariables.
    Written with more than [n] levels the constant is a recoverable error:
    if [visit_const_core] returns at all, a diagnostic was recorded and what
    it returns is a placeholder. *)
Theorem visit_const_core_levels (e : expr) (s : elab_state) (n : nat) (r : expr)
    (s' : elab_state) :
  get_num_univ_params (m_env s) (const_name e) = inr n ->
  visit_const_core e s = Val r s' ->
  ((List.length (const_levels e) <= n)%nat ->
   exists ls s1 us,
     mapM replace_univ_placeholder (const_levels e) s = Val ls s1
     /\ r = Constant (const_name e) (ls ++ us)
     /\ List.length (ls ++ us) = n)
  /\ ((n < List.length (const_levels e))%nat ->
      exists ls s1 t,
        mapM replace_univ_placeholder (const_levels e) s = Val ls s1
        /\ can_recover s1 = true /\ m_has_errors s' = true /\ r = lib_mk_sorry t).
Proof.
  intros Hn Hr. unfold visit_const_core in Hr. unfold bind at 1 in Hr. unfold gets in Hr.
  rewrite Hn in Hr. unfold bind at 1 in Hr.
  destruct (mapM replace_univ_placeholder (const_levels e) s) as [ls s1|] eqn:Hm;
    [|discriminate].
  pose proof (mapM_length _ _ _ _ _ Hm) as Hlen. rewrite Hlen in Hr.
  destruct (n <? List.length (const_levels e))%nat eqn:Hlt.
  - apply Nat.ltb_lt in Hlt. split; [lia|]. intros _.
    rewrite recoverable_error_spec in Hr.
    destruct (can_recover s1) eqn:Hc; [|discriminate].
    unfold mk_sorry in Hr. unfold bind at 1 in Hr. unfold mk_type_metavar in Hr.
    unfold bind at 1 in Hr. unfold mk_univ_metavar, lift_ctx at 1 in Hr.
    destruct (tc_mk_univ_metavar_decl _) as [l c1|]; [|discriminate].
    unfold mk_metavar, bind at 1, gets, lift_ctx in Hr.
    destruct (tc_mk_metavar_decl _ _ _) as [t c2|]; [|discriminate].
    unfold ret in Hr. injection Hr as <- <-.
    exists ls, s1, t. auto.
  - apply Nat.ltb_ge in Hlt. split; [|lia]. intros _. unfold bind at 1 in Hr.
    destruct (fill_univ_metavars _ s1) as [us s2|] eqn:Hf; [|discriminate].
    unfold ret in Hr. injection Hr as <- <-.
    exists ls, s1, us. split; [reflexivity|]. split; [reflexivity|].
    rewrite length_app, Hlen, (fill_univ_metavars_length _ _ _ _ Hf). lia.
Qed.

(** X17.  The head of an application.
    - A placeholder, a field notation, a bound variable, a function type, a
      metavariable and a sort are refused before anything is elaborated: the
      state at the throw is the state at the call.
    - When the head has arguments, whatever [visit_function] returns went
      through [ensure_function]: its type reduces to a function type. *)
Theorem elaborator_visit_function_spec :
  (forall fn has_args ref s,
      is_placeholder fn || is_field_notation fn
      || is_var fn || is_pi fn || is_metavar fn || is_sort fn = true ->
      exists msg, elaborator_visit_function fn has_args ref s
                  = Exc (elaborator_exception ref msg) s)
  /\ (forall fn ref s r s',
        elaborator_visit_function fn true ref s = Val r s' ->
        exists sa t sb T, infer_type r sa = Val t sb /\ whnf t sb = Val T s' /\ is_pi T = true).
Proof.
  split.
  - intros fn has_args ref s Hbad. unfold elaborator_visit_function.
    destruct (is_placeholder fn); [eexists; reflexivity|].
    destruct (is_field_notation fn); [eexists; reflexivity|].
    destruct fn; try discriminate; eexists; reflexivity.
  - intros fn ref s r s'. unfold elaborator_visit_function.
    destruct (is_placeholder fn); [discriminate|].
    destruct (is_field_notation fn); [discriminate|].
    unfold bind at 1.
    match goal with |- match ?m s with _ => _ end = _ -> _ =>
      destruct (m s) as [r0 s1|]; [|discriminate] end.
    unfold bind at 1. destruct (save_identifier_info r0 s1) as [[] s2|]; [|discriminate].
    apply (proj1 (proj2 ensure_function_post)).
Qed.

(** X18.  The data of a builtin recursor ([get_elim_info_for_builtin]).  Unless
    an elimination rule is named [brec_on] or [binduction_on], the motive
    comes before the major premise and both are within the arity.  For a
    recursor other than [brec_on] and [binduction_on] the number of explicit
    arguments is within the arity; for these two the arity does not count
    the constructors while the number of explicit arguments does, and
    exceeds the arity for a type with more constructors than parameters and
    indices plus two. *)
Theorem get_elim_info_for_builtin_bounds (env : environment) (fn : name) :
  let info := get_elim_info_for_builtin env fn in
  let below := String.eqb (get_string fn) "brec_on"
               || String.eqb (get_string fn) "binduction_on" in
  let I_name := get_prefix fn in
  (is_elim_rule env fn && below = false ->
   Forall (fun major => (m_motive_idx info < major < m_arity info)%nat) (m_idxs info))
  /\ (below = false -> (m_nexplicit info <= m_arity info)%nat)
  /\ (below = true ->
      ((m_arity info < m_nexplicit info)%nat
       <-> (inductive_num_params env I_name + inductive_num_indices env I_name + 2
            < List.length (get_intro_rule_names env I_name))%nat)).
Proof.
  cbn zeta. unfold get_elim_info_for_builtin. cbn [m_arity m_nexplicit m_motive_idx m_idxs].
  destruct (String.eqb (get_string fn) "brec_on" || String.eqb (get_string fn) "binduction_on").
  - split; [|split; [discriminate|]].
    + rewrite andb_true_r. intros He. rewrite He. constructor; [lia|constructor].
    + intros _. destruct (List.length _) as [|n]; cbn; lia.
  - split; [|split; [|discriminate]].
    + intros _. constructor; [|constructor]. destruct (is_elim_rule env fn); lia.
    + intros _. destruct (List.length _) as [|n]; cbn; lia.
Qed.

(** X19.  [visit_no_confusion_app]: without an expected type, or without an
    argument, it throws before anything is elaborated.  Otherwise the first
    argument is elaborated strictly and the application is elaborated by
    the simple procedure with every argument explicit (the two-pass
    procedure is not tried): after a placeholder for each parameter and
    index come the expected type as it is, two placeholders and the
    elaborated first argument as it is, then the other arguments. *)
Theorem visit_no_confusion_app_spec :
  (forall fn args ref s,
      exists msg, visit_no_confusion_app fn args None ref s
                  = Exc (elaborator_exception ref msg) s)
  /\ (forall fn T ref s,
        exists msg, visit_no_confusion_app fn [] (Some T) ref s
                    = Exc (elaborator_exception ref msg) s)
  /\ (forall fn arg0 rest T ref s Heq s1,
        strict_visit arg0 None s = Val Heq s1 ->
        let nparams := inductive_num_params (m_env s1) (get_prefix (const_name fn)) in
        let nindices := inductive_num_indices (m_env s1) (get_prefix (const_name fn)) in
        let new_args := no_confusion_args nparams nindices T Heq rest in
        visit_no_confusion_app fn (arg0 :: rest) (Some T) ref s
        = visit_base_app_simple fn AllExplicit new_args false (Some T) ref s1
        /\ List.length new_args = (nparams + nindices + 3 + List.length (arg0 :: rest))%nat
        /\ nth_error new_args (nparams + nindices) = Some (mk_as_is T)
        /\ nth_error new_args (nparams + nindices + 3) = Some (mk_as_is Heq)
        /\ skipn (nparams + nindices + 4) new_args = rest).
Proof.
  split; [|split].
  - intros. eexists. reflexivity.
  - intros. eexists. reflexivity.
  - intros fn arg0 rest T ref s Heq s1 Hs nparams nindices new_args.
    split; [|split; [|split; [|split]]].
    + unfold visit_no_confusion_app. unfold bind at 1. rewrite Hs.
      unfold bind at 1. unfold gets. unfold visit_base_app_core. reflexivity.
    + unfold new_args, no_confusion_args. rewrite !length_app, repeat_length. cbn. lia.
    + unfold new_args, no_confusion_args.
      rewrite nth_error_app2 by (rewrite repeat_length; lia).
      rewrite repeat_length, Nat.sub_diag. reflexivity.
    + unfold new_args, no_confusion_args.
      rewrite nth_error_app2 by (rewrite repeat_length; lia).
      rewrite repeat_length. replace (nparams + nindices + 3 - (nparams + nindices))%nat
        with 3%nat by lia. reflexivity.
    + unfold new_args, no_confusion_args.
      rewrite skipn_app, repeat_length.
      rewrite (skipn_all2 (repeat _ _)) by (rewrite repeat_length; lia).
      replace (nparams + nindices + 4 - (nparams + nindices))%nat with 4%nat by lia.
      reflexivity.
Qed.

End HeadProperties.

Section PatternProperties.
Context {C : Carriers} {X : External} {D : HeadExternal} {P : PatternExternal}.

Lemma get_app_args_app f a : get_app_args (App f a) = get_app_args f ++ [a].
Proof. unfold get_app_args. cbn. reflexivity. Qed.

Lemma check_constructor_params_none env p :
  is_app p = true ->
  check_constructor_params env (get_app_fn p) (get_app_args p) = None
  <-> params_inaccessible env p.
Proof.
  intros Happ. unfold check_constructor_params, params_inaccessible.
  destruct (is_constant (get_app_fn p)) eqn:Hc.
  - destruct (is_intro_rule env (const_name (get_app_fn p))) as [I_name|] eqn:Hi.
    + destruct (forallb is_inaccessible
                  (firstn (inductive_num_params env I_name) (get_app_args p))) eqn:Hf.
      * split; [|reflexivity]. intros _ I' _ _ HI. inversion HI; subst I'.
        apply List.Forall_forall. apply List.forallb_forall. exact Hf.
      * split; [discriminate|]. intros Hp.
        specialize (Hp I_name Happ eq_refl eq_refl).
        rewrite List.Forall_forall in Hp. rewrite <- List.forallb_forall in Hp.
        congruence.
    + split; [|reflexivity]. intros _ I' _ _ HI. discriminate.
  - split; [|reflexivity]. intros _ I' _ Hc'. discriminate.
Qed.

Lemma check_constructor_params_some env c args ex :
  check_constructor_params env c args = Some ex ->
  ex = elaborator_exception c inaccessible_params_msg.
Proof.
  unfold check_constructor_params.
  destruct (is_constant c); [|discriminate].
  destruct (is_intro_rule env (const_name c)); [|discriminate].
  destruct (forallb _ _); [discriminate|]. congruence.
Qed.

Lemma params_inaccessible_not_app env p : is_app p = false -> params_inaccessible env p.
Proof. intros Hn I_name Happ. congruence. Qed.

Lemma subpattern_inv q p :
  subpattern q p -> q = p \/ exists a, In a (get_app_args p) /\ subpattern q a.
Proof. intros Hs. inversion Hs; subst; eauto. Qed.

Lemma check_pattern_both env p :
  (check_pattern_inaccessible_annotations env p = None
   <-> forall q, subpattern q p -> params_inaccessible env q)
  /\ (check_pattern_args env p = None
      <-> forall a q, In a (get_app_args p) -> subpattern q a -> params_inaccessible env q).
Proof.
  induction p as [| | | | | f [IHf IHfa] a [IHa IHaa] | | | |];
    try (split; (split; [|reflexivity]); intros _;
         [ intros q Hq; apply subpattern_inv in Hq as [->|(a & [] & _)];
           apply params_inaccessible_not_app; reflexivity
         | intros a q [] ]).
  assert (Hargs :
    check_pattern_args env (App f a) = None
    <-> forall a0 q, In a0 (get_app_args (App f a)) -> subpattern q a0 ->
                     params_inaccessible env q).
  { cbn [check_pattern_args]. rewrite get_app_args_app. split.
    - intros Hn a0 q Hin Hs.
      destruct (check_pattern_args env f) eqn:Hf; [discriminate|].
      apply in_app_or in Hin as [Hin|[<-|[]]].
      + exact (proj1 IHfa eq_refl a0 q Hin Hs).
      + exact (proj1 IHa Hn q Hs).
    - intros Hall.
      destruct (check_pattern_args env f) eqn:Hf.
      + assert (Hn : Some e = None); [|discriminate].
        apply IHfa. intros a0 q Hin Hs.
        apply (Hall a0 q); [apply in_or_app; left; exact Hin|exact Hs].
      + apply IHa. intros q Hs.
        apply (Hall a q); [apply in_or_app; right; left; reflexivity|exact Hs]. }
  split; [|exact Hargs].
  cbn [check_pattern_inaccessible_annotations]. fold (check_pattern_args env f).
  change (match check_pattern_args env f with
          | Some ex => Some ex
          | None => check_pattern_inaccessible_annotations env a
          end) with (check_pattern_args env (App f a)).
  split.
  - intros Hn q Hs.
    destruct (check_constructor_params env (get_app_fn (App f a)) (get_app_args (App f a)))
      eqn:Hc; [discriminate|].
    apply subpattern_inv in Hs as [->|(a0 & Hin & Hs)].
    + apply check_constructor_params_none; [reflexivity|exact Hc].
    + exact (proj1 Hargs Hn a0 q Hin Hs).
  - intros Hall.
    assert (Hc : check_constructor_params env (get_app_fn (App f a)) (get_app_args (App f a))
                 = None).
    { apply check_constructor_params_none; [reflexivity|].
      apply Hall. constructor. }
    rewrite Hc. apply Hargs. intros a0 q Hin Hs.
    apply Hall. econstructor; eassumption.
Qed.

Lemma check_pattern_error_both env p :
  (forall ex, check_pattern_inaccessible_annotations env p = Some ex ->
     exists q, subpattern q p /\ is_app q = true
               /\ ex = elaborator_exception (get_app_fn q) inaccessible_params_msg)
  /\ (forall ex, check_pattern_args env p = Some ex ->
     exists a q, In a (get_app_args p) /\ subpattern q a /\ is_app q = true
               /\ ex = elaborator_exception (get_app_fn q) inaccessible_params_msg).
Proof.
  induction p as [| | | | | f [IHf IHfa] a [IHa IHaa] | | | |];
    try (split; intros ex Hex; discriminate).
  assert (Hargs : forall ex, check_pattern_args env (App f a) = Some ex ->
     exists a0 q, In a0 (get_app_args (App f a)) /\ subpattern q a0 /\ is_app q = true
               /\ ex = elaborator_exception (get_app_fn q) inaccessible_params_msg).
  { intros ex. cbn [check_pattern_args]. rewrite get_app_args_app.
    destruct (check_pattern_args env f) as [ex'|] eqn:Hf.
    - intros Hex. inversion Hex; subst ex'.
      destruct (IHfa ex eq_refl) as (a0 & q & Hin & Hs & Hq & ->).
      exists a0, q. repeat split; auto. apply in_or_app; left; exact Hin.
    - intros Hex. destruct (IHa ex Hex) as (q & Hs & Hq & ->).
      exists a, q. repeat split; auto. apply in_or_app; right; left; reflexivity. }
  split; [|exact Hargs].
  intros ex. cbn [check_pattern_inaccessible_annotations]. fold (check_pattern_args env f).
  change (match check_pattern_args env f with
          | Some ex => Some ex
          | None => check_pattern_inaccessible_annotations env a
          end) with (check_pattern_args env (App f a)).
  destruct (check_constructor_params env (get_app_fn (App f a)) (get_app_args (App f a)))
    as [ex'|] eqn:Hc.
  - intros Hex. inversion Hex; subst ex'.
    apply check_constructor_params_some in Hc.
    exists (App f a). repeat split; [constructor|exact Hc].
  - intros Hex. destruct (Hargs ex Hex) as (a0 & q & Hin & Hs & Hq & ->).
    exists q. repeat split; auto. econstructor; eassumption.
Qed.

(** X20.  [check_pattern_inaccessible_annotations] accepts a pattern exactly when
    in every constructor application nested in it, the pattern itself
    included, the arguments standing for the parameters of the inductive
    type are all marked inaccessible; and the exception it throws
    otherwise is raised at the head of one of these applications. *)
Theorem check_pattern_inaccessible_annotations_spec :
  forall env p,
    (check_pattern_inaccessible_annotations env p = None
     <-> forall q, subpattern q p -> params_inaccessible env q)
    /\ (forall ex, check_pattern_inaccessible_annotations env p = Some ex ->
          exists q, subpattern q p /\ is_app q = true
                    /\ ex = elaborator_exception (get_app_fn q) inaccessible_params_msg).
Proof.
  intros env p. split.
  - exact (proj1 (check_pattern_both env p)).
  - exact (proj1 (check_pattern_error_both env p)).
Qed.

End PatternProperties.

Section FieldProperties.
Context {C : Carriers} {X : External} {F : FieldExternal}.

Lemma field_to_decl_val (e s s_type : expr) (st st' : elab_state) (n : name) :
  field_to_decl e s s_type st = Some (Val n st') ->
  st' = st
  /\ is_constant (get_app_fn s_type) = true
  /\ field_of (m_env st) e (const_name (get_app_fn s_type)) n.
Proof.
  unfold field_to_decl, field_of.
  destruct (is_constant (get_app_fn s_type)) eqn:Hc; cbn [negb]; [|discriminate].
  destruct (is_anonymous_field_notation e) eqn:Ha.
  - unfold bindF, liftF, gets.
    destruct (is_structure (m_env st) (const_name (get_app_fn s_type))) eqn:Hs;
      cbn [negb]; [|discriminate].
    destruct (_ <? _)%nat eqn:Hlt; [discriminate|].
    apply Nat.ltb_ge in Hlt.
    destruct (get_field_notation_field_idx e) as [|i] eqn:Hi; [discriminate|].
    destruct (nth_error _ i) as [m|] eqn:Hn; [|discriminate].
    unfold ret. intros Heq. inversion Heq; subst.
    repeat split; auto; try lia.
    replace (S i - 1)%nat with i by lia. exact Hn.
  - unfold bindF, liftF, gets.
    destruct (env_find (m_env st) _) eqn:Hf; cbn [negb]; [|discriminate].
    unfold ret. intros Heq. inversion Heq; subst. auto.
Qed.

Lemma field_to_decl_exc (e s s_type : expr) (st st' : elab_state) (ex : exn) :
  field_to_decl e s s_type st = Some (Exc ex st') ->
  st' = st /\ exists msg, ex = elaborator_exception e msg.
Proof.
  unfold field_to_decl.
  destruct (is_constant (get_app_fn s_type)) eqn:Hc; cbn [negb].
  2:{ cbn. intros Heq. inversion Heq; subst. eauto. }
  destruct (is_anonymous_field_notation e) eqn:Ha.
  - unfold bindF, liftF, gets.
    destruct (is_structure (m_env st) (const_name (get_app_fn s_type))) eqn:Hs;
      cbn [negb].
    2:{ cbn. intros Heq. inversion Heq; subst. eauto. }
    destruct (_ <? _)%nat eqn:Hlt.
    { cbn. intros Heq. inversion Heq; subst. eauto. }
    destruct (get_field_notation_field_idx e) as [|i] eqn:Hi; [discriminate|].
    destruct (nth_error _ i) as [m|] eqn:Hn; discriminate.
  - unfold bindF, liftF, gets.
    destruct (env_find (m_env st) _) eqn:Hf; cbn [negb]; [discriminate|].
    cbn. intros Heq. inversion Heq; subst. eauto.
Qed.

Lemma field_to_decl_defined (e s s_type : expr) (st : elab_state) :
  field_to_decl e s s_type st = None ->
  is_anonymous_field_notation e = true /\ get_field_notation_field_idx e = 0%nat.
Proof.
  unfold field_to_decl.
  destruct (is_constant (get_app_fn s_type)) eqn:Hc; cbn [negb]; [|discriminate].
  destruct (is_anonymous_field_notation e) eqn:Ha.
  - unfold bindF, liftF, gets.
    destruct (is_structure (m_env st) (const_name (get_app_fn s_type))) eqn:Hs;
      cbn [negb]; [|discriminate].
    destruct (_ <? _)%nat eqn:Hlt; [discriminate|].
    apply Nat.ltb_ge in Hlt.
    destruct (get_field_notation_field_idx e) as [|i] eqn:Hi; [auto|].
    destruct (nth_error _ i) as [m|] eqn:Hn; [discriminate|].
    apply nth_error_None in Hn. lia.
  - unfold bindF, liftF, gets.
    destruct (env_find (m_env st) _) eqn:Hf; cbn [negb]; discriminate.
Qed.

(** X21.  [field_to_decl] leaves the state as it is.  A name it returns is, for
    a type whose head is the constant [I], the field of [I] of the given
    index (counted from one and within the number of fields of the
    structure [I]) or the declaration [I.fname] found in the environment;
    every failure is an elaborator exception at the notation; and the only
    input without a defined outcome is an anonymous notation of index
    zero. *)
Theorem field_to_decl_spec :
  forall e s s_type st,
    (forall n st', field_to_decl e s s_type st = Some (Val n st') ->
       st' = st /\ is_constant (get_app_fn s_type) = true
       /\ field_of (m_env st) e (const_name (get_app_fn s_type)) n)
    /\ (forall ex st', field_to_decl e s s_type st = Some (Exc ex st') ->
       st' = st /\ exists msg, ex = elaborator_exception e msg)
    /\ (field_to_decl e s s_type st = None ->
       is_anonymous_field_notation e = true /\ get_field_notation_field_idx e = 0%nat)
    /\ (is_anonymous_field_notation e = true ->
        is_constant (get_app_fn s_type) = true ->
        is_structure (m_env st) (const_name (get_app_fn s_type)) = true ->
        (List.length (get_structure_fields (m_env st) (const_name (get_app_fn s_type)))
         < get_field_notation_field_idx e)%nat ->
        exists msg, field_to_decl e s s_type st = Some (Exc (elaborator_exception e msg) st)).
Proof.
  intros e s s_type st. repeat split.
  - apply field_to_decl_val in H. tauto.
  - apply field_to_decl_val in H. tauto.
  - apply field_to_decl_val in H. tauto.
  - apply field_to_decl_exc in H. tauto.
  - apply field_to_decl_exc in H. tauto.
  - apply field_to_decl_defined in H. tauto.
  - apply field_to_decl_defined in H. tauto.
  - intros Ha Hc Hs Hlt. unfold field_to_decl. rewrite Hc, Ha. cbn [negb].
    unfold bindF, liftF, gets. rewrite Hs. cbn [negb].
    apply Nat.ltb_lt in Hlt. rewrite Hlt. cbn. eauto.
Qed.

Lemma find_field_fn_both (fuel : nat) :
  forall e s s_type st,
    (forall n st', find_field_fn fuel e s s_type st = Some (Val n st') ->
       frame st st'
       /\ exists t, is_constant (get_app_fn t) = true
                    /\ field_of (m_env st) e (const_name (get_app_fn t)) n)
    /\ (forall ex st', find_field_fn fuel e s s_type st = Some (Exc ex st') ->
       frame st st'
       /\ exists ex0, field_to_decl e s s_type st = Some (Exc ex0 st)
          /\ (ex = ex0
              \/ (exists ref msg, ex = nested_elaborator_exception ref ex0 msg)
              \/ (exists t c c', tc_whnf_head_pred_macro t c = Exc ex c'))).
Proof.
  induction fuel as [|fuel IH]; intros e s s_type st.
  { split; intros; discriminate. }
  cbn [find_field_fn]. unfold try_catchF.
  destruct (field_to_decl e s s_type st) as [[n0 st0|ex0 st0]|] eqn:Hd.
  - apply field_to_decl_val in Hd as (-> & Hc & Hf).
    split; [|intros; discriminate].
    intros n st' Heq. inversion Heq; subst. split; [apply frame_refl|]. eauto.
  - destruct (field_to_decl_exc _ _ _ _ _ _ Hd) as (-> & msg & ->).
    cbn [is_elaborator_exception].
    unfold bindF, liftF, gets, throw.
    set (t1 := match unfold_term (m_env st) s_type with Some d => d | None => s_type end).
    pose proof (frame_lift_ctx (tc_whnf_head_pred_macro t1) st) as Hfr.
    assert (Hw : forall ex s1, lift_ctx (tc_whnf_head_pred_macro t1) st = Exc ex s1 ->
                 exists t c c', tc_whnf_head_pred_macro t c = Exc ex c').
    { unfold lift_ctx. intros ex s1.
      destruct (tc_whnf_head_pred_macro t1 (m_ctx st)) as [v c'|ex' c'] eqn:Hw;
        [discriminate|].
      intros Heq. inversion Heq; subst. eauto. }
    destruct (lift_ctx (tc_whnf_head_pred_macro t1) st) as [t2 s1|exw s1] eqn:Hl;
      cbn [outcome_state] in Hfr.
    + destruct (expr_eq t2 s_type) eqn:He.
      * split; [intros; discriminate|].
        intros ex st' Heq. cbn in Heq. inversion Heq; subst.
        split; [exact Hfr|]. eexists. split; [reflexivity|]. left. reflexivity.
      * destruct (IH e s t2 s1) as [IHv IHe].
        destruct (find_field_fn fuel e s t2 s1) as [[n2 s2|ex2 s2]|] eqn:Hrec.
        -- split; [|intros; discriminate].
           intros n st' Heq. inversion Heq; subst.
           destruct (IHv n st' eq_refl) as (Hfr2 & t & Hc & Hf).
           split; [eapply frame_trans; eassumption|].
           exists t. split; [exact Hc|].
           destruct Hfr as (c & ->). exact Hf.
        -- destruct (IHe ex2 s2 eq_refl) as (Hfr2 & ex1 & Hd1 & Hcase).
           assert (Hfr3 : frame st s2) by (eapply frame_trans; eassumption).
           destruct (is_elaborator_exception ex2) eqn:Hel.
           ++ split; [intros; discriminate|].
              intros ex st' Heq. cbn in Heq. inversion Heq; subst.
              split; [exact Hfr3|]. eexists. split; [reflexivity|]. right. left. eauto.
           ++ split; [intros; discriminate|].
              intros ex st' Heq. inversion Heq; subst.
              split; [exact Hfr3|]. eexists. split; [reflexivity|].
              destruct Hcase as [->|[(ref & m & ->)|Hw']].
              ** apply field_to_decl_exc in Hd1 as (_ & m & ->). discriminate.
              ** discriminate.
              ** right. right. exact Hw'.
        -- split; intros; discriminate.
    + split; [intros; discriminate|].
      intros ex st' Heq. cbn in Heq. inversion Heq; subst.
      split; [exact Hfr|]. eexists. split; [reflexivity|].
      right. right. eapply Hw. reflexivity.
  - split; intros; discriminate.
Qed.

(** X22.  [find_field_fn] changes nothing but the type context.  A name it
    returns is what the notation denotes on some type with a constant
    head, in the given environment; when it fails, the search on the
    given type has failed first, and the exception is that first one,
    or a nested exception around it, or one raised by the reduction of
    the type.  When the search on the given type succeeds, that is the
    answer at once. *)
Theorem find_field_fn_spec :
  forall fuel e s s_type st,
    (forall n st', find_field_fn fuel e s s_type st = Some (Val n st') ->
       frame st st'
       /\ exists t, is_constant (get_app_fn t) = true
                    /\ field_of (m_env st) e (const_name (get_app_fn t)) n)
    /\ (forall ex st', find_field_fn fuel e s s_type st = Some (Exc ex st') ->
       frame st st'
       /\ exists ex0, field_to_decl e s s_type st = Some (Exc ex0 st)
          /\ (ex = ex0
              \/ (exists ref msg, ex = nested_elaborator_exception ref ex0 msg)
              \/ (exists t c c', tc_whnf_head_pred_macro t c = Exc ex c')))
    /\ (forall n, field_to_decl e s s_type st = Some (Val n st) ->
       find_field_fn (S fuel) e s s_type st = Some (Val n st)).
Proof.
  intros fuel e s s_type st.
  destruct (find_field_fn_both fuel e s s_type st) as [Hv He].
  repeat split.
  - apply Hv in H. tauto.
  - apply Hv in H. tauto.
  - apply He in H. tauto.
  - apply He in H. tauto.
  - intros n Hd. cbn [find_field_fn]. unfold try_catchF. rewrite Hd. reflexivity.
Qed.

End FieldProperties.

Section FieldNotationProperties.
Context {C : Carriers} {X : External} {F : FieldExternal}.

(** A field notation elaborates to what [visit] makes of the projection
    found by [find_field_fn], a constant without universe levels, applied
    to the elaborated structure marked as already elaborated; the
    projection is what the notation denotes in the environment at that
    point. *)
Theorem visit_field_spec :
  forall fuel e expected_type st r st',
    visit_field fuel e expected_type st = Some (Val r st') ->
    exists s st1 n st2,
      visit (macro_arg e 0) None st = Val s st1
      /\ same_rest st1 st2
      /\ (exists t, is_constant (get_app_fn t) = true
                    /\ field_of (m_env st2) e (const_name (get_app_fn t)) n)
      /\ visit (App (Constant n []) (mk_as_is s)) expected_type st2 = Val r st'.
Proof.
  intros fuel e T st r st'. unfold visit_field, bindF, liftF.
  destruct (visit (macro_arg e 0) None st) as [s st1|ex st1] eqn:Hv; [|discriminate].
  pose proof (same_rest_bind (infer_type s)
                (fun t => let* t := instantiate_mvars t in ret (head_beta_reduce t)) st1) as Hsr.
  destruct (bind (infer_type s) _ st1) as [t sa|ex sa] eqn:Ht; [|discriminate].
  cbn [outcome_state] in Hsr.
  assert (Hsa : same_rest st1 sa).
  { apply Hsr.
    - apply same_rest_lift_ctx.
    - intros a s1 _. apply same_rest_bind.
      + apply same_rest_lift_ctx.
      + intros a' s2 _. apply same_rest_refl. }
  destruct (find_field_fn_both fuel e s t sa) as [Hfv _].
  destruct (find_field_fn fuel e s t sa) as [[n sb|ex sb]|] eqn:Hf; [|discriminate|discriminate].
  destruct (Hfv n sb eq_refl) as (Hfr & t' & Hc & Hfo).
  intros Hr. exists s, st1, n, sb. split; [reflexivity|].
  split; [eapply same_rest_trans; [exact Hsa|apply same_rest_frame; exact Hfr]|].
  split.
  - exists t'. split; [exact Hc|]. destruct Hfr as (c & ->). exact Hfo.
  - unfold mk_app, mk_constant in Hr. cbn [fold_left] in Hr.
    destruct (visit _ T sb) as [r' sc|ex sc] eqn:Hv2; inversion Hr; subst. reflexivity.
Qed.

End FieldNotationProperties.

Section EquationProperties.
Context {C : Carriers} {X : External} {Q : EquationExternal}.

Lemma is_binding_update_binding (e d b : expr) :
  is_binding e = true ->
  is_binding (update_binding e d b) = true
  /\ binding_domain (update_binding e d b) = d
  /\ binding_body (update_binding e d b) = b.
Proof. destruct e; cbn; try discriminate; auto. Qed.

Lemma under_binders_copy_domain (num : nat) :
  forall source target,
    under_binders num (copy_domain num source target) = under_binders num target.
Proof.
  induction num as [|num IH]; intros source target; [reflexivity|].
  cbn [copy_domain under_binders].
  destruct (is_binding source) eqn:Hs; cbn [andb]; [|reflexivity].
  destruct (is_binding target) eqn:Ht; [|rewrite Ht; reflexivity].
  destruct (is_binding_update_binding source (mk_as_is (binding_domain source))
              (copy_domain num (binding_body source) (binding_body target)) Hs)
    as (-> & _ & ->).
  apply IH.
Qed.

(** X24.  When [source] and [target] both have [num] binders, the first [num]
    binder domains of [copy_domain num source target] are those of
    [source], each marked as already elaborated, and under these binders
    it has what [target] has under its own. *)
Theorem copy_domain_spec :
  forall num source target,
    List.length (binder_domains num source) = num ->
    List.length (binder_domains num target) = num ->
    binder_domains num (copy_domain num source target)
    = List.map mk_as_is (binder_domains num source)
    /\ under_binders num (copy_domain num source target) = under_binders num target.
Proof.
  intros num source target Hs Ht. split.
  - revert source target Hs Ht.
    induction num as [|num IH]; intros source target Hs Ht; [reflexivity|].
    cbn [copy_domain binder_domains] in *.
    destruct (is_binding source) eqn:Hbs; [|discriminate].
    destruct (is_binding target) eqn:Hbt; [|discriminate].
    cbn [andb List.length] in *.
    destruct (is_binding_update_binding source (mk_as_is (binding_domain source))
                (copy_domain num (binding_body source) (binding_body target)) Hbs)
      as (-> & -> & ->).
    cbn [List.map]. f_equal. apply IH; congruence.
  - apply under_binders_copy_domain.
Qed.

Lemma resize_arity_lookup (tbl : list (option nat)) (n g a : nat) :
  resize_arity n tbl !! g = Some (Some a) <-> tbl !! g = Some (Some a).
Proof.
  unfold resize_arity.
  destruct (Nat.lt_ge_cases g (List.length tbl)) as [Hlt|Hge].
  - rewrite lookup_app_l by exact Hlt. reflexivity.
  - rewrite lookup_app_r by exact Hge.
    split.
    + intros Hr. apply lookup_replicate in Hr as [Hr _]. discriminate.
    + intros Hr. apply lookup_ge_None in Hge. congruence.
Qed.

Lemma resize_arity_length (tbl : list (option nat)) (f : nat) :
  (f < List.length (if (List.length tbl <=? f)%nat then resize_arity (f + 1) tbl else tbl))%nat.
Proof.
  destruct (List.length tbl <=? f)%nat eqn:Hle.
  - apply Nat.leb_le in Hle. unfold resize_arity.
    rewrite length_app, length_replicate. lia.
  - apply Nat.leb_gt in Hle. exact Hle.
Qed.

Lemma check_equation_arity_shape (tbl : list (option nat)) (e : expr) :
  match shape_of e with
  | None => exists ex, check_equation_arity tbl e = inl ex
  | Some no_cases => check_equation_arity tbl e = inr tbl
  | Some (case_of f a) =>
      let tbl' := if (List.length tbl <=? f)%nat then resize_arity (f + 1) tbl else tbl in
      match tbl' !! f with
      | Some (Some r) =>
          if (r =? a)%nat then check_equation_arity tbl e = inr tbl'
          else exists ex, check_equation_arity tbl e = inl ex
      | _ => check_equation_arity tbl e = inr (<[f := Some a]> tbl')
      end
  end.
Proof.
  unfold shape_of, check_equation_arity.
  destruct (open_lambdas 0 e) as [nbinders eqn].
  destruct (is_equation eqn).
  - unfold get_app_args. rewrite length_rev.
    destruct (get_app_fn (equation_lhs eqn)) eqn:Hfn; cbn [is_var negb orb var_idx]; eauto.
    destruct (idx <? nbinders)%nat eqn:Hlt.
    + apply Nat.ltb_lt in Hlt.
      assert (Hle : (nbinders <=? idx)%nat = false) by (apply Nat.leb_gt; exact Hlt).
      rewrite Hle. cbv zeta.
      destruct (_ !! _) as [[r|]|]; try reflexivity.
      destruct (r =? _)%nat; cbn [negb]; eauto.
    + apply Nat.ltb_ge in Hlt.
      assert (Hle : (nbinders <=? idx)%nat = true) by (apply Nat.leb_le; exact Hlt).
      rewrite Hle. eauto.
  - destruct (is_no_equation eqn); eauto.
Qed.

Lemma check_equations_arity_from_spec (eqns : list expr) :
  forall tbl done,
    arity_table tbl done -> same_arity done ->
    (check_equations_arity_from tbl eqns = None
     <-> (forall e, In e eqns -> shape_of e <> None) /\ same_arity (done ++ eqns)).
Proof.
  induction eqns as [|e eqns IH]; intros tbl done Htbl Hdone.
  { cbn. rewrite app_nil_r. split; [intros _; split; [intros e []|exact Hdone]|reflexivity]. }
  cbn [check_equations_arity_from].
  pose proof (check_equation_arity_shape tbl e) as Hstep.
  assert (Hsnoc : forall l, done ++ e :: l = (done ++ [e]) ++ l).
  { intros l. rewrite <- app_assoc. reflexivity. }
  destruct (shape_of e) as [[f a|]|] eqn:Hsh.
  - cbv zeta in Hstep.
    pose proof (resize_arity_length tbl f) as Hlen.
    set (tbl' := if (List.length tbl <=? f)%nat then resize_arity (f + 1) tbl else tbl) in *.
    assert (Htbl' : forall g x, tbl' !! g = Some (Some x) <-> tbl !! g = Some (Some x)).
    { intros g x. unfold tbl'. destruct (_ <=? _)%nat; [apply resize_arity_lookup|reflexivity]. }
    destruct (tbl' !! f) as [[r|]|] eqn:Hlk.
    + destruct (r =? a)%nat eqn:Hra.
      * apply Nat.eqb_eq in Hra. subst r. rewrite Hstep.
        rewrite (IH tbl' (done ++ [e])).
        -- rewrite <- Hsnoc. split.
           ++ intros [Hwf Hsame]. split; [|exact Hsame].
              intros e0 [<-|Hin]; [congruence|apply Hwf; exact Hin].
           ++ intros [Hwf Hsame]. split; [|exact Hsame].
              intros e0 Hin. apply Hwf. right. exact Hin.
        -- intros g x. rewrite Htbl'. rewrite (Htbl g x). split.
           ++ intros (e0 & Hin & Hs). exists e0. split; [apply in_or_app; left; exact Hin|exact Hs].
           ++ intros (e0 & Hin & Hs). apply in_app_or in Hin as [Hin|[<-|[]]]; [eauto|].
              rewrite Hsh in Hs. inversion Hs; subst g x.
              apply Htbl. apply Htbl'. exact Hlk.
        -- intros e1 e2 g a1 a2 Hin1 Hin2 Hs1 Hs2.
           assert (Hold : forall e0 x, In e0 done -> shape_of e0 = Some (case_of f x) -> x = a).
           { intros e0 x Hin Hs.
             assert (Hx : tbl !! f = Some (Some x)) by (apply Htbl; eauto).
             apply Htbl' in Hx. congruence. }
           apply in_app_or in Hin1 as [Hin1|[<-|[]]]; apply in_app_or in Hin2 as [Hin2|[<-|[]]].
           ++ exact (Hdone e1 e2 g a1 a2 Hin1 Hin2 Hs1 Hs2).
           ++ rewrite Hsh in Hs2. inversion Hs2; subst g a2. eapply Hold; eassumption.
           ++ rewrite Hsh in Hs1. inversion Hs1; subst g a1. symmetry. eapply Hold; eassumption.
           ++ congruence.
      * destruct Hstep as (ex & ->). split; [discriminate|].
        intros [_ Hsame]. apply Nat.eqb_neq in Hra. exfalso. apply Hra.
        assert (Hr : tbl !! f = Some (Some r)) by (apply Htbl'; exact Hlk).
        apply Htbl in Hr as (e0 & Hin & Hs).
        apply (Hsame e0 e f r a); auto.
        -- apply in_or_app. left. exact Hin.
        -- apply in_or_app. right. left. reflexivity.
    + rewrite Hstep.
      assert (Hfresh : forall e0 x, In e0 done -> shape_of e0 <> Some (case_of f x)).
      { intros e0 x Hin Hs.
        assert (Hx : tbl !! f = Some (Some x)) by (apply Htbl; eauto).
        apply Htbl' in Hx. congruence. }
      rewrite (IH (<[f := Some a]> tbl') (done ++ [e])).
      * rewrite <- Hsnoc. split.
        -- intros [Hwf Hsame]. split; [|exact Hsame].
           intros e0 [<-|Hin]; [congruence|apply Hwf; exact Hin].
        -- intros [Hwf Hsame]. split; [|exact Hsame].
           intros e0 Hin. apply Hwf. right. exact Hin.
      * intros g x. rewrite list_lookup_insert.
        destruct (decide (f = g /\ (f < List.length tbl')%nat)) as [[<- _]|Hne].
        -- split.
           ++ intros Hx. inversion Hx; subst x. exists e.
              split; [apply in_or_app; right; left; reflexivity|exact Hsh].
           ++ intros (e0 & Hin & Hs). apply in_app_or in Hin as [Hin|[<-|[]]].
              ** exfalso. eapply Hfresh; eassumption.
              ** congruence.
        -- assert (Hfg : f <> g) by (intros ->; apply Hne; split; [reflexivity|exact Hlen]).
           rewrite Htbl'. rewrite (Htbl g x). split.
           ++ intros (e0 & Hin & Hs). exists e0.
              split; [apply in_or_app; left; exact Hin|exact Hs].
           ++ intros (e0 & Hin & Hs). apply in_app_or in Hin as [Hin|[<-|[]]]; [eauto|].
              rewrite Hsh in Hs. inversion Hs; subst g x. congruence.
      * intros e1 e2 g a1 a2 Hin1 Hin2 Hs1 Hs2.
        apply in_app_or in Hin1 as [Hin1|[<-|[]]]; apply in_app_or in Hin2 as [Hin2|[<-|[]]].
        -- exact (Hdone e1 e2 g a1 a2 Hin1 Hin2 Hs1 Hs2).
        -- rewrite Hsh in Hs2. inversion Hs2; subst g a2. exfalso. eapply Hfresh; eassumption.
        -- rewrite Hsh in Hs1. inversion Hs1; subst g a1. exfalso. eapply Hfresh; eassumption.
        -- congruence.
    + apply lookup_ge_None in Hlk. lia.
  - rewrite Hstep. rewrite (IH tbl (done ++ [e])).
    + rewrite <- Hsnoc. split.
      * intros [Hwf Hsame]. split; [|exact Hsame].
        intros e0 [<-|Hin]; [congruence|apply Hwf; exact Hin].
      * intros [Hwf Hsame]. split; [|exact Hsame].
        intros e0 Hin. apply Hwf. right. exact Hin.
    + intros g x. rewrite (Htbl g x). split.
      * intros (e0 & Hin & Hs). exists e0. split; [apply in_or_app; left; exact Hin|exact Hs].
      * intros (e0 & Hin & Hs). apply in_app_or in Hin as [Hin|[<-|[]]]; [eauto|congruence].
    + intros e1 e2 g a1 a2 Hin1 Hin2 Hs1 Hs2.
      apply in_app_or in Hin1 as [Hin1|[<-|[]]]; apply in_app_or in Hin2 as [Hin2|[<-|[]]];
        try congruence.
      exact (Hdone e1 e2 g a1 a2 Hin1 Hin2 Hs1 Hs2).
  - destruct Hstep as (ex & ->). split; [discriminate|].
    intros [Hwf _]. exfalso. apply (Hwf e); [left; reflexivity|exact Hsh].
Qed.

(** X25.  [check_equations_arity] accepts a list of equations exactly when each
    one is, under its lambdas, a case whose head is one of the variables
    bound by these lambdas or the marker of a definition without cases,
    and the cases of one function all have the same number of
    patterns. *)
Theorem check_equations_arity_spec :
  forall eqns,
    check_equations_arity eqns = None
    <-> (forall e, In e eqns -> shape_of e <> None) /\ same_arity eqns.
Proof.
  intros eqns. unfold check_equations_arity.
  apply (check_equations_arity_from_spec eqns [] []).
  - intros g x. split.
    + intros Hx. destruct g; discriminate.
    + intros (e & [] & _).
  - intros e1 e2 g a1 a2 [].
Qed.

End EquationProperties.

Section ApplicationProperties.
Context {C : Carriers} {X : External} {P : PatternExternal} {A : ApplicationExternal}.

Lemma info_in_bounds_implicit (i : nat) (info : first_pass_info) (a a' : expr) (b : bool) :
  info_in_bounds i info ->
  info_in_bounds i
    (push_to_new_args a' (if b then push_new_instance a info else info)).
Proof.
  intros (H1 & H2 & H3 & H4 & H5 & H6).
  assert (Hidx : forall i0 k, nth_error (new_args_size info) i0 = Some k ->
            (k < List.length (fp_new_args info ++ [a']))%nat
            /\ nth_error (fp_new_args info ++ [a']) k = nth_error (args_mvars info) i0).
  { intros i0 k Hk. destruct (H5 i0 k Hk) as [Hlt <-]. split.
    - rewrite length_app. lia.
    - apply nth_error_app1. exact Hlt. }
  destruct b; unfold info_in_bounds, push_to_new_args, push_new_instance; cbn;
    (split; [exact H1|]); (split; [exact H2|]); (split; [exact H3|]);
    (split; [exact H4|]); (split; [exact Hidx|]).
  - intros i0 b Hb. specialize (H6 i0 b Hb). rewrite length_app. lia.
  - exact H6.
Qed.

Lemma info_in_bounds_explicit (i : nat) (info : first_pass_info) (a d : expr) :
  info_in_bounds i info ->
  info_in_bounds (S i)
    (push_to_new_args a (push_arg_mvar a (push_arg_expected_type d info))).
Proof.
  intros (H1 & H2 & H3 & H4 & H5 & H6).
  unfold info_in_bounds, push_to_new_args, push_arg_mvar, push_arg_expected_type. cbn.
  rewrite !length_app. cbn.
  split; [lia|]. split; [lia|]. split; [lia|]. split; [lia|]. split.
  - intros i0 k Hk.
    destruct (Nat.lt_ge_cases i0 (List.length (new_args_size info))) as [Hlt|Hge].
    + rewrite nth_error_app1 in Hk by exact Hlt.
      destruct (H5 i0 k Hk) as [Hk1 Hk2]. split; [lia|].
      rewrite nth_error_app1 by exact Hk1.
      rewrite nth_error_app1 by lia. exact Hk2.
    + rewrite nth_error_app2 in Hk by exact Hge.
      destruct (i0 - List.length (new_args_size info))%nat as [|n] eqn:Hn.
      * cbn in Hk. inversion Hk; subst k. split; [lia|].
        rewrite nth_error_app2 by lia. rewrite Nat.sub_diag.
        assert (i0 = List.length (args_mvars info)) as -> by lia.
        rewrite nth_error_app2 by lia. rewrite Nat.sub_diag. reflexivity.
      * destruct n; discriminate.
  - intros i0 b Hb.
    destruct (Nat.lt_ge_cases i0 (List.length (new_instances_size info))) as [Hlt|Hge].
    + rewrite nth_error_app1 in Hb by exact Hlt. exact (H6 i0 b Hb).
    + rewrite nth_error_app2 in Hb by exact Hge.
      destruct (i0 - List.length (new_instances_size info))%nat as [|n] eqn:Hn.
      * cbn in Hb. inversion Hb; subst b. lia.
      * destruct n; discriminate.
Qed.

Lemma info_in_bounds_extend (i : nat) (info : first_pass_info) (ext eta : list expr) :
  info_in_bounds i info ->
  info_in_bounds i (set_new_args (fp_new_args info ++ ext) (set_eta_args eta info)).
Proof.
  intros (H1 & H2 & H3 & H4 & H5 & H6).
  unfold info_in_bounds, set_new_args, set_eta_args. cbn.
  (split; [exact H1|]); (split; [exact H2|]); (split; [exact H3|]);
    (split; [exact H4|]); (split; [|exact H6]).
  intros i0 k Hk. destruct (H5 i0 k Hk) as [Hlt <-]. split.
  - rewrite length_app. lia.
  - apply nth_error_app1. exact Hlt.
Qed.

Lemma first_pass_loop_in_bounds (fuel : nat) :
  forall fn args ref tb type i info st tb' i' info' st',
    info_in_bounds i info ->
    first_pass_loop fuel fn args ref tb type i info st = Some (Val (tb', i', info') st') ->
    info_in_bounds i' info'.
Proof.
  induction fuel as [|fuel IH]; intros fn args ref tb type i info st tb' i' info' st' Hinv;
    [discriminate|].
  cbn [first_pass_loop].
  destruct (is_pi type); cbn [negb].
  2:{ cbn. intros Heq. inversion Heq; subst. exact Hinv. }
  destruct (is_strict_implicit (binding_info type) && (i =? List.length args)%nat).
  { cbn. intros Heq. inversion Heq; subst. exact Hinv. }
  unfold bindF at 1. unfold liftF at 1.
  destruct (is_explicit (binding_info type)); cbn [negb].
  - destruct (nth_error args i) as [arg_ref|].
    + match goal with |- context [bind ?m _] => set (m0 := m) end.
      unfold bind at 1.
      destruct (m0 st) as [new_arg s1|ex s1]; [|discriminate].
      unfold ret at 1. unfold bindF at 1. unfold liftF at 1.
      destruct (whnf _ s1) as [type' s2|ex s2]; [|discriminate].
      apply IH. apply info_in_bounds_explicit. exact Hinv.
    + cbn. intros Heq. inversion Heq; subst. exact Hinv.
  - unfold bind at 1.
    destruct (mk_metavar (binding_domain type) ref st) as [new_arg s1|ex s1]; [|discriminate].
    unfold bind at 1. unfold gets at 1. unfold ret at 1.
    unfold bindF at 1. unfold liftF at 1.
    destruct (whnf _ s1) as [type' s2|ex s2]; [|discriminate].
    apply IH. apply info_in_bounds_implicit. exact Hinv.
Qed.

Lemma process_params_loop_extends (fuel : nat) :
  forall ref type eta_args new_args sz1 sz2 result_type st eta' new' sz1' sz2' result' st',
    (sz2 <= List.length new_args)%nat ->
    process_params_loop fuel ref type eta_args new_args sz1 sz2 result_type st
    = Some (Val (eta', new', sz1', sz2', result') st') ->
    (sz2 <= sz2')%nat /\ exists ext, new' = new_args ++ ext.
Proof.
  induction fuel as [|fuel IH];
    intros ref type eta_args new_args sz1 sz2 result_type st eta' new' sz1' sz2' result' st'
      Hsz; [discriminate|].
  cbn [process_params_loop].
  unfold bindF at 1. unfold liftF at 1.
  destruct (whnf type st) as [it s1|ex s1]; [|discriminate].
  destruct (is_pi it); cbn [negb].
  2:{ cbn. intros Heq. inversion Heq; subst. split; [lia|]. exists []. rewrite app_nil_r.
      reflexivity. }
  match goal with |- context [liftF ?m] => set (m0 := m) end.
  unfold bindF at 1. unfold liftF at 1.
  destruct (m0 s1) as [[[found new_arg] eta1] s2|ex s2]; [|discriminate].
  unfold bindF at 1. unfold liftF at 1. unfold gets at 1.
  destruct found; cbn [andb].
  - intros Hrec. apply IH in Hrec as (Hle & ext & ->); [|lia].
    rewrite length_app in Hle. cbn in Hle. split; [lia|].
    eexists. rewrite <- app_assoc. reflexivity.
  - intros Hrec. apply IH in Hrec as (Hle & ext & ->); [|rewrite length_app; lia].
    split; [lia|]. eexists. rewrite <- app_assoc. reflexivity.
Qed.

Lemma process_optional_and_auto_params_extends fuel type ref eta_args new_args st r eta' new' st' :
  process_optional_and_auto_params fuel type ref eta_args new_args st
  = Some (Val (r, eta', new') st') ->
  exists ext, new' = new_args ++ ext.
Proof.
  unfold process_optional_and_auto_params. unfold bindF at 1.
  destruct (process_params_loop _ _ _ _ _ _ _ _ st)
    as [[[[[[eta1 new1] sz1] sz2] rt] s1|ex s1]|] eqn:Hloop; try discriminate.
  apply process_params_loop_extends in Hloop as (Hle & ext & ->); [|lia].
  assert (Hfirst : firstn sz2 (new_args ++ ext)
                   = new_args ++ firstn (sz2 - List.length new_args) ext).
  { rewrite firstn_app. rewrite firstn_all2 by lia. reflexivity. }
  destruct rt; cbn; intros Heq; inversion Heq; subst; rewrite Hfirst; eauto.
Qed.

Lemma first_pass_in_bounds fuel fn args expected_type ref st info st' :
  elaborator_first_pass fuel fn args expected_type ref st = Some (Val info st') ->
  info_in_bounds (List.length args) info.
Proof.
  unfold elaborator_first_pass.
  unfold bindF at 1. unfold liftF at 1.
  destruct (infer_type fn st) as [fn_type s1|ex s1]; [|discriminate].
  unfold bindF at 1. unfold liftF at 1.
  destruct (whnf fn_type s1) as [type s2|ex s2]; [|discriminate].
  unfold bindF at 1.
  destruct (first_pass_loop fuel fn args ref fn_type type 0 empty_first_pass_info s2)
    as [[[[tb i] info1] s3|ex s3]|] eqn:Hloop; try discriminate.
  apply first_pass_loop_in_bounds in Hloop.
  2:{ unfold info_in_bounds. cbn.
      repeat split; auto; try (destruct i0; discriminate). }
  unfold bindF at 1.
  destruct (process_optional_and_auto_params fuel tb ref (fp_eta_args info1)
              (fp_new_args info1) s3)
    as [[[[new_type eta'] new'] s4|ex s4]|] eqn:Hproc; try discriminate.
  apply process_optional_and_auto_params_extends in Hproc as (ext & ->).
  destruct (i =? List.length args)%nat eqn:Hi; cbn [negb]; [|discriminate].
  apply Nat.eqb_eq in Hi. subst i.
  unfold bindF at 1. unfold liftF at 1.
  destruct (is_def_eq expected_type _ s4) as [eq s5|ex s5]; [|discriminate].
  destruct eq; cbn [negb].
  - cbn. intros Heq. inversion Heq; subst.
    apply info_in_bounds_extend. exact Hloop.
  - unfold liftF, bind, pp_indent, gets, ret, throw. discriminate.
Qed.

(** X26.  When [first_pass] returns, it has consumed every argument and the
    information it collected is as [second_pass] needs it: one entry per
    argument in each of the buffers of metavariables, expected types,
    positions and instance counts; each position within [new_args], where
    the metavariable of the argument is; each instance count within the
    number of new instances. *)
Theorem first_pass_info_in_bounds :
  forall fuel fn args expected_type ref st info st',
    elaborator_first_pass fuel fn args expected_type ref st = Some (Val info st') ->
    info_in_bounds (List.length args) info.
Proof. exact first_pass_in_bounds. Qed.

Lemma second_pass_loop_defined (fn ref : expr) (args : list expr) :
  forall i j info st,
    (forall i', (i <= i' < i + List.length args)%nat ->
       exists b d k m,
         nth_error (new_instances_size info) i' = Some b
         /\ (b <= List.length (new_instances info))%nat
         /\ nth_error (args_expected_types info) i' = Some d
         /\ nth_error (new_args_size info) i' = Some k
         /\ (k < List.length (fp_new_args info))%nat
         /\ nth_error (args_mvars info) i' = Some m) ->
    second_pass_loop fn ref args i j info st <> None.
Proof.
  induction args as [|arg rest IH]; intros i j info st Hb; [discriminate|].
  cbn [second_pass_loop].
  destruct (Hb i) as (b & d & k & m & Hb1 & Hb2 & Hb3 & Hb4 & Hb5 & Hb6);
    [cbn [List.length]; lia|].
  rewrite Hb1.
  assert (Hup : exists mvars, instances_upto j b (new_instances info) = Some mvars).
  { unfold instances_upto. destruct (b <=? j)%nat; [eauto|].
    apply Nat.leb_le in Hb2. rewrite Hb2. eauto. }
  destruct Hup as (mvars & ->).
  unfold bindF at 1. unfold liftF at 1.
  destruct (synthesize_new_instances mvars st) as [[] s1|ex s1]; [|discriminate].
  unfold bindF at 1. unfold liftF at 1.
  destruct (get_ref_for_child arg ref s1) as [ref_arg s2|ex s2]; [|discriminate].
  rewrite Hb3, Hb4, Hb6.
  assert (Hk : (List.length (fp_new_args info) <=? k)%nat = false)
    by (apply Nat.leb_gt; exact Hb5).
  rewrite Hk.
  unfold bindF at 1. unfold liftF at 1.
  destruct (second_pass_arg _ _ _ _ _ _ _ s2) as [v s3|ex s3]; [|discriminate].
  apply IH.
  intros i' Hi'. destruct (Hb i') as (b' & d' & k' & m' & H1 & H2 & H3 & H4 & H5 & H6);
    [cbn [List.length]; lia|].
  exists b', d', k', m'. cbn. rewrite length_insert. auto 10.
Qed.

Lemma second_pass_defined (fn ref : expr) (args : list expr) (info : first_pass_info)
    (st : elab_state) :
  info_in_bounds (List.length args) info ->
  elaborator_second_pass fn args ref info st <> None.
Proof.
  intros (H1 & H2 & H3 & H4 & H5 & H6).
  unfold elaborator_second_pass. unfold bindF at 1.
  pose proof (second_pass_loop_defined fn ref args 0 0 info st) as Hdef.
  destruct (second_pass_loop fn ref args 0 0 info st) as [[[j info'] s1|ex s1]|];
    [| discriminate |].
  - unfold bindF, liftF.
    destruct (synthesize_new_instances _ s1) as [[] s2|ex s2]; discriminate.
  - exfalso. apply Hdef; [|reflexivity].
    intros i' Hi'.
    assert (Hlt : (i' < List.length args)%nat) by lia.
    destruct (nth_error (new_instances_size info) i') as [b|] eqn:Eb;
      [|apply nth_error_None in Eb; lia].
    destruct (nth_error (args_expected_types info) i') as [d|] eqn:Ed;
      [|apply nth_error_None in Ed; lia].
    destruct (nth_error (new_args_size info) i') as [k|] eqn:Ek;
      [|apply nth_error_None in Ek; lia].
    destruct (nth_error (args_mvars info) i') as [m|] eqn:Em;
      [|apply nth_error_None in Em; lia].
    exists b, d, k, m. repeat split; auto.
    + exact (H6 i' b Eb).
    + exact (proj1 (H5 i' k Ek)).
Qed.

(** X27.  [second_pass], run on the information a call of [first_pass] for the
    same arguments returned, reads and writes its buffers within their
    bounds, in whatever state it is run: it has an outcome, a term or an
    exception. *)
Theorem second_pass_in_bounds :
  forall fuel fn args expected_type ref st info st',
    elaborator_first_pass fuel fn args expected_type ref st = Some (Val info st') ->
    forall st2, exists out, elaborator_second_pass fn args ref info st2 = Some out.
Proof.
  intros fuel fn args T ref st info st' Hfp st2.
  apply first_pass_in_bounds in Hfp.
  pose proof (second_pass_defined fn ref args info st2 Hfp) as Hd.
  destruct (elaborator_second_pass fn args ref info st2) as [out|]; [eauto|congruence].
Qed.

End ApplicationProperties.

Section SanitizeProperties.
Context {Z_ : SanitizeExternal}.

Lemma mk_param_bounded (fuel : nat) :
  (forall i j, name_append_after m_p i = name_append_after m_p j -> i = j) ->
  forall (st : sanitize_state) (candidates : gset name),
    (forall j, (m_idx st <= j)%nat ->
               name_append_after m_p j ∈ m_L st -> name_append_after m_p j ∈ candidates) ->
    (size candidates < fuel)%nat ->
    exists k,
      (k <= size candidates)%nat
      /\ (name_append_after m_p (m_idx st + k) ∉ m_L st)
      /\ (forall j, (j < k)%nat -> name_append_after m_p (m_idx st + j) ∈ m_L st)
      /\ mk_param fuel st
         = Some (let new_n := name_append_after m_p (m_idx st + k) in
                 let st' := set_m_idx (m_idx st + k + 1) st in
                 if m_fixed st then
                   Exc (lean_exception generic_exception (universe_not_in_type_msg new_n)) st'
                 else Val (level_param new_n) (push_param_name new_n st')).
Proof.
  intros Hinj. induction fuel as [|fuel IH]; intros st candidates Hc Hsz; [lia|].
  cbn [mk_param]. cbn [m_L m_fixed set_m_idx].
  destruct (bool_decide (name_append_after m_p (m_idx st) ∈ m_L st)) eqn:Hin.
  - apply bool_decide_eq_true in Hin.
    assert (Hcand : name_append_after m_p (m_idx st) ∈ candidates)
      by (apply Hc; [lia|exact Hin]).
    assert (Hsize : size (candidates ∖ {[name_append_after m_p (m_idx st)]})
                    = (size candidates - 1)%nat).
    { rewrite size_difference by (apply singleton_subseteq_l; exact Hcand).
      rewrite size_singleton. reflexivity. }
    assert (Hpos : (0 < size candidates)%nat).
    { destruct (size candidates) eqn:Hs; [|lia].
      apply size_empty_inv in Hs. apply leibniz_equiv in Hs. subst candidates.
      apply not_elem_of_empty in Hcand. contradiction. }
    destruct (IH (set_m_idx (S (m_idx st)) st)
                 (candidates ∖ {[name_append_after m_p (m_idx st)]}))
      as (k & Hk & Hfresh & Hbelow & Hrun).
    + cbn [m_idx m_L set_m_idx]. intros j Hj Hjin.
      apply elem_of_difference. split; [apply Hc; [lia|exact Hjin]|].
      intros Heq. apply elem_of_singleton in Heq. apply Hinj in Heq. lia.
    + rewrite Hsize. lia.
    + cbn [m_idx m_L m_fixed set_m_idx] in *.
      exists (S k). split; [rewrite Hsize in Hk; lia|].
      replace (m_idx st + S k)%nat with (S (m_idx st) + k)%nat by lia.
      split; [exact Hfresh|]. split.
      * intros j Hj. destruct j as [|j].
        -- rewrite Nat.add_0_r. exact Hin.
        -- replace (m_idx st + S j)%nat with (S (m_idx st) + j)%nat by lia.
           apply Hbelow. lia.
      * rewrite Hrun. unfold set_m_idx, push_param_name.
        cbn [m_L m_R m_U m_idx m_new_param_names m_fixed].
        replace (S (m_idx st) + k + 1)%nat with (m_idx st + S k + 1)%nat by lia.
        replace (S (m_idx st) + k)%nat with (m_idx st + S k)%nat by lia.
        reflexivity.
  - apply bool_decide_eq_false in Hin.
    exists 0%nat. rewrite !Nat.add_0_r.
    split; [lia|]. split; [exact Hin|]. split; [intros j Hj; lia|].
    replace (m_idx st + 1)%nat with (S (m_idx st)) by lia.
    cbv zeta. destruct (m_fixed st); reflexivity.
Qed.

(** X28.  When [append_after] gives different names for different indices,
    [mk_param] stops after at most one more iteration than [m_L] has
    names: it skips the indices from [m_idx] on whose name is in [m_L],
    leaves [m_idx] after the first index whose name is not, and for that
    name either throws (the function is run on fixed tables) or records
    the name and returns the parameter of that name. *)
Theorem mk_param_spec :
  (forall i j, name_append_after m_p i = name_append_after m_p j -> i = j) ->
  forall (st : sanitize_state) (fuel : nat),
    (size (m_L st) < fuel)%nat ->
    exists k,
      (k <= size (m_L st))%nat
      /\ (name_append_after m_p (m_idx st + k) ∉ m_L st)
      /\ (forall j, (j < k)%nat -> name_append_after m_p (m_idx st + j) ∈ m_L st)
      /\ mk_param fuel st
         = Some (let new_n := name_append_after m_p (m_idx st + k) in
                 let st' := set_m_idx (m_idx st + k + 1) st in
                 if m_fixed st then
                   Exc (lean_exception generic_exception (universe_not_in_type_msg new_n)) st'
                 else Val (level_param new_n) (push_param_name new_n st')).
Proof.
  intros Hinj st fuel Hsz.
  apply (mk_param_bounded fuel Hinj st (m_L st)); [auto|exact Hsz].
Qed.

End SanitizeProperties.

Section ResolveProperties.
Context {C : Carriers} {F : FieldExternal} {R : ResolveExternal}.

(** X29.  In [resolve_local_name] a name of the local context hides everything
    else; the resolution fails, with the unknown identifier error at the
    source term, exactly when the name is found nowhere: not in the local
    context, not among the local references, in no namespace, not as an
    exact name, not as a global, and not among the aliases unless they
    are ignored; and when only the global and the aliases are left, the
    aliases, if there are any and they are not ignored, give a choice
    with the global first. *)
Theorem resolve_local_name_spec :
  forall env lctx id src ignore_aliases,
    (forall ref, find_local_ref lctx id = Some ref ->
       resolve_local_name env lctx id src ignore_aliases = inr ref)
    /\ ((exists ex, resolve_local_name env lctx id src ignore_aliases = inl ex)
        <-> find_local_ref lctx id = None
            /\ get_local_ref env id = None
            /\ (forall ns, In ns (get_namespaces env) -> found_in_namespace env id ns = false)
            /\ (is_atomic id = true \/ env_find env (remove_root_prefix id) = false)
            /\ env_find env id = false
            /\ (ignore_aliases = true \/ get_expr_aliases env id = []))
    /\ (forall ex, resolve_local_name env lctx id src ignore_aliases = inl ex ->
          ex = elaborator_exception src (unknown_identifier_msg id))
    /\ (find_local_ref lctx id = None ->
        get_local_ref env id = None ->
        (forall ns, In ns (get_namespaces env) -> found_in_namespace env id ns = false) ->
        (is_atomic id = true \/ env_find env (remove_root_prefix id) = false) ->
        forall a as_, get_expr_aliases env id = a :: as_ ->
          resolve_local_name env lctx id src false
          = inr (mk_choice ((if env_find env id then [mk_constant id] else [])
                            ++ map mk_constant (a :: as_)))
          /\ resolve_local_name env lctx id src true
             = if env_find env id then inr (mk_constant id)
               else inl (elaborator_exception src (unknown_identifier_msg id))).
Proof.
  intros env lctx id src ignore_aliases.
  assert (Hfind : forall l, List.find (found_in_namespace env id) l = None
                  <-> forall ns, In ns l -> found_in_namespace env id ns = false).
  { intros l. split.
    - intros Hn ns Hin. exact (find_none _ _ Hn ns Hin).
    - intros Hall. induction l as [|x l IHl]; [reflexivity|]. cbn.
      rewrite (Hall x (or_introl eq_refl)). apply IHl. intros ns Hin. apply Hall. right.
      exact Hin. }
  split; [|split; [|split]].
  - intros ref Hl. unfold resolve_local_name. rewrite Hl. reflexivity.
  - unfold resolve_local_name, global_or_aliases.
    destruct (find_local_ref lctx id) as [r|].
    { split; [intros (ex & Hex); discriminate|intros (Hn & _); discriminate]. }
    destruct (get_local_ref env id) as [r|].
    { split; [intros (ex & Hex); discriminate|intros (_ & Hn & _); discriminate]. }
    destruct (List.find (found_in_namespace env id) (get_namespaces env)) as [ns|] eqn:Hns.
    { split; [intros (ex & Hex); discriminate|].
      intros (_ & _ & Hall & _). apply (proj2 (Hfind _)) in Hall. congruence. }
    pose proof (proj1 (Hfind _) Hns) as Hns'.
    destruct (is_atomic id) eqn:Hat; cbn [negb andb];
      [|destruct (env_find env (remove_root_prefix id)) eqn:Hex];
      try (split; [intros (ex & He); discriminate
                  |intros (_ & _ & _ & [Hd|Hd] & _); discriminate]);
      (destruct (env_find env id) eqn:Hg;
       [ split; [|intros (_ & _ & _ & _ & Hd & _); discriminate];
         destruct ignore_aliases; cbn [negb];
         [ intros (ex & He); discriminate
         | destruct (get_expr_aliases env id); intros (ex & He); discriminate ]
       | destruct ignore_aliases; cbn [negb];
         [ split; [intros _; auto 10|intros _; eauto]
         | destruct (get_expr_aliases env id) eqn:Hal;
           [ split; [intros _; auto 10|intros _; eauto]
           | split; [intros (ex & He); discriminate
                    |intros (_ & _ & _ & _ & _ & [Hd|Hd]); discriminate] ] ] ]).
  - intros ex. unfold resolve_local_name.
    destruct (find_local_ref lctx id); [discriminate|].
    destruct (get_local_ref env id); [discriminate|].
    destruct (List.find _ _); [discriminate|].
    destruct (negb (is_atomic id) && env_find env (remove_root_prefix id)); [discriminate|].
    destruct (global_or_aliases env id ignore_aliases); [discriminate|].
    intros Heq. inversion Heq. reflexivity.
  - intros Hl Hr Hall Hexact a as_ Hal.
    apply (proj2 (Hfind _)) in Hall.
    assert (Hx : negb (is_atomic id) && env_find env (remove_root_prefix id) = false).
    { destruct Hexact as [-> | ->]; [reflexivity|apply andb_false_r]. }
    unfold resolve_local_name, global_or_aliases.
    rewrite Hl, Hr, Hall, Hx, Hal. cbn [negb].
    destruct (env_find env id); split; reflexivity.
Qed.

Lemma distinct_snoc (l : list expr) (x : expr) :
  distinct l -> (forall y, In y l -> expr_eq y x = false) -> distinct (l ++ [x]).
Proof.
  induction l as [|a l IH]; cbn; intros Hd Hx.
  - split; [intros y []|exact I].
  - destruct Hd as [Ha Hd]. split.
    + intros y Hin. apply in_app_or in Hin as [Hin|[<-|[]]]; [apply Ha; exact Hin|].
      apply Hx. left. reflexivity.
    + apply IH; [exact Hd|]. intros y Hin. apply Hx. right. exact Hin.
Qed.

Lemma push_new_arg_distinct (fuel : nat) :
  forall new_args arg r,
    push_new_arg fuel new_args arg = Some r ->
    (exists ext, r = new_args ++ ext /\ Forall (fun x => is_choice x = false) ext)
    /\ (distinct new_args -> distinct r).
Proof.
  induction fuel as [|fuel IH]; intros new_args arg r; [discriminate|].
  cbn [push_new_arg].
  destruct (is_choice arg) eqn:Hc.
  - generalize (get_choices arg). intros choices. revert new_args.
    induction choices as [|c choices IHc]; intros new_args; cbn [fold_left].
    + intros Heq. inversion Heq; subst. split; [|auto].
      exists []. rewrite app_nil_r. split; [reflexivity|constructor].
    + destruct (push_new_arg fuel new_args c) as [l|] eqn:Hp.
      * intros Hrest. destruct (IH _ _ _ Hp) as [(ext1 & -> & Hf1) Hd1].
        destruct (IHc _ Hrest) as [(ext2 & -> & Hf2) Hd2].
        split; [|auto].
        exists (ext1 ++ ext2). rewrite app_assoc. split; [reflexivity|].
        apply Forall_app. split; assumption.
      * intros Hrest. exfalso. clear -Hrest.
        induction choices as [|c' choices IHc']; cbn in Hrest; [discriminate|auto].
  - destruct (existsb (fun x => expr_eq x arg) new_args) eqn:He.
    + intros Heq. inversion Heq; subst. split; [|auto].
      exists []. rewrite app_nil_r. split; [reflexivity|constructor].
    + intros Heq. inversion Heq; subst. split.
      * exists [arg]. split; [reflexivity|]. constructor; [exact Hc|constructor].
      * intros Hd. apply distinct_snoc; [exact Hd|].
        intros y Hin. 
        destruct (expr_eq y arg) eqn:Hy; [|reflexivity].
        assert (Ht : existsb (fun x => expr_eq x arg) new_args = true).
        { apply existsb_exists. exists y. split; [exact Hin|exact Hy]. }
        congruence.
Qed.

(** X30.  [push_new_arg] only appends to the buffer, what it appends holds no
    choice (a choice is replaced by its alternatives, however nested),
    and it appends no term equal to one the buffer already holds: a
    buffer without duplicates stays so. *)
Theorem push_new_arg_spec :
  forall fuel new_args arg r,
    push_new_arg fuel new_args arg = Some r ->
    (exists ext, r = new_args ++ ext /\ Forall (fun x => is_choice x = false) ext)
    /\ (distinct new_args -> distinct r).
Proof. intros fuel. apply push_new_arg_distinct. Qed.

End ResolveProperties.


Section ListInstanceProperties.
Context {A : Type}.

Lemma decidable_bex_true (p : A -> bool) (l : list A) :
  decidable_bex p l = true <-> exists x, In x l /\ p x = true.
Proof.
  induction l as [|x xs IH]; cbn [decidable_bex].
  - split; [discriminate|intros (x & [] & _)].
  - destruct (p x) eqn:Hx.
    + split; [intros _; exists x; split; [left; reflexivity|exact Hx]|reflexivity].
    + destruct (decidable_bex p xs).
      * split; [intros _|reflexivity].
        destruct (proj1 IH eq_refl) as (y & Hin & Hy). exists y. split; [right; exact Hin|exact Hy].
      * split; [discriminate|]. intros (y & [<-|Hin] & Hy); [congruence|].
        apply IH. exists y. split; assumption.
Qed.

(** X23.  The two decision procedures for bounded quantifiers over a list
    decide what their types say: [decidable_bex] answers yes exactly when
    some element of the list satisfies the predicate, [decidable_ball]
    exactly when every element does; on the empty list the answers are no
    and yes. *)
Theorem list_bounded_quantifiers_decided :
  forall (p : A -> bool) (l : list A),
    (decidable_bex p l = true <-> exists x, In x l /\ p x = true)
    /\ (decidable_ball p l = true <-> forall x, In x l -> p x = true)
    /\ decidable_bex p [] = false
    /\ decidable_ball p [] = true.
Proof.
  intros p l. split; [apply decidable_bex_true|]. split; [|split; reflexivity].
  unfold decidable_ball.
  destruct (decidable_bex (fun x => negb (p x)) l) eqn:Hb.
  - split; [discriminate|]. intros Hall.
    apply decidable_bex_true in Hb as (x & Hin & Hx).
    rewrite (Hall x Hin) in Hx. discriminate.
  - split; [|reflexivity]. intros _ x Hin.
    destruct (p x) eqn:Hx; [reflexivity|].
    assert (Ht : decidable_bex (fun x => negb (p x)) l = true).
    { apply decidable_bex_true. exists x. split; [exact Hin|]. rewrite Hx. reflexivity. }
    congruence.
Qed.

End ListInstanceProperties.

(** * The further properties at work on the small instance *)

Section FurtherExamples.
#[local] Existing Instance toy_carriers.
#[local] Existing Instance plain_external.
#[local] Existing Instance toy_hint_external.
#[local] Existing Instance toy_coercion_external.
#[local] Existing Instance toy_hint_order_external.
#[local] Existing Instance toy_numeral_external.
#[local] Existing Instance toy_head_external.
#[local] Existing Instance toy_pattern_external.
#[local] Existing Instance toy_field_external.
#[local] Existing Instance toy_equation_external.
#[local] Existing Instance toy_application_external.
#[local] Existing Instance toy_sanitize_external.
#[local] Existing Instance toy_resolve_external.

(** *** Coercions to functions *)

Lemma mk_coercion_to_fn_sort_some_witness :
  mk_coercion_to_fn_sort true ex_zero ex_nat ex_zero coe_state
  = Val (Some (mk_app (mk_constant get_coe_fn_name) [ex_nat; ex_zero])) coe_state
  /\ m_coercions coe_state = true
  /\ frame coe_state coe_state.
Proof.
  assert (H : mk_coercion_to_fn_sort true ex_zero ex_nat ex_zero coe_state
              = Val (Some (mk_app (mk_constant get_coe_fn_name) [ex_nat; ex_zero])) coe_state)
    by (vm_compute; reflexivity).
  split; [exact H|].
  pose proof (mk_coercion_to_fn_sort_some true ex_zero ex_nat ex_zero coe_state _ _ H)
    as (Hc & Hf & _).
  split; [exact Hc|exact Hf].
Defined.

(** *** A type headed by a metavariable *)

(** The type [?m nat] of [T] is headed by a metavariable: [ensure_type] and
    [get_level] make a universe metavariable and try to unify [?m nat] with
    its sort before they give up. *)
Example ensure_type_applied_metavariable :
  is_metavar (App ex_meta_m ex_nat) = false
  /\ is_meta (App ex_meta_m ex_nat) = true
  /\ ensure_type (cst "T") ex_zero applied_meta_state
     = Exc (elaborator_exception ex_zero
              (fmt_text "type expected at" <+> fmt_nest 2 (fmt_line <+> fmt_pp (cst "T"))))
         applied_meta_state_after.
Proof. repeat split; vm_compute; reflexivity. Qed.

Example get_level_applied_metavariable :
  elaborator_get_level (cst "T") ex_zero applied_meta_state
  = Exc (elaborator_exception ex_zero
           (fmt_text "type expected at" <+> fmt_nest 2 (fmt_line <+> fmt_pp (cst "T"))))
      applied_meta_state_after.
Proof. vm_compute. reflexivity. Qed.

(** *** A failed instance search *)

Lemma mk_instance_core_failure_witness :
  tc_mk_class_instance_at tt (App (cst "inhabited") ex_nat) (m_ctx fallback_state)
  = Val None (m_ctx fallback_state)
  /\ mk_instance_core tt (App (cst "inhabited") ex_nat) ex_zero fallback_state
     = Val (lib_mk_sorry (App (cst "inhabited") ex_nat))
         (report_diagnostic
            (elaborator_exception ex_zero
               (fmt_text "failed to synthesize type class instance for"
                <+> fmt_line <+> fmt_goal (App (cst "inhabited") ex_nat)))
            None fallback_state).
Proof.
  assert (H : tc_mk_class_instance_at tt (App (cst "inhabited") ex_nat)
                (m_ctx fallback_state) = Val None (m_ctx fallback_state))
    by (vm_compute; reflexivity).
  split; [exact H|].
  exact (mk_instance_core_failure tt (App (cst "inhabited") ex_nat) ex_zero fallback_state
           (m_ctx fallback_state) H).
Defined.

(** *** Draining the chain of instances *)


(** *** Registrations *)

Lemma returns_true {S A} (o : outcome S A) :
  returns o = true -> exists a s, o = Val a s.
Proof. destruct o; [eauto|discriminate]. Qed.

Lemma returns_false {S A} (o : outcome S A) :
  returns o = false -> exists ex s, o = Exc ex s.
Proof. destruct o; [discriminate|eauto]. Qed.

Lemma register_hint_failure_witness :
  exists ex st',
    register_hint (H := toy_hint_external) empty_env (mk_string anonymous "no_hint") ex_zero 10
      empty_registry = Exc ex st'
    /\ m_hints st' = m_hints empty_registry
    /\ m_decl_names_to_prio st'
       = <[mk_string anonymous "no_hint" := 10%nat]> (m_decl_names_to_prio empty_registry).
Proof.
  assert (Hf : returns (register_hint (H := toy_hint_external) empty_env
                          (mk_string anonymous "no_hint") ex_zero 10 empty_registry) = false)
    by (vm_compute; reflexivity).
  destruct (returns_false _ Hf) as (ex & st' & H).
  exists ex, st'. split; [exact H|].
  pose proof (register_hint_failure _ _ _ _ _ _ _ H) as (H1 & H2 & _).
  split; [exact H1|exact H2].
Defined.

Lemma register_hint_frame_witness :
  exists st',
    register_hint (H := toy_hint_external) empty_env (mk_string anonymous "succ_add_hint")
      ex_hint_value 1000 empty_registry = Val tt st'
    /\ m_decl_names_to_prio st'
       = <[mk_string anonymous "succ_add_hint" := 1000%nat]>
           (m_decl_names_to_prio empty_registry)
    /\ get_unification_hints (m_hints st') (const_name ex_f) (const_name ex_g) []
       = get_unification_hints (m_hints empty_registry) (const_name ex_f) (const_name ex_g) [].
Proof.
  assert (Hv : returns (register_hint (H := toy_hint_external) empty_env
                          (mk_string anonymous "succ_add_hint") ex_hint_value 1000
                          empty_registry) = true)
    by (vm_compute; reflexivity).
  destruct (returns_true _ Hv) as ([] & st' & H).
  exists st'. split; [exact H|].
  pose proof (register_hint_frame _ _ _ _ _ _ H) as (H1 & H2 & _).
  split; [exact H1|]. apply H2. vm_compute. discriminate.
Defined.

Lemma unification_hint_cmp_prefix_witness :
  (forall p, expr_pair_quick_cmp p p = 0)
  /\ expr_neq ex_f ex_f = false
  /\ unification_hint_cmp (mk_unification_hint ex_f ex_g [] 0)
       (mk_unification_hint ex_f ex_g [(ex_nat, ex_zero)] 1) = 0.
Proof.
  assert (Hp : forall p, expr_pair_quick_cmp p p = 0) by (intros p; cbn; lia).
  assert (Hf : expr_neq ex_f ex_f = false) by (vm_compute; reflexivity).
  assert (Hg : expr_neq ex_g ex_g = false) by (vm_compute; reflexivity).
  split; [exact Hp|]. split; [exact Hf|].
  exact (proj1 (unification_hint_cmp_prefix ex_f ex_g [] [(ex_nat, ex_zero)] 0 1 Hp Hf Hg)).
Defined.

(** *** Numerals *)

Lemma visit_prenum_value_witness :
  exists r s',
    visit_prenum (ex_prenum 5) (Some ex_nat) numeral_state = Val r s'
    /\ 0 <= prenum_value (ex_prenum 5)
    /\ numeral_value r = Some 5.
Proof.
  destruct (visit_prenum (ex_prenum 5) (Some ex_nat) numeral_state) as [r s'|ex s'] eqn:H.
  - exists r, s'. split; [reflexivity|].
    assert (Hv : 0 <= prenum_value (ex_prenum 5)) by (cbn; lia).
    split; [exact Hv|].
    exact (visit_prenum_value (ex_prenum 5) (Some ex_nat) numeral_state r s' H Hv).
  - exfalso. vm_compute in H. discriminate H.
Defined.

(** The numeral five over [nat]. *)
Example five :
  visit_prenum (ex_prenum 5) (Some ex_nat) numeral_state
  = Val (mk_app (Constant get_bit1_name [level_zero])
           [ ex_nat; cst "nat.has_one"; cst "nat.has_add";
             mk_app (Constant get_bit0_name [level_zero])
               [ ex_nat; cst "nat.has_add";
                 mk_app (Constant get_one_name [level_zero]) [ex_nat; cst "nat.has_one"] ] ])
        numeral_state.
Proof. vm_compute. reflexivity. Qed.

(** *** Constants *)

Lemma visit_const_core_levels_witness :
  exists r s',
    get_num_univ_params (m_env app_state) (const_name ex_const_f) = inr 1%nat
    /\ visit_const_core ex_const_f app_state = Val r s'
    /\ exists ls s1 us,
         mapM replace_univ_placeholder (const_levels ex_const_f) app_state = Val ls s1
         /\ r = Constant (const_name ex_const_f) (ls ++ us)
         /\ List.length (ls ++ us) = 1%nat.
Proof.
  assert (Hn : get_num_univ_params (m_env app_state) (const_name ex_const_f) = inr 1%nat)
    by (vm_compute; reflexivity).
  destruct (visit_const_core ex_const_f app_state) as [r s'|ex s'] eqn:H.
  - exists r, s'. split; [exact Hn|]. split; [reflexivity|].
    apply (proj1 (visit_const_core_levels ex_const_f app_state 1 r s' Hn H)).
    cbn. lia.
  - exfalso. vm_compute in H. discriminate H.
Defined.

(** *** Field notation *)

Lemma visit_field_spec_witness :
  exists r st',
    visit_field 1 ex_field_x None field_state = Some (Val r st')
    /\ exists s st1 n st2,
         visit (macro_arg ex_field_x 0) None field_state = Val s st1
         /\ same_rest st1 st2
         /\ (exists t, is_constant (get_app_fn t) = true
                       /\ field_of (m_env st2) ex_field_x (const_name (get_app_fn t)) n)
         /\ visit (App (Constant n []) (mk_as_is s)) None st2 = Val r st'.
Proof.
  destruct (visit_field 1 ex_field_x None field_state) as [[r st'|ex st']|] eqn:H.
  - exists r, st'. split; [reflexivity|].
    exact (visit_field_spec 1 ex_field_x None field_state r st' H).
  - exfalso. vm_compute in H. discriminate H.
  - exfalso. vm_compute in H. discriminate H.
Defined.

(** [p^.x] is [point.x] applied to [p]; [p^.1] is the same projection, and
    [p^.2] is out of bounds. *)
Example field_by_name_and_index :
  visit_field 1 ex_field_x None field_state
  = Some (Val (App (Constant point_x []) (mk_as_is ex_p)) field_state)
  /\ visit_field 1 (ex_field_idx 1) None field_state
     = Some (Val (App (Constant point_x []) (mk_as_is ex_p)) field_state)
  /\ exists msg,
       visit_field 1 (ex_field_idx 2) None field_state
       = Some (Exc (elaborator_exception (ex_field_idx 2) msg) field_state).
Proof.
  split; [vm_compute; reflexivity|]. split; [vm_compute; reflexivity|].
  eexists. vm_compute. reflexivity.
Qed.

(** *** Equations *)

Lemma copy_domain_spec_witness :
  List.length (binder_domains 1 (ex_lam (Var 0))) = 1%nat
  /\ List.length (binder_domains 1 (mk_lambda "g" ex_bool ex_zero)) = 1%nat
  /\ binder_domains 1 (copy_domain 1 (ex_lam (Var 0)) (mk_lambda "g" ex_bool ex_zero))
     = [mk_as_is ex_nat]
  /\ under_binders 1 (copy_domain 1 (ex_lam (Var 0)) (mk_lambda "g" ex_bool ex_zero))
     = ex_zero.
Proof.
  assert (H1 : List.length (binder_domains 1 (ex_lam (Var 0))) = 1%nat) by reflexivity.
  assert (H2 : List.length (binder_domains 1 (mk_lambda "g" ex_bool ex_zero)) = 1%nat)
    by reflexivity.
  split; [exact H1|]. split; [exact H2|].
  exact (copy_domain_spec 1 (ex_lam (Var 0)) (mk_lambda "g" ex_bool ex_zero) H1 H2).
Defined.

(** Two cases of one function with one and with two patterns are refused,
    two with one pattern each are accepted. *)
Example arity_checked :
  check_equations_arity [ex_eqn1; ex_eqn2]
  = Some (elaborator_exception
            (Macro "equation" [mk_app (Var 0) [ex_zero; ex_zero]; ex_zero])
            different_arity_msg)
  /\ check_equations_arity [ex_eqn1; ex_eqn1] = None.
Proof. split; vm_compute; reflexivity. Qed.

(** *** Patterns *)

(** The parameter of [list.cons] must be marked, also in a nested
    pattern. *)
Example cons_patterns :
  check_pattern_inaccessible_annotations list_env
    (ex_cons (mk_inaccessible ex_nat) ex_zero ex_zero) = None
  /\ check_pattern_inaccessible_annotations list_env (ex_cons ex_nat ex_zero ex_zero)
     = Some (elaborator_exception (Constant list_cons []) inaccessible_params_msg)
  /\ check_pattern_inaccessible_annotations list_env
       (ex_cons (mk_inaccessible ex_nat) ex_zero (ex_cons ex_nat ex_zero ex_zero))
     = Some (elaborator_exception (Constant list_cons []) inaccessible_params_msg).
Proof. repeat split; vm_compute; reflexivity. Qed.

(** *** The two passes *)

Lemma first_pass_info_in_bounds_witness :
  exists info st',
    elaborator_first_pass 3 ex_f [ex_zero] ex_nat ex_app app_state = Some (Val info st')
    /\ info_in_bounds 1 info.
Proof.
  destruct (elaborator_first_pass 3 ex_f [ex_zero] ex_nat ex_app app_state)
    as [[info st'|ex st']|] eqn:H.
  - exists info, st'. split; [reflexivity|].
    exact (first_pass_info_in_bounds 3 ex_f [ex_zero] ex_nat ex_app app_state info st' H).
  - exfalso. vm_compute in H. discriminate H.
  - exfalso. vm_compute in H. discriminate H.
Defined.

Lemma second_pass_in_bounds_witness :
  exists info st',
    elaborator_first_pass 3 ex_f [ex_zero] ex_nat ex_app app_state = Some (Val info st')
    /\ forall st2, exists out, elaborator_second_pass ex_f [ex_zero] ex_app info st2 = Some out.
Proof.
  destruct (elaborator_first_pass 3 ex_f [ex_zero] ex_nat ex_app app_state)
    as [[info st'|ex st']|] eqn:H.
  - exists info, st'. split; [reflexivity|].
    exact (second_pass_in_bounds 3 ex_f [ex_zero] ex_nat ex_app app_state info st' H).
  - exfalso. vm_compute in H. discriminate H.
  - exfalso. vm_compute in H. discriminate H.
Defined.

(** *** Universe parameters *)

Lemma toy_append_after_inj (i j : nat) :
  name_append_after m_p i = name_append_after m_p j -> i = j.
Proof. cbn. intros H. inversion H. lia. Qed.

Lemma mk_param_spec_witness :
  (forall i j, name_append_after m_p i = name_append_after m_p j -> i = j)
  /\ (size (m_L ex_sanitize_state) < 3)%nat
  /\ exists k,
       (k <= size (m_L ex_sanitize_state))%nat
       /\ name_append_after m_p (m_idx ex_sanitize_state + k) ∉ m_L ex_sanitize_state.
Proof.
  assert (Hsz : (size (m_L ex_sanitize_state) < 3)%nat) by (vm_compute; lia).
  split; [exact toy_append_after_inj|]. split; [exact Hsz|].
  destruct (mk_param_spec toy_append_after_inj ex_sanitize_state 3 Hsz)
    as (k & Hk & Hfresh & _ & _).
  exists k. split; [exact Hk|exact Hfresh].
Defined.

(** [u_1] and [u_2] are taken: the parameter made is [u_3]. *)
Example third_universe :
  mk_param 3 ex_sanitize_state
  = Some (Val (level_param (ex_u 3))
            (push_param_name (ex_u 3) (set_m_idx 4 ex_sanitize_state))).
Proof. vm_compute. reflexivity. Qed.

(** *** Names and choices *)

Lemma push_new_arg_spec_witness :
  push_new_arg 3 [ex_f] ex_nested_choice = Some [ex_f; ex_g; ex_h]
  /\ distinct [ex_f; ex_g; ex_h].
Proof.
  assert (H : push_new_arg 3 [ex_f] ex_nested_choice = Some [ex_f; ex_g; ex_h])
    by (vm_compute; reflexivity).
  split; [exact H|].
  apply (proj2 (push_new_arg_spec 3 [ex_f] ex_nested_choice _ H)).
  split; [intros y []|exact I].
Defined.

(** [f] is a global; [zz] is nowhere. *)
Example resolved_names :
  resolve_local_name overload_env tt (mk_string anonymous "f") ex_f false = inr ex_f
  /\ resolve_local_name overload_env tt (mk_string anonymous "zz") ex_f false
     = inl (elaborator_exception ex_f (unknown_identifier_msg (mk_string anonymous "zz"))).
Proof. split; vm_compute; reflexivity. Qed.

End FurtherExamples.
